(** * gen_index.py: reconciliation of a photo directory with its index.md

    A shallow embedding of [scripts/gen_index.py] and the proofs of the
    properties its specification states.

    Conventions of the embedding.
    - A Python [str] is the list of its code points ([pystr]); line breaks
      and white space are the sets CPython uses for [str.splitlines] and
      [str.strip].
    - A value loaded from YAML is a tree ([value]).  Mappings keep their
      insertion order and are keyed by strings.  A float is a dyadic
      number, an infinity or a nan ([pyfloat]).
      A document whose nodes are shared through YAML anchors is outside the
      model: the script itself never writes one (it dumps with
      [ignore_aliases]).
    - An exception that the script does not catch ends the run: functions
      that can raise return [result].
    - PyYAML, [int] on strings and the EXIF reader are collaborators of the
      script; the development is parametric in them. *)

From Stdlib Require Import List ZArith NArith Bool Lia String Ascii Sorted
  Permutation.
Import ListNotations.
Local Open Scope Z_scope.

Set Implicit Arguments.
Set Warnings "-register-all".

(* ================================================================== *)
(** ** Python strings *)

Module PyStr.

Definition pystr := list N.

(** The code points of an ASCII literal. *)
Definition str (s : string) : pystr :=
  map N_of_ascii (list_ascii_of_string s).

Definition nl : pystr := [10%N].

Fixpoint eqb (a b : pystr) : bool :=
  match a, b with
  | [], [] => true
  | x :: a', y :: b' => N.eqb x y && eqb a' b'
  | _, _ => false
  end.

(** [a < b] in Python: code point by code point, a proper prefix first. *)
Fixpoint ltb (a b : pystr) : bool :=
  match a, b with
  | _, [] => false
  | [], _ :: _ => true
  | x :: a', y :: b' => N.ltb x y || (N.eqb x y && ltb a' b')
  end.

Definition leb (a b : pystr) : bool := negb (ltb b a).

(** [str.isspace] for one code point (CPython's [_PyUnicode_IsWhitespace]). *)
Definition is_space (c : N) : bool :=
  ((9 <=? c) && (c <=? 13) || (28 <=? c) && (c <=? 32)
   || (c =? 133) || (c =? 160) || (c =? 5760)
   || (8192 <=? c) && (c <=? 8202)
   || (c =? 8232) || (c =? 8233) || (c =? 8239) || (c =? 8287)
   || (c =? 12288))%N.

(** The line boundaries of [str.splitlines]. *)
Definition is_linebreak (c : N) : bool :=
  ((10 <=? c) && (c <=? 13) || (28 <=? c) && (c <=? 30)
   || (c =? 133) || (c =? 8232) || (c =? 8233))%N.

Fixpoint lstrip (s : pystr) : pystr :=
  match s with
  | c :: s' => if is_space c then lstrip s' else s
  | [] => []
  end.

Definition rstrip (s : pystr) : pystr := rev (lstrip (rev s)).

(** [s.strip()] *)
Definition strip (s : pystr) : pystr := rstrip (lstrip s).

(** [s.splitlines()]: [cur] is the current line, reversed.  A carriage
    return followed by a line feed is one boundary; no empty last line is
    produced after a final boundary. *)
Fixpoint splitlines_from (cur : pystr) (s : pystr) : list pystr :=
  match s with
  | [] => match cur with [] => [] | _ => [rev cur] end
  | c :: s' =>
      if is_linebreak c then
        rev cur ::
          match s' with
          | d :: s'' =>
              if ((c =? 13) && (d =? 10))%N then splitlines_from [] s''
              else splitlines_from [] s'
          | [] => splitlines_from [] s'
          end
      else splitlines_from (c :: cur) s'
  end.

Definition splitlines (s : pystr) : list pystr := splitlines_from [] s.

(** [sep.join(parts)] *)
Fixpoint join (sep : pystr) (parts : list pystr) : pystr :=
  match parts with
  | [] => []
  | [p] => p
  | p :: rest => p ++ sep ++ join sep rest
  end.

(** [s.split(sep)] for a one-character separator. *)
Fixpoint split_from (sep : N) (cur : pystr) (s : pystr) : list pystr :=
  match s with
  | [] => [rev cur]
  | c :: s' =>
      if (c =? sep)%N then rev cur :: split_from sep [] s'
      else split_from sep (c :: cur) s'
  end.

Definition split (sep : N) (s : pystr) : list pystr := split_from sep [] s.

(** [s.endswith("\n")] *)
Definition endswith_nl (s : pystr) : bool :=
  match rev s with
  | c :: _ => (c =? 10)%N
  | [] => false
  end.

Fixpoint startswith (p s : pystr) : bool :=
  match p, s with
  | [], _ => true
  | x :: p', y :: s' => N.eqb x y && startswith p' s'
  | _ :: _, [] => false
  end.

(** [p in s] for two strings: [p] occurs in [s]. *)
Fixpoint contains (p s : pystr) : bool :=
  startswith p s ||
  match s with
  | [] => false
  | _ :: s' => contains p s'
  end.

(** [s.rfind(".")], counted from the left; [None] for Python's -1. *)
Fixpoint rfind_dot (s : pystr) : option nat :=
  match s with
  | [] => None
  | c :: s' =>
      match rfind_dot s' with
      | Some i => Some (S i)
      | None => if (c =? 46)%N then Some O else None
      end
  end.

End PyStr.

Import PyStr.

(* ================================================================== *)
(** ** Values, exceptions and dictionaries *)

(** A Python [float].  [FFin m e] is the finite float m * 2^e (every
    finite float is such a number; -0.0 is 0).  A nan is equal to no
    float, itself included: a dictionary finds it by the identity of the
    object, which [obj] stands for. *)
Inductive pyfloat : Type :=
| FFin (m : Z) (e : Z)
| FInf (negative : bool)
| FNan (obj : N).

(** What [yaml.safe_load] builds and the script manipulates.  [VTime] is a
    date or timestamp scalar, identified by an opaque stamp. *)
Inductive value : Type :=
| VNone
| VBool (b : bool)
| VInt (z : Z)
| VFloat (f : pyfloat)
| VStr (s : pystr)
| VTime (t : N)
| VList (l : list value)
| VDict (d : list (pystr * value)).

Definition dict := list (pystr * value).

Inductive exn : Type :=
| TypeError | ValueError | AttributeError | KeyError | OverflowError
| YAMLError.

Inductive result (A : Type) : Type :=
| Ok (a : A)
| Raise (e : exn).

Arguments Ok {A} a.
Arguments Raise {A} e.

Definition bind {A B : Type} (m : result A) (k : A -> result B) : result B :=
  match m with
  | Ok a => k a
  | Raise e => Raise e
  end.

Notation "'let*' x ':=' m 'in' k" := (bind m (fun x => k))
  (at level 10, x name, m at level 100, k at level 200).
Notation "'let*' ' p ':=' m 'in' k" :=
  (bind m (fun x => match x with p => k end))
  (at level 10, p pattern, m at level 100, k at level 200).

(** Insertion-ordered association lists: the Python [dict]. *)
Section Assoc.
Variables (K V : Type) (keqb : K -> K -> bool).

Fixpoint assoc_get (m : list (K * V)) (k : K) : option V :=
  match m with
  | [] => None
  | (k', v) :: m' => if keqb k k' then Some v else assoc_get m' k
  end.

Definition assoc_has (m : list (K * V)) (k : K) : bool :=
  match assoc_get m k with Some _ => true | None => false end.

(** [m[k] = v]: an existing key keeps its place. *)
Fixpoint assoc_set (m : list (K * V)) (k : K) (v : V) : list (K * V) :=
  match m with
  | [] => [(k, v)]
  | (k', v') :: m' =>
      if keqb k k' then (k', v) :: m' else (k', v') :: assoc_set m' k v
  end.

(** [m.setdefault(k, v)], for its effect on [m]. *)
Definition assoc_setdefault (m : list (K * V)) (k : K) (v : V)
  : list (K * V) :=
  if assoc_has m k then m else m ++ [(k, v)].
End Assoc.

Definition dict_get (d : dict) (k : pystr) : option value :=
  assoc_get PyStr.eqb d k.
Definition dict_has (d : dict) (k : pystr) : bool :=
  assoc_has PyStr.eqb d k.
Definition dict_set (d : dict) (k : pystr) (v : value) : dict :=
  assoc_set PyStr.eqb d k v.
Definition dict_setdefault (d : dict) (k : pystr) (v : value) : dict :=
  assoc_setdefault PyStr.eqb d k v.

(** [d.get(k)] *)
Definition get_or_none (d : dict) (k : pystr) : value :=
  match dict_get d k with Some v => v | None => VNone end.

(** [bool(v)] *)
Definition truthy (v : value) : bool :=
  match v with
  | VNone => false
  | VBool b => b
  | VInt z => negb (z =? 0)
  | VFloat (FFin m _) => negb (m =? 0)
  | VFloat _ => true
  | VStr s => match s with [] => false | _ => true end
  | VTime _ => true
  | VList l => match l with [] => false | _ => true end
  | VDict d => match d with [] => false | _ => true end
  end.

(** [v in (None, "", [])] *)
Definition is_empty3 (v : value) : bool :=
  match v with
  | VNone | VStr [] | VList [] => true
  | _ => false
  end.

(** [v in (None, "")] *)
Definition is_empty2 (v : value) : bool :=
  match v with
  | VNone | VStr [] => true
  | _ => false
  end.

(** [v is True] *)
Definition is_True (v : value) : bool :=
  match v with VBool true => true | _ => false end.

(** [k in c] for a string [k]: a key of a mapping, a substring of a
    string, an element of a list; other operands are not iterable. *)
Definition py_in (k : pystr) (c : value) : result bool :=
  match c with
  | VDict d => Ok (dict_has d k)
  | VStr s => Ok (PyStr.contains k s)
  | VList l =>
      Ok (existsb (fun x => match x with
                            | VStr s => PyStr.eqb s k
                            | _ => false
                            end) l)
  | _ => Raise TypeError
  end.

(** [c[k]] for a string [k] *)
Definition py_getitem (c : value) (k : pystr) : result value :=
  match c with
  | VDict d =>
      match dict_get d k with Some v => Ok v | None => Raise KeyError end
  | _ => Raise TypeError
  end.

(** [c.get(k)] *)
Definition py_get (c : value) (k : pystr) : result value :=
  match c with
  | VDict d => Ok (get_or_none d k)
  | _ => Raise AttributeError
  end.

(** [c[k] = v]; the object [c] after the assignment. *)
Definition py_setitem (c : value) (k : pystr) (v : value) : result value :=
  match c with
  | VDict d => Ok (VDict (dict_set d k v))
  | _ => Raise TypeError
  end.

(** [c.setdefault(k, v)]; the object [c] after the call. *)
Definition py_setdefault (c : value) (k : pystr) (v : value) : result value :=
  match c with
  | VDict d => Ok (VDict (dict_setdefault d k v))
  | _ => Raise AttributeError
  end.

(** The integer a finite float m * 2^e is equal to, when it is equal to
    one. *)
Definition float_whole (m e : Z) : option Z :=
  if 0 <=? e then Some (m * 2 ^ e)
  else if Z.rem m (2 ^ (- e)) =? 0 then Some (Z.quot m (2 ^ (- e)))
  else None.

(** [int(f)]: the float cut off towards zero. *)
Definition float_int (f : pyfloat) : result Z :=
  match f with
  | FFin m e =>
      Ok (if 0 <=? e then m * 2 ^ e else Z.quot m (2 ^ (- e)))
  | FInf _ => Raise OverflowError
  | FNan _ => Raise ValueError
  end.

(** m * 2^e with the factors two of m moved to the exponent. *)
Fixpoint odd_part (p : positive) (e : Z) : positive * Z :=
  match p with
  | xO p' => odd_part p' (e + 1)
  | _ => (p, e)
  end.

(** Keys of the dictionary that [resources_to_dict] builds.  [True], [1]
    and [1.0] are the same key, as are [False], [0] and [0.0]; a float
    that is no integer is the key [KFrac m e] with m odd. *)
Inductive pykey : Type :=
| KNone
| KNum (z : Z)
| KFrac (m : Z) (e : Z)
| KInf (negative : bool)
| KNan (obj : N)
| KStr (s : pystr)
| KTime (t : N).

Definition key_eqb (a b : pykey) : bool :=
  match a, b with
  | KNone, KNone => true
  | KNum x, KNum y => x =? y
  | KFrac m e, KFrac m' e' => (m =? m') && (e =? e')
  | KInf x, KInf y => Bool.eqb x y
  | KNan x, KNan y => N.eqb x y
  | KStr x, KStr y => PyStr.eqb x y
  | KTime x, KTime y => N.eqb x y
  | _, _ => false
  end.

Definition float_key (f : pyfloat) : pykey :=
  match f with
  | FFin m e =>
      match float_whole m e with
      | Some z => KNum z
      | None =>
          match m with
          | Zpos p => let '(p', e') := odd_part p e in KFrac (Zpos p') e'
          | Zneg p => let '(p', e') := odd_part p e in KFrac (Zneg p') e'
          | Z0 => KNum 0
          end
      end
  | FInf negative => KInf negative
  | FNan obj => KNan obj
  end.

(** The key a value hashes to; lists and mappings are unhashable. *)
Definition to_key (v : value) : option pykey :=
  match v with
  | VNone => Some KNone
  | VBool b => Some (KNum (if b then 1 else 0))
  | VInt z => Some (KNum z)
  | VFloat f => Some (float_key f)
  | VStr s => Some (KStr s)
  | VTime t => Some (KTime t)
  | VList _ | VDict _ => None
  end.

Definition by_src := list (pykey * value).

Definition by_src_get (m : by_src) (k : pykey) : option value :=
  assoc_get key_eqb m k.
Definition by_src_set (m : by_src) (k : pykey) (v : value) : by_src :=
  assoc_set key_eqb m k v.

(* ================================================================== *)
(** ** The script *)

Definition FRONT_MATTER_DELIM : pystr := str "---".

Definition IMAGE_EXTS : list pystr :=
  [str ".jpg"; str ".jpeg"; str ".png"; str ".JPG"; str ".JPEG"; str ".PNG"].

Definition k_src := str "src".
Definition k_title := str "title".
Definition k_params := str "params".
Definition k_date := str "date".
Definition k_location := str "location".
Definition k_tags := str "tags".
Definition k_weight := str "weight".
Definition k_cover := str "cover".
Definition k_resources := str "resources".

(** [l[lo:hi]] and [l[lo:]] *)
Definition slice {A : Type} (lo hi : nat) (l : list A) : list A :=
  firstn (hi - lo) (skipn lo l).
Definition slice_from {A : Type} (lo : nat) (l : list A) : list A :=
  skipn lo l.

(** A line that is the delimiter once stripped. *)
Definition is_delim (line : pystr) : bool :=
  PyStr.eqb (strip line) FRONT_MATTER_DELIM.

(** [next(i for i in range(i0, len(lines)) if lines[i].strip() == DELIM)],
    with [ls] the lines from index [i0] on; [None] for [StopIteration]. *)
Fixpoint find_delim (i0 : nat) (ls : list pystr) : option nat :=
  match ls with
  | [] => None
  | l :: ls' => if is_delim l then Some i0 else find_delim (S i0) ls'
  end.

(** [pathlib]: the suffix and the stem of a file name (a name as
    [iterdir] gives it, without a path separator). *)
Definition dot_index (name : pystr) : option nat :=
  match rfind_dot name with
  | Some i =>
      if (Nat.ltb 0 i && Nat.ltb i (List.length name - 1))%bool then Some i
      else None
  | None => None
  end.

Definition suffix (name : pystr) : pystr :=
  match dot_index name with
  | Some i => skipn i name
  | None => []
  end.

Definition stem (name : pystr) : pystr :=
  match dot_index name with
  | Some i => firstn i name
  | None => name
  end.

(** [sorted] on strings (insertion sort, stable). *)
Fixpoint insert_sorted (x : pystr) (l : list pystr) : list pystr :=
  match l with
  | [] => [x]
  | y :: l' => if PyStr.leb x y then x :: l else y :: insert_sorted x l'
  end.

Definition sorted (l : list pystr) : list pystr :=
  fold_right insert_sorted [] l.

(** The names of the regular files of the directory that are images, in
    ascending order. *)
Definition list_images (files : list pystr) : list pystr :=
  sorted (filter (fun name => existsb (PyStr.eqb (suffix name)) IMAGE_EXTS)
                 files).

(** [[t.strip() for t in s.split(",") if t.strip()]] *)
Definition split_commas (s : pystr) : list pystr :=
  map strip
    (filter (fun t => match strip t with [] => false | _ => true end)
            (split 44 s)).

(** [max(ws, default=0)] *)
Definition max_default0 (ws : list Z) : Z :=
  match ws with
  | [] => 0
  | w :: ws' => fold_left Z.max ws' w
  end.

(** The in-place write [r["params"][key] = val], seen from [r]. *)
Definition set_param (r : value) (key : pystr) (val : value) : result value :=
  let* params := py_getitem r k_params in
  let* params' := py_setitem params key val in
  py_setitem r k_params params'.

(** [{r.get("src"): r for r in resources
      if isinstance(r, dict) and r.get("src")}], onto [acc]. *)
Fixpoint resources_to_dict_onto (acc : by_src) (resources : list value)
  : result by_src :=
  match resources with
  | [] => Ok acc
  | r :: rest =>
      match r with
      | VDict d =>
          let s := get_or_none d k_src in
          if truthy s then
            match to_key s with
            | Some k => resources_to_dict_onto (by_src_set acc k r) rest
            | None => Raise TypeError
            end
          else resources_to_dict_onto acc rest
      | _ => resources_to_dict_onto acc rest
      end
  end.

Definition resources_to_dict (resources : list value) : result by_src :=
  resources_to_dict_onto [] resources.

(** [ensure_cover]: the scan for an entry with [cover: true]. *)
Definition has_cover (r : value) : result bool :=
  let* params := py_get r k_params in
  match params with
  | VDict p => Ok (is_True (get_or_none p k_cover))
  | _ => Ok false
  end.

Fixpoint any_cover (resources : list value) : result bool :=
  match resources with
  | [] => Ok false
  | r :: rest =>
      let* c := has_cover r in
      if c then Ok true else any_cover rest
  end.

(** [ensure_cover(resources)]; the list after the call. *)
Definition ensure_cover (resources : list value) : result (list value) :=
  let* found := any_cover resources in
  match resources with
  | r0 :: rest =>
      if negb found then
        let* r1 := py_setdefault r0 k_params (VDict []) in
        let* r2 := set_param r1 k_cover (VBool true) in
        Ok (r2 :: rest)
      else Ok resources
  | [] => Ok resources
  end.



(** The command line ([parse_args]). *)
Record args : Type := {
  common_tags : pystr;
  default_location : pystr;
  page_title : option pystr;
  page_date : option pystr;
  description : pystr;
  categories : pystr;
  featured : bool;
  dry_run : bool
}.

(** What a run finds: the name of the directory, the day, the names of the
    regular files in the directory other than index.md, and the text of
    index.md if it exists. *)
Record world : Type := {
  dir_name : pystr;
  today : pystr;
  files : list pystr;
  index_md : option pystr
}.

Section Script.

(** [yaml.safe_load], [yaml.dump] with the script's dumper and options,
    [int] on a string ([None] for [ValueError]) and [extract_metadata] on
    the file of a given name. *)
Variable yaml_safe_load : pystr -> result value.
Variable yaml_dump : value -> pystr.
Variable int_of_str : pystr -> option Z.
Variable extract_metadata : pystr -> pystr * pystr.

(** [split_front_matter(text)]: leading text, front matter, rest. *)
Definition split_front_matter (text : pystr)
  : result (pystr * value * pystr) :=
  let lines := splitlines text in
  match lines with
  | l0 :: _ =>
      if is_delim l0 then
        match find_delim 1 (slice_from 1 lines) with
        | None => Ok ([], VDict [], text)
        | Some end_idx =>
            let fm_text := join nl (slice 1 end_idx lines) in
            let rest := join nl (slice_from (end_idx + 1) lines) in
            let* data :=
              match strip fm_text with
              | [] => Ok (VDict [])
              | _ => yaml_safe_load fm_text
              end in
            let data := match data with VNone => VDict [] | _ => data end in
            Ok ([], data, rest)
        end
      else Ok ([], VDict [], text)
  | [] => Ok ([], VDict [], text)
  end.

Definition join_front_matter (front : value) : pystr :=
  FRONT_MATTER_DELIM ++ nl ++ strip (yaml_dump front) ++ nl
    ++ FRONT_MATTER_DELIM ++ nl.

Definition build_resource_for_image
  (name : pystr) (tags : list pystr) (default_loc : pystr) : value :=
  let '(date_str, loc_str) := extract_metadata name in
  let location_val := match loc_str with [] => default_loc | _ => loc_str end in
  let title := stem name in
  let params := [(k_date, VStr date_str)] in
  let params :=
    match location_val with
    | [] => params
    | _ => dict_set params k_location (VStr location_val)
    end in
  let params :=
    match tags with
    | [] => params
    | _ => dict_set params k_tags (VList (map VStr tags))
    end in
  VDict [(k_src, VStr name); (k_title, VStr title); (k_params, VDict params)].

(** [int(v)]: [ValueError] on a string that is no integer and on a nan,
    [OverflowError] on an infinity, [TypeError] on the other values. *)
Definition py_int (v : value) : result Z :=
  match v with
  | VInt z => Ok z
  | VBool b => Ok (if b then 1 else 0)
  | VFloat f => float_int f
  | VStr s =>
      match int_of_str s with Some z => Ok z | None => Raise ValueError end
  | _ => Raise TypeError
  end.

(** The first loop of [update_weights_preserve_existing]: the weights of
    the previous entries that convert to an integer.  [TypeError] and
    [ValueError] are caught; another exception of [int] ends the run. *)
Fixpoint collect_weights (existing_weights : list (pykey * Z))
  (previous : by_src) : result (list (pykey * Z)) :=
  match previous with
  | [] => Ok existing_weights
  | (src, r) :: rest =>
      let* params :=
        match r with
        | VDict d =>
            Ok (match dict_get d k_params with
                | Some p => p
                | None => VDict []
                end)
        | _ => Raise AttributeError
        end in
      let* w := py_get params k_weight in
      match py_int w with
      | Ok z => collect_weights (assoc_set key_eqb existing_weights src z) rest
      | Raise TypeError | Raise ValueError =>
          collect_weights existing_weights rest
      | Raise e => Raise e
      end
  end.

(** [for r in sorted_resources: r.setdefault("params", {})] *)
Fixpoint default_params (resources : list value) : result (list value) :=
  match resources with
  | [] => Ok []
  | r :: rest =>
      let* r' := py_setdefault r k_params (VDict []) in
      let* rest' := default_params rest in
      Ok (r' :: rest')
  end.

(** ["weight" not in r["params"] or r["params"]["weight"] in (None, "")] *)
Definition lacks_weight (r : value) : result bool :=
  let* params := py_getitem r k_params in
  let* present := py_in k_weight params in
  if negb present then Ok true
  else
    let* w := py_getitem params k_weight in
    Ok (is_empty2 w).

(** The second pass: the next free weight goes to each entry that lacks
    one. *)
Fixpoint assign_weights (next_w : Z) (resources : list value)
  : result (list value) :=
  match resources with
  | [] => Ok []
  | r :: rest =>
      let* lacking := lacks_weight r in
      if lacking then
        let* r' := set_param r k_weight (VInt next_w) in
        let* rest' := assign_weights (next_w + 1) rest in
        Ok (r' :: rest')
      else
        let* rest' := assign_weights next_w rest in
        Ok (r :: rest')
  end.

(** [update_weights_preserve_existing(sorted_resources, previous_by_src)];
    the list after the call. *)
Definition update_weights_preserve_existing
  (sorted_resources : list value) (previous_by_src : by_src)
  : result (list value) :=
  let* existing_weights := collect_weights [] previous_by_src in
  let max_w := max_default0 (map snd existing_weights) in
  let* resources := default_params sorted_resources in
  assign_weights (max_w + 1) resources.

(** One round of the loop over [("date", "location", "tags")] in [main]:
    [r] is the existing entry, [desired] the entry built from the file. *)
Definition fill_if_absent (desired : value) (r : value) (key : pystr)
  : result value :=
  let* params := py_getitem r k_params in
  let* present := py_in key params in
  let* empty :=
    if negb present then Ok true
    else let* cur := py_get params key in Ok (is_empty3 cur) in
  if empty then
    let* dparams := py_getitem desired k_params in
    let* val := py_get dparams key in
    if negb (is_empty3 val) then set_param r key val else Ok r
  else Ok r.

(** The body of the merge loop for a [src] found in [existing_by_src]. *)
Definition merge_existing (src : pystr) (r desired : value) : result value :=
  let* r := py_setitem r k_title (VStr (stem src)) in
  let* r := py_setdefault r k_params (VDict []) in
  let* r := fill_if_absent desired r k_date in
  let* r := fill_if_absent desired r k_location in
  fill_if_absent desired r k_tags.

(** [desired_by_src[img.name] = build_resource_for_image(...)] for each
    image. *)
Definition build_desired (images : list pystr) (tags : list pystr)
  (default_loc : pystr) : dict :=
  fold_left
    (fun desired name =>
       dict_set desired name (build_resource_for_image name tags default_loc))
    images [].

(** The merge loop of [main], over the sorted keys that remain.  Entries
    of [existing_by_src] are updated in place; the loop returns the merged
    list and the dictionary as the loop leaves it. *)
Fixpoint merge_loop (keys : list pystr) (existing_by_src : by_src)
  (desired_by_src : dict) (merged : list value)
  : result (list value * by_src) :=
  match keys with
  | [] => Ok (merged, existing_by_src)
  | src :: keys' =>
      let* desired := py_getitem (VDict desired_by_src) src in
      match by_src_get existing_by_src (KStr src) with
      | Some r =>
          let* r' := merge_existing src r desired in
          merge_loop keys' (by_src_set existing_by_src (KStr src) r')
                     desired_by_src (merged ++ [r'])
      | None =>
          merge_loop keys' existing_by_src desired_by_src (merged ++ [desired])
      end
  end.

(** [main], from the reading of [front["resources"]] to [ensure_cover]:
    the list that becomes the new [resources]. *)
Definition reconcile (front : dict) (images : list pystr)
  (tags : list pystr) (default_loc : pystr) : result (list value) :=
  let existing_resources :=
    match dict_get front k_resources with Some v => v | None => VList [] end in
  let* existing_by_src :=
    match existing_resources with
    | VList l => resources_to_dict l
    | _ => Ok []
    end in
  let desired_by_src := build_desired images tags default_loc in
  let* '(merged, existing_by_src) :=
    merge_loop (sorted (map fst desired_by_src)) existing_by_src
               desired_by_src [] in
  let* merged := update_weights_preserve_existing merged existing_by_src in
  ensure_cover merged.

(** The front matter of a new index.md. *)
Definition template (a : args) (w : world) : dict :=
  let title :=
    match page_title a with
    | Some (c :: t) => c :: t
    | _ => dir_name w
    end in
  let date :=
    match page_date a with
    | Some (c :: d) => c :: d
    | _ => today w
    end in
  let cats := split_commas (categories a) in
  let front :=
    [(k_title, VStr title); (k_date, VStr date);
     (str "description", VStr (description a))] in
  let front :=
    match cats with
    | [] => front
    | _ => dict_set front (str "categories") (VList (map VStr cats))
    end in
  if featured a
  then dict_set front k_params (VDict [(str "featured", VBool true)])
  else front.

(** [front] and [trailing_body] as [main] has them before the merge. *)
Definition load_front (a : args) (w : world) : result (dict * pystr) :=
  match index_md w with
  | Some text =>
      let* '(_, front, trailing_body) := split_front_matter text in
      match front with
      | VDict d => Ok (d, trailing_body)
      | _ => Ok ([], trailing_body)
      end
  | None => Ok (template a w, [])
  end.

(** [output_text += trailing_body if output_text.endswith("\n")
     else "\n" + trailing_body], under [if trailing_body.strip()]. *)
Definition compose (output_text trailing_body : pystr) : pystr :=
  match strip trailing_body with
  | [] => output_text
  | _ =>
      output_text ++
        (if endswith_nl output_text then trailing_body
         else nl ++ trailing_body)
  end.

(** The mapping that [main] hands to [join_front_matter], with the body. *)
Definition main_front (a : args) (w : world) : result (dict * pystr) :=
  let images := list_images (files w) in
  let tags := split_commas (common_tags a) in
  let* '(front, trailing_body) := load_front a w in
  let* merged := reconcile front images tags (default_location a) in
  Ok (dict_set front k_resources (VList merged), trailing_body).

(** [output_text] of [main]: what is written, or printed on a dry run. *)
Definition main_text (a : args) (w : world) : result pystr :=
  let* '(front, trailing_body) := main_front a w in
  Ok (compose (join_front_matter (VDict front)) trailing_body).

(** [main]: the directory after the run. *)
Definition main (a : args) (w : world) : result world :=
  let* output_text := main_text a w in
  if dry_run a then Ok w
  else Ok {| dir_name := dir_name w; today := today w; files := files w;
             index_md := Some output_text |}.

End Script.

(* ================================================================== *)
(** ** Words of the specification *)

(** The text begins with a delimiter line. *)
Definition begins_with_delimiter (text : pystr) : Prop :=
  match splitlines text with
  | l0 :: _ => is_delim l0 = true
  | [] => False
  end.

(** Some line after the first is a delimiter line. *)
Definition has_closing_delimiter (text : pystr) : Prop :=
  exists i l, (1 <= i)%nat /\ nth_error (splitlines text) i = Some l
              /\ is_delim l = true.

(** The text that follows the first line of [s], as it stands in [s]. *)
Fixpoint after_first_line (s : pystr) : pystr :=
  match s with
  | [] => []
  | c :: s' =>
      if is_linebreak c then
        match s' with
        | d :: s'' => if ((c =? 13) && (d =? 10))%N then s'' else s'
        | [] => s'
        end
      else after_first_line s'
  end.

(** The text that follows the first [n] lines of [s], byte for byte. *)
Fixpoint after_lines (n : nat) (s : pystr) : pystr :=
  match n with
  | O => s
  | S n' => after_lines n' (after_first_line s)
  end.

(** A body with a character that is not white space. *)
Definition has_visible_char (body : pystr) : Prop :=
  exists c, In c body /\ is_space c = false.

(** A body of white space only (the empty body is one). *)
Definition all_space (body : pystr) : Prop :=
  forall c, In c body -> is_space c = true.

(** A field of an entry, its [params] mapping and a parameter of it. *)
Definition field (r : value) (k : pystr) : option value :=
  match r with
  | VDict d => dict_get d k
  | _ => None
  end.

Definition params_of (r : value) : dict :=
  match field r k_params with
  | Some (VDict p) => p
  | _ => []
  end.

Definition param (r : value) (k : pystr) : option value :=
  dict_get (params_of r) k.

(** The entry has [params.cover] equal to the boolean true. *)
Definition cover_is_true (r : value) : bool :=
  match param r k_cover with
  | Some (VBool true) => true
  | _ => false
  end.



(** An entry the script can work on: a mapping whose [params], when it
    has one, is a mapping. *)
Definition entry_ok (r : value) : Prop :=
  exists d, r = VDict d
            /\ (dict_get d k_params = None
                \/ exists p, dict_get d k_params = Some (VDict p)).

(** The entry lacks a weight: the key is missing, or its value is [None]
    or the empty string. *)
Definition weight_missing (r : value) : bool :=
  match param r k_weight with
  | None | Some VNone | Some (VStr []) => true
  | _ => false
  end.

Definition count_missing (resources : list value) : nat :=
  List.length (filter weight_missing resources).

(** [int] overflows on the weight of the entry: the weight is an infinite
    float. *)
Definition weight_overflows (r : value) : bool :=
  match param r k_weight with
  | Some (VFloat (FInf _)) => true
  | _ => false
  end.



(** The weight the entry at index [i] has after the run, if an integer. *)
Definition weight_at (resources : list value) (i : nat) : option Z :=
  match nth_error resources i with
  | Some r =>
      match param r k_weight with
      | Some (VInt z) => Some z
      | _ => None
      end
  | None => None
  end.

(** A field that is absent, [None], the empty string or the empty list. *)
Definition blank (o : option value) : bool :=
  match o with
  | None => true
  | Some v => is_empty3 v
  end.

(** The three parameters that the merge fills when they are blank. *)
Definition fill_keys : list pystr := [k_date; k_location; k_tags].

(** [r'] is the existing entry [r] merged with the entry [d] built from
    the file [src]: the title is the stem; a blank date, location or tags
    takes the value of [d] when that is not blank; nothing else changes. *)
Definition merged_entry (src : pystr) (r d r' : value) : Prop :=
  field r' k_title = Some (VStr (stem src))
  /\ (forall k, k <> k_title -> k <> k_params -> field r' k = field r k)
  /\ (forall k, In k fill_keys ->
        (blank (param r k) = true -> blank (param d k) = false ->
         param r' k = param d k)
        /\ (blank (param r k) = false -> param r' k = param r k)
        /\ (blank (param d k) = true -> param r' k = param r k))
  /\ (forall k, ~ In k fill_keys -> param r' k = param r k).

(** The key under which [resources_to_dict] files an entry, if any. *)
Definition entry_key (r : value) : option pykey :=
  match r with
  | VDict d =>
      let s := get_or_none d k_src in
      if truthy s then to_key s else None
  | _ => None
  end.

Fixpoint keys_of (resources : list value) : list pykey :=
  match resources with
  | [] => []
  | r :: rest =>
      match entry_key r with
      | Some k => k :: keys_of rest
      | None => keys_of rest
      end
  end.


(** [m] is the merged entry for the key [src]: the existing entry merged
    with the built one, or the built one when the manifest has none. *)
Definition merged_for (existing : by_src) (desired : dict)
  (src : pystr) (m : value) : Prop :=
  exists d, dict_get desired src = Some d
            /\ match by_src_get existing (KStr src) with
               | Some r => merge_existing src r d = Ok m
               | None => m = d
               end.

(** The same key and the same weight parameter. *)
Definition same_key_weight (x y : pykey * value) : Prop :=
  fst x = fst y /\ param (snd y) k_weight = param (snd x) k_weight.

(** The entries of the resource list with the key of each. *)
Fixpoint pairs_of (resources : list value) : by_src :=
  match resources with
  | [] => []
  | r :: rest =>
      match entry_key r with
      | Some k => (k, r) :: pairs_of rest
      | None => pairs_of rest
      end
  end.

(** The [resources] of a front matter, when it is a list. *)
Definition resources_of (front : dict) : list value :=
  match dict_get front k_resources with
  | Some (VList l) => l
  | _ => []
  end.

(** A regular file of the directory that [list_images] keeps. *)
Definition is_image (name : pystr) : bool :=
  existsb (PyStr.eqb (suffix name)) IMAGE_EXTS.

(** An entry with a [params] mapping. *)
Definition has_params (r : value) : Prop :=
  exists d p, r = VDict d /\ dict_get d k_params = Some (VDict p).

(** A stored resource list the script can work on: every entry is a
    workable mapping with a usable [src]. *)
Definition manifest_ok (resources : list value) : Prop :=
  Forall (fun r => entry_ok r /\ entry_key r <> None) resources.

(** An entry as a run leaves it for the file [src], [d] being the entry
    built from the file: it has its title, its [src] and a weight, and
    what is blank in it is blank in [d] too. *)
Definition settled (src : pystr) (d n : value) : Prop :=
  field n k_src = Some (VStr src)
  /\ field n k_title = Some (VStr (stem src))
  /\ weight_missing n = false
  /\ forall key, In key fill_keys ->
       blank (param n key) = true -> blank (param d key) = true.

(** [a < b] on file names. *)
Definition lt_str (a b : pystr) : Prop := PyStr.ltb a b = true.

(** [a <= b] on file names. *)
Definition le_str (a b : pystr) : Prop := PyStr.leb a b = true.

(** The last entry of the list that is filed under the key [k]. *)
Fixpoint last_with_key (k : pykey) (resources : list value) : option value :=
  match resources with
  | [] => None
  | r :: rest =>
      match last_with_key k rest with
      | Some e => Some e
      | None =>
          match entry_key r with
          | Some k' => if key_eqb k k' then Some r else None
          | None => None
          end
      end
  end.

(** A mapping whose [src] is a non-empty list or mapping. *)
Definition unhashable_src (r : value) : bool :=
  match r with
  | VDict d =>
      match get_or_none d k_src with
      | VList (_ :: _) | VDict (_ :: _) => true
      | _ => false
      end
  | _ => false
  end.

(** The same key, and an entry that is workable if the later one is. *)
Definition same_key_shape (x y : pykey * value) : Prop :=
  fst x = fst y /\ (entry_ok (snd y) -> entry_ok (snd x)).

(** The text between the two delimiter lines and the lines after the
    closing one, when the text has both. *)
Definition header_and_rest (text : pystr) : option (pystr * list pystr) :=
  match splitlines text with
  | l0 :: rest =>
      if is_delim l0 then
        match find_delim 1 rest with
        | Some i =>
            Some (join nl (slice 1 i (l0 :: rest)),
                  slice_from (i + 1) (l0 :: rest))
        | None => None
        end
      else None
  | [] => None
  end.

(** What [split_front_matter] gives back for a piece of text: its lines,
    joined by line feeds. *)
Definition relined (s : pystr) : pystr := join nl (splitlines s).

(** The line feed is the only line break of the text. *)
Definition only_newlines (s : pystr) : Prop :=
  forall c, In c s -> is_linebreak c = true -> c = 10%N.

(** The text does not end in a line break. *)
Definition no_final_break (s : pystr) : Prop :=
  is_linebreak (last s 0%N) = false.

(* ================================================================== *)
(** ** Collaborators and data of the examples *)

(** [int] on ASCII text: white space around, an optional sign, decimal
    digits with single underscores between them. *)
Definition is_digit (c : N) : bool := ((48 <=? c) && (c <=? 57))%N.

Fixpoint digits_value (acc : Z) (after_digit : bool) (s : pystr)
  : option Z :=
  match s with
  | [] => if after_digit then Some acc else None
  | c :: s' =>
      if is_digit c then
        digits_value (10 * acc + Z.of_N (c - 48)) true s'
      else if ((c =? 95)%N && after_digit)%bool then
        digits_value acc false s'
      else None
  end.

Definition int_of_ascii (s : pystr) : option Z :=
  match strip s with
  | 43%N :: ds => digits_value 0 false ds
  | 45%N :: ds => option_map Z.opp (digits_value 0 false ds)
  | ds => digits_value 0 false ds
  end.

(** An extractor that finds no EXIF data and one modification day. *)
Definition plain_extract (name : pystr) : pystr * pystr :=
  (str "2024-05-01", []).

(** PyYAML on the two documents of the examples. *)
Definition empty_resources : value := VDict [(k_resources, VList [])].

Definition titled_resources : value :=
  VDict [(k_title, VStr (str "Kerala")); (k_resources, VList [])].

Definition yaml_load_fragment (text : pystr) : result value :=
  if PyStr.eqb text (str "resources: []") then Ok empty_resources
  else if PyStr.eqb text (str "title: Kerala" ++ nl ++ str "resources: []")
  then Ok titled_resources
  else Raise YAMLError.

Definition yaml_dump_fragment (v : value) : pystr :=
  match v with
  | VDict [(k, VList [])] =>
      if PyStr.eqb k k_resources then str "resources: []" ++ nl else []
  | VDict [(k1, VStr t); (k2, VList [])] =>
      if (PyStr.eqb k1 k_title && PyStr.eqb k2 k_resources)%bool
      then str "title: " ++ t ++ nl ++ str "resources: []" ++ nl
      else []
  | _ => []
  end.

Definition no_options : args :=
  {| common_tags := str "trip,2024"; default_location := [];
     page_title := None; page_date := None; description := str "Photos.";
     categories := []; featured := false; dry_run := false |}.

(** The entry of b.jpg that the user has edited. *)
Definition entry_b : value :=
  VDict [(k_src, VStr (str "b.jpg"));
         (k_params, VDict [(k_weight, VInt 5); (k_cover, VBool true);
                           (k_tags, VList [VStr (str "custom")])])].

(** The entry of a file that is no longer in the directory. *)
Definition entry_gone : value :=
  VDict [(k_src, VStr (str "z.jpg"));
         (k_params, VDict [(k_weight, VStr (str "9"))])].

Definition front_b : dict :=
  [(k_title, VStr (str "Kerala"));
   (k_resources, VList [entry_b; entry_gone])].

Definition manifest_text (body : pystr) : pystr :=
  str "---" ++ nl ++ str "resources: []" ++ nl ++ str "---" ++ nl ++ body.

Definition album (text : pystr) : world :=
  {| dir_name := str "album"; today := str "2024-05-01"; files := [];
     index_md := Some text |}.

(** The directory holds a.jpg and b.jpg; the manifest lists b.jpg and the
    deleted z.jpg. *)
Definition index_b : by_src :=
  [(KStr (str "b.jpg"), entry_b); (KStr (str "z.jpg"), entry_gone)].

Definition images_ab : list pystr := [str "a.jpg"; str "b.jpg"].

Definition tags_trip : list pystr := [str "trip"; str "2024"].

Definition desired_ab : dict :=
  build_desired plain_extract images_ab tags_trip [].

Definition merged_ab : list value :=
  Eval vm_compute in
    match merge_loop (sorted (map fst desired_ab)) index_b desired_ab [] with
    | Ok (merged, _) => merged
    | Raise _ => []
    end.

Definition index_b_merged : by_src :=
  Eval vm_compute in
    match merge_loop (sorted (map fst desired_ab)) index_b desired_ab [] with
    | Ok (_, existing) => existing
    | Raise _ => []
    end.


Definition final_ab : list value :=
  Eval vm_compute in
    match reconcile int_of_ascii plain_extract front_b images_ab tags_trip []
    with
    | Ok resources => resources
    | Raise _ => []
    end.



(** A directory with a manifest that has a title and a body. *)
Definition world_k : world :=
  {| dir_name := str "album"; today := str "2024-05-01";
     files := [str "b.jpg"; str "notes.txt"; str "a.jpg"];
     index_md :=
       Some (str "---" ++ nl ++ str "title: Kerala" ++ nl
               ++ str "resources: []" ++ nl ++ str "---" ++ nl
               ++ str "Some text.") |}.

Definition front_k : dict :=
  Eval vm_compute in
    match main_front yaml_load_fragment int_of_ascii plain_extract
            no_options world_k with
    | Ok (front, _) => front
    | Raise _ => []
    end.

(** An older entry of z.jpg, listed before [entry_gone]. *)
Definition entry_gone_old : value :=
  VDict [(k_src, VStr (str "z.jpg")); (k_params, VDict [(k_weight, VInt 1)])].

(** PyYAML on a document that is a list, not a mapping. *)
Definition yaml_load_list (text : pystr) : result value :=
  if PyStr.eqb text (str "- x") then Ok (VList [VStr (str "x")])
  else yaml_load_fragment text.

(** A directory without a manifest. *)
Definition fresh_album : world :=
  {| dir_name := str "album"; today := str "2024-05-01";
     files := [str "b.jpg"; str "notes.txt"; str "a.jpg"];
     index_md := None |}.





(** A stored entry whose weight is an infinite float. *)
Definition entry_inf : value :=
  VDict [(k_src, VStr (str "z.jpg"));
         (k_params, VDict [(k_weight, VFloat (FInf false))])].

(* ================================================================== *)
(** ** Strings: basic facts *)

Unset Implicit Arguments.

Lemma pystr_eqb_eq (a b : pystr) : PyStr.eqb a b = true <-> a = b.
Proof.
  revert b; induction a as [|x a IH]; intros [|y b]; simpl;
    try (split; [discriminate | discriminate]); try tauto.
  rewrite andb_true_iff, N.eqb_eq, IH.
  split; [intros [-> ->]; reflexivity | intros H; inversion H; auto].
Qed.

Lemma pystr_eqb_refl (a : pystr) : PyStr.eqb a a = true.
Proof. apply pystr_eqb_eq; reflexivity. Qed.

Lemma pystr_eqb_neq (a b : pystr) : PyStr.eqb a b = false <-> a <> b.
Proof.
  rewrite <- pystr_eqb_eq. destruct (PyStr.eqb a b); split; congruence.
Qed.

Lemma lstrip_nil_iff (s : pystr) :
  lstrip s = [] <-> all_space s.
Proof.
  unfold all_space. induction s as [|c s IH]; simpl.
  - split; [intros _ c [] | reflexivity].
  - destruct (is_space c) eqn:E.
    + rewrite IH. split.
      * intros H d [<- | Hd]; auto.
      * intros H d Hd; apply H; auto.
    + split; [discriminate |].
      intros H. specialize (H c (or_introl eq_refl)). congruence.
Qed.

Lemma lstrip_suffix (s : pystr) :
  exists p, s = p ++ lstrip s /\ all_space p.
Proof.
  induction s as [|c s [p [Hp Hs]]]; simpl.
  - exists []; split; [reflexivity | intros c []].
  - destruct (is_space c) eqn:E.
    + exists (c :: p); split; [simpl; congruence |].
      intros d [<- | Hd]; auto.
    + exists []; split; [reflexivity | intros d []].
Qed.

Lemma strip_nil_iff (s : pystr) : strip s = [] <-> all_space s.
Proof.
  unfold strip, rstrip. split.
  - intros H.
    assert (Hr : lstrip (rev (lstrip s)) = []).
    { destruct (lstrip (rev (lstrip s))) as [|c l]; [reflexivity |].
      simpl in H. destruct (rev l); discriminate. }
    apply lstrip_nil_iff in Hr.
    destruct (lstrip_suffix s) as [p [Hp Hsp]].
    intros c Hc. rewrite Hp in Hc. apply in_app_or in Hc as [Hc | Hc]; auto.
    apply Hr. apply in_rev. rewrite rev_involutive. exact Hc.
  - intros H.
    assert (Hl : lstrip s = []) by (apply lstrip_nil_iff; exact H).
    rewrite Hl. reflexivity.
Qed.

Lemma not_all_space_visible (s : pystr) :
  ~ all_space s <-> has_visible_char s.
Proof.
  unfold all_space, has_visible_char. induction s as [|c s IH].
  - split; [intros H; exfalso; apply H; intros c [] | intros [c [[] _]]].
  - split.
    + intros H. destruct (is_space c) eqn:E.
      * destruct (proj1 IH) as [d [Hd Hs]].
        { intros Hall. apply H. intros d [<- | Hd]; auto. }
        exists d; split; [right; exact Hd | exact Hs].
      * exists c; split; [left; reflexivity | exact E].
    + intros [d [Hd Hs]] Hall. rewrite (Hall d Hd) in Hs. discriminate.
Qed.

Lemma find_delim_some (i0 : nat) (ls : list pystr) (i : nat) :
  find_delim i0 ls = Some i ->
  (i0 <= i)%nat /\ exists l, nth_error ls (i - i0) = Some l /\ is_delim l = true.
Proof.
  revert i0; induction ls as [|l ls IH]; intros i0; simpl; [discriminate |].
  destruct (is_delim l) eqn:E.
  - intros H; inversion H; subst. split; [lia |].
    rewrite Nat.sub_diag. exists l; auto.
  - intros H. apply IH in H as [Hle [l' [Hn Hd]]]. split; [lia |].
    exists l'. split; [| exact Hd].
    replace (i - i0)%nat with (S (i - S i0)) by lia. exact Hn.
Qed.

Lemma find_delim_none (i0 : nat) (ls : list pystr) :
  find_delim i0 ls = None ->
  forall j l, nth_error ls j = Some l -> is_delim l = false.
Proof.
  revert i0; induction ls as [|l0 ls IH]; intros i0; simpl.
  - intros _ [|j] l; discriminate.
  - destruct (is_delim l0) eqn:E; [discriminate |].
    intros H [|j] l; simpl.
    + intros Hl; inversion Hl; subst; exact E.
    + apply (IH _ H).
Qed.

(* ================================================================== *)
(** ** The document codec *)

(** Without both delimiter lines the text is its own body. *)
Lemma split_front_matter_plain (yaml_safe_load : pystr -> result value)
  (text : pystr) :
  ~ (begins_with_delimiter text /\ has_closing_delimiter text) ->
  split_front_matter yaml_safe_load text = Ok ([], VDict [], text).
Proof.
  intros H. unfold split_front_matter.
  unfold begins_with_delimiter, has_closing_delimiter in H.
  destruct (splitlines text) as [|l0 ls] eqn:Hlines; [reflexivity |].
  destruct (is_delim l0) eqn:Hd; [| reflexivity].
  unfold slice_from; simpl skipn.
  destruct (find_delim 1 ls) as [i|] eqn:Hf; [| reflexivity].
  exfalso. apply H. split; [reflexivity |].
  apply find_delim_some in Hf as [Hle [l [Hn Hl]]].
  exists i, l. split; [exact Hle |]. split; [| exact Hl].
  destruct i as [|i]; [lia |]. simpl.
  replace (S i - 1)%nat with i in Hn by lia. exact Hn.
Qed.

(** C7.  A text that does not begin with a delimiter line, or that begins
    with one and has no closing delimiter line, parses to the empty header
    and the whole text, unchanged, as the body; the YAML loader is not
    called and nothing is raised. *)
Theorem split_front_matter_headerless :
  forall (yaml_safe_load : pystr -> result value) (text : pystr),
    ~ begins_with_delimiter text
    \/ (begins_with_delimiter text /\ ~ has_closing_delimiter text) ->
    split_front_matter yaml_safe_load text = Ok ([], VDict [], text).
Proof.
  intros yaml text H. apply split_front_matter_plain.
  intros [Hb Hc]. destruct H as [H | [_ H]]; contradiction.
Qed.

Lemma split_front_matter_headerless_witness :
  split_front_matter (fun _ => Raise YAMLError)
    (str "---" ++ nl ++ str "title: x" ++ nl ++ str "no closing line" ++ nl)
  = Ok ([], VDict [],
        str "---" ++ nl ++ str "title: x" ++ nl ++ str "no closing line" ++ nl).
Proof.
  apply split_front_matter_headerless.
  right. split.
  - reflexivity.
  - intros [i [l [Hi [Hn Hd]]]].
    destruct i as [|[|[|i]]]; simpl in Hn; try lia;
      try (inversion Hn; subst; vm_compute in Hd; discriminate).
    destruct i; discriminate.
Defined.

(** C8.  The body that parsing returns is the lines after the closing
    delimiter joined by line feeds, not the text that follows the closing
    delimiter line: the final line break is lost, and a carriage return
    with line feed becomes a line feed. *)
Theorem split_front_matter_body_not_verbatim :
  forall (yaml_safe_load : pystr -> result value),
    let text := str "---" ++ nl ++ str "---" ++ nl ++ str "body" ++ nl in
    let crlf := [13; 10]%N in
    let text2 := str "---" ++ crlf ++ str "---" ++ crlf
                   ++ str "one" ++ crlf ++ str "two" in
    (find_delim 1 (slice_from 1 (splitlines text)) = Some 1%nat
     /\ split_front_matter yaml_safe_load text = Ok ([], VDict [], str "body")
     /\ after_lines 2 text = str "body" ++ nl
     /\ PyStr.eqb (str "body") (after_lines 2 text) = false)
    /\ (split_front_matter yaml_safe_load text2
          = Ok ([], VDict [], str "one" ++ nl ++ str "two")
        /\ after_lines 2 text2 = str "one" ++ crlf ++ str "two"
        /\ PyStr.eqb (str "one" ++ nl ++ str "two") (after_lines 2 text2)
           = false).
Proof.
  intros yaml. cbv zeta. repeat split; reflexivity.
Qed.

(** [join_front_matter] ends its text with a line break. *)
Lemma join_front_matter_endswith_nl (yaml_dump : value -> pystr) (front : value) :
  endswith_nl (join_front_matter yaml_dump front) = true.
Proof.
  unfold join_front_matter, endswith_nl.
  rewrite !app_assoc. unfold nl at 3. rewrite rev_app_distr. reflexivity.
Qed.

(** C9, as the script has it.  A body with a visible character follows
    the serialized header, after one line break when the header does not
    end in one; after [join_front_matter] it follows at once.  A body of
    white space only is left out. *)
Theorem compose_keeps_visible_body :
  forall (output_text body : pystr),
    (has_visible_char body ->
     compose output_text body
     = output_text ++ (if endswith_nl output_text then [] else nl) ++ body)
    /\ (has_visible_char body ->
        forall yaml_dump front,
          compose (join_front_matter yaml_dump front) body
          = join_front_matter yaml_dump front ++ body)
    /\ (all_space body -> compose output_text body = output_text).
Proof.
  intros out body.
  assert (Hvis : has_visible_char body ->
                 forall o, compose o body
                           = o ++ (if endswith_nl o then [] else nl) ++ body).
  { intros Hv o. unfold compose.
    destruct (strip body) as [|c s] eqn:Hs.
    - exfalso. apply strip_nil_iff in Hs.
      apply not_all_space_visible in Hv. exact (Hv Hs).
    - destruct (endswith_nl o); reflexivity. }
  split; [intros Hv; apply Hvis; exact Hv |]. split.
  - intros Hv yd front. rewrite (Hvis Hv).
    rewrite join_front_matter_endswith_nl. reflexivity.
  - intros Ha. unfold compose.
    apply strip_nil_iff in Ha. rewrite Ha. reflexivity.
Qed.

Lemma compose_keeps_visible_body_witness :
  compose (str "---" ++ nl ++ str "title: x" ++ nl ++ str "---")
          (str "Some text." ++ nl)
  = (str "---" ++ nl ++ str "title: x" ++ nl ++ str "---")
      ++ nl ++ (str "Some text." ++ nl)
  /\ compose (str "---" ++ nl) ([32; 10]%N) = str "---" ++ nl.
Proof.
  split.
  - apply (proj1 (compose_keeps_visible_body
                    (str "---" ++ nl ++ str "title: x" ++ nl ++ str "---")
                    (str "Some text." ++ nl))).
    exists 83%N. split; [simpl; auto | reflexivity].
  - apply (proj2 (proj2 (compose_keeps_visible_body
                           (str "---" ++ nl) ([32; 10]%N)))).
    intros c [<- | [<- | []]]; reflexivity.
Defined.

(** C9 as the specification words it fails: a body of one space is not
    empty, and the output is the serialized header alone. *)
Lemma compose_drops_blank_body :
  let header := str "---" ++ nl ++ str "resources: []" ++ nl ++ str "---" ++ nl in
  let body := [32%N] in
  body <> []
  /\ compose header body = header
  /\ PyStr.eqb (compose header body) (header ++ body) = false
  /\ PyStr.eqb (compose header body) (header ++ nl ++ body) = false.
Proof.
  cbv zeta. split; [discriminate |]. repeat split; reflexivity.
Qed.

(* ================================================================== *)
(** ** Dictionaries and entries: basic facts *)

Section AssocFacts.
Variables (K V : Type) (keqb : K -> K -> bool).
Hypothesis keqb_eq : forall a b, keqb a b = true <-> a = b.

Lemma keqb_refl (a : K) : keqb a a = true.
Proof. apply keqb_eq; reflexivity. Qed.

Lemma keqb_neq (a b : K) : a <> b -> keqb a b = false.
Proof.
  intros H. destruct (keqb a b) eqn:E; [| reflexivity].
  apply keqb_eq in E. contradiction.
Qed.

Lemma assoc_get_set_same (m : list (K * V)) (k : K) (v : V) :
  assoc_get keqb (assoc_set keqb m k v) k = Some v.
Proof.
  induction m as [|[k' v'] m IH]; simpl.
  - rewrite keqb_refl. reflexivity.
  - destruct (keqb k k') eqn:E; simpl; rewrite E; auto.
Qed.

Lemma assoc_get_set_other (m : list (K * V)) (k k0 : K) (v : V) :
  k0 <> k ->
  assoc_get keqb (assoc_set keqb m k v) k0 = assoc_get keqb m k0.
Proof.
  intros Hne. induction m as [|[k' v'] m IH]; simpl.
  - rewrite (keqb_neq _ _ Hne). reflexivity.
  - destruct (keqb k k') eqn:E; simpl.
    + apply keqb_eq in E; subst k'. rewrite (keqb_neq _ _ Hne). reflexivity.
    + destruct (keqb k0 k'); auto.
Qed.

Lemma assoc_get_app_none (m : list (K * V)) (k k0 : K) (v : V) :
  assoc_get keqb m k = None ->
  assoc_get keqb (m ++ [(k, v)]) k0
  = if keqb k0 k then Some v else assoc_get keqb m k0.
Proof.
  induction m as [|[k' v'] m IH]; simpl; [reflexivity |].
  destruct (keqb k k') eqn:E; [discriminate |]. intros H.
  destruct (keqb k0 k') eqn:E0.
  - apply keqb_eq in E0; subst k'.
    destruct (keqb k0 k) eqn:E1; [| reflexivity].
    apply keqb_eq in E1; subst k0. rewrite keqb_refl in E. discriminate.
  - apply IH; exact H.
Qed.

Lemma assoc_get_in (m : list (K * V)) (k : K) (v : V) :
  assoc_get keqb m k = Some v -> In (k, v) m.
Proof.
  induction m as [|[k' v'] m IH]; simpl; [discriminate |].
  destruct (keqb k k') eqn:E.
  - apply keqb_eq in E; subst. intros H; inversion H; auto.
  - auto.
Qed.

Lemma assoc_set_keys (m : list (K * V)) (k : K) (v : V) :
  map fst (assoc_set keqb m k v)
  = if assoc_has keqb m k then map fst m else map fst m ++ [k].
Proof.
  unfold assoc_has. induction m as [|[k' v'] m IH]; simpl; [reflexivity |].
  destruct (keqb k k') eqn:E; simpl; [reflexivity |].
  rewrite IH. destruct (assoc_get keqb m k); reflexivity.
Qed.

Lemma assoc_has_in_keys (m : list (K * V)) (k : K) :
  assoc_has keqb m k = true <-> In k (map fst m).
Proof.
  unfold assoc_has. induction m as [|[k' v'] m IH]; simpl.
  - split; [discriminate | intros []].
  - destruct (keqb k k') eqn:E.
    + apply keqb_eq in E; subst. split; auto.
    + rewrite IH. split; [auto |]. intros [H | H]; [| exact H].
      subst. rewrite keqb_refl in E. discriminate.
Qed.
End AssocFacts.

Lemma key_eqb_eq (a b : pykey) : key_eqb a b = true <-> a = b.
Proof.
  destruct a, b; simpl; try (split; [discriminate | discriminate]);
    try tauto.
  - rewrite Z.eqb_eq. split; congruence.
  - rewrite andb_true_iff, !Z.eqb_eq. split; [intros [-> ->] |]; try congruence.
    intros H; inversion H; auto.
  - rewrite Bool.eqb_true_iff. split; congruence.
  - rewrite N.eqb_eq. split; congruence.
  - rewrite pystr_eqb_eq. split; congruence.
  - rewrite N.eqb_eq. split; congruence.
Qed.

Lemma dict_get_set_same (d : dict) (k : pystr) (v : value) :
  dict_get (dict_set d k v) k = Some v.
Proof. apply assoc_get_set_same, pystr_eqb_eq. Qed.

Lemma dict_get_set_other (d : dict) (k k0 : pystr) (v : value) :
  k0 <> k -> dict_get (dict_set d k v) k0 = dict_get d k0.
Proof. apply assoc_get_set_other, pystr_eqb_eq. Qed.

Lemma dict_get_setdefault_other (d : dict) (k k0 : pystr) (v : value) :
  k0 <> k -> dict_get (dict_setdefault d k v) k0 = dict_get d k0.
Proof.
  intros Hne. unfold dict_setdefault, assoc_setdefault, assoc_has.
  destruct (assoc_get PyStr.eqb d k) eqn:E; [reflexivity |].
  unfold dict_get. rewrite (assoc_get_app_none _ _ _ pystr_eqb_eq _ _ _ _ E).
  rewrite (keqb_neq _ _ pystr_eqb_eq _ _ Hne). reflexivity.
Qed.

Lemma dict_get_setdefault_same (d : dict) (k : pystr) (v : value) :
  dict_get (dict_setdefault d k v) k
  = match dict_get d k with Some x => Some x | None => Some v end.
Proof.
  unfold dict_setdefault, assoc_setdefault, assoc_has, dict_get.
  destruct (assoc_get PyStr.eqb d k) eqn:E; [exact E |].
  rewrite (assoc_get_app_none _ _ _ pystr_eqb_eq _ _ _ _ E).
  rewrite pystr_eqb_refl. reflexivity.
Qed.

Lemma set_param_inv (r r' : value) (key : pystr) (v : value) :
  set_param r key v = Ok r' ->
  exists d p, r = VDict d /\ dict_get d k_params = Some (VDict p)
              /\ r' = VDict (dict_set d k_params (VDict (dict_set p key v))).
Proof.
  unfold set_param. destruct r as [| | | | | | |d]; simpl; try discriminate.
  destruct (dict_get d k_params) as [pv|] eqn:E; simpl; [| discriminate].
  destruct pv as [| | | | | | |p]; simpl; try discriminate.
  intros H; inversion H; subst. exists d, p. auto.
Qed.

Lemma set_param_field (r r' : value) (key : pystr) (v : value) (k : pystr) :
  set_param r key v = Ok r' -> k <> k_params -> field r' k = field r k.
Proof.
  intros H Hk. apply set_param_inv in H as [d [p [-> [_ ->]]]]. simpl.
  apply dict_get_set_other; exact Hk.
Qed.

Lemma set_param_params (r r' : value) (key : pystr) (v : value) :
  set_param r key v = Ok r' -> params_of r' = dict_set (params_of r) key v.
Proof.
  intros H. apply set_param_inv in H as [d [p [-> [Hp ->]]]].
  unfold params_of; simpl. rewrite dict_get_set_same, Hp. reflexivity.
Qed.

Lemma set_param_same (r r' : value) (key : pystr) (v : value) :
  set_param r key v = Ok r' -> param r' key = Some v.
Proof.
  intros H. unfold param. rewrite (set_param_params _ _ _ _ H).
  apply dict_get_set_same.
Qed.

Lemma set_param_other (r r' : value) (key : pystr) (v : value) (k : pystr) :
  set_param r key v = Ok r' -> k <> key -> param r' k = param r k.
Proof.
  intros H Hk. unfold param. rewrite (set_param_params _ _ _ _ H).
  apply dict_get_set_other; exact Hk.
Qed.

Lemma setdefault_params_inv (r r' : value) :
  py_setdefault r k_params (VDict []) = Ok r' ->
  exists d, r = VDict d /\ r' = VDict (dict_setdefault d k_params (VDict [])).
Proof.
  destruct r; simpl; try discriminate.
  intros H; inversion H; subst. eauto.
Qed.

Lemma setdefault_params_field (r r' : value) (k : pystr) :
  py_setdefault r k_params (VDict []) = Ok r' ->
  k <> k_params -> field r' k = field r k.
Proof.
  intros H Hk. apply setdefault_params_inv in H as [d [-> ->]]. simpl.
  apply dict_get_setdefault_other; exact Hk.
Qed.

Lemma setdefault_params_params (r r' : value) :
  py_setdefault r k_params (VDict []) = Ok r' -> params_of r' = params_of r.
Proof.
  intros H. apply setdefault_params_inv in H as [d [-> ->]].
  unfold params_of; simpl. rewrite dict_get_setdefault_same.
  destruct (dict_get d k_params); reflexivity.
Qed.

Lemma setdefault_params_present (r r' : value) :
  py_setdefault r k_params (VDict []) = Ok r' ->
  r' = r \/ (field r k_params = None /\ field r' k_params = Some (VDict [])).
Proof.
  intros H. apply setdefault_params_inv in H as [d [-> ->]].
  unfold dict_setdefault, assoc_setdefault, assoc_has. simpl.
  destruct (assoc_get PyStr.eqb d k_params) eqn:E; [left; reflexivity |].
  right. split; [exact E |].
  unfold dict_get. rewrite (assoc_get_app_none _ _ _ pystr_eqb_eq _ _ _ _ E).
  rewrite pystr_eqb_refl. reflexivity.
Qed.

(* ================================================================== *)
(** ** The cover *)

Lemma has_cover_spec (r : value) (b : bool) :
  has_cover r = Ok b -> b = cover_is_true r.
Proof.
  unfold has_cover, cover_is_true, param, params_of.
  destruct r as [| | | | | | |d]; simpl; try discriminate.
  unfold get_or_none. destruct (dict_get d k_params) as [pv|]; simpl.
  - destruct pv as [| | | | | | |p]; simpl;
      try (intros H; inversion H; reflexivity).
    unfold get_or_none. intros H; inversion H.
    destruct (dict_get p k_cover) as [[| [|] | | | | | |]|]; reflexivity.
  - intros H; inversion H; reflexivity.
Qed.

Lemma any_cover_spec (rs : list value) (b : bool) :
  any_cover rs = Ok b -> b = existsb cover_is_true rs.
Proof.
  induction rs as [|r rs IH]; simpl.
  - intros H; inversion H; reflexivity.
  - destruct (has_cover r) as [c|e] eqn:Hc; simpl; [| discriminate].
    apply has_cover_spec in Hc. subst c.
    destruct (cover_is_true r); simpl; [intros H; inversion H; reflexivity |].
    exact IH.
Qed.



(** What [ensure_cover] returns: the list itself, or the list with
    [cover: true] written on its first entry when no entry had it. *)
Lemma ensure_cover_inv (rs rs' : list value) :
  ensure_cover rs = Ok rs' ->
  (rs' = rs /\ (rs = [] \/ existsb cover_is_true rs = true))
  \/ (existsb cover_is_true rs = false
      /\ exists r0 rest r1 r2,
           rs = r0 :: rest /\ rs' = r2 :: rest
           /\ py_setdefault r0 k_params (VDict []) = Ok r1
           /\ set_param r1 k_cover (VBool true) = Ok r2).
Proof.
  intros H. unfold ensure_cover in H.
  destruct (any_cover rs) as [found|e] eqn:Hany; simpl in H; [| discriminate].
  apply any_cover_spec in Hany.
  destruct rs as [|r0 rest]; [inversion H; auto |].
  destruct found; simpl in H; [inversion H; auto |].
  destruct (py_setdefault r0 k_params (VDict [])) as [r1|e] eqn:H1;
    simpl in H; [| discriminate].
  destruct (set_param r1 k_cover (VBool true)) as [r2|e] eqn:H2;
    simpl in H; [| discriminate].
  inversion H; subst rs'. right. split; [auto |].
  exists r0, rest, r1, r2. auto.
Qed.


(** [ensure_cover] returns on every list of workable entries. *)
Lemma ensure_cover_total (resources : list value) :
  Forall entry_ok resources ->
  exists resources', ensure_cover resources = Ok resources'.
Proof.
  intros Hok.
  assert (Hany : exists b, any_cover resources = Ok b).
  { induction Hok as [|r rs [d [-> Hp]] _ [b IH]]; simpl; [eauto |].
    unfold has_cover; simpl. unfold get_or_none.
    destruct Hp as [-> | [p ->]]; simpl.
    - rewrite IH; eauto.
    - destruct (is_True _); [eauto | rewrite IH; eauto]. }
  destruct Hany as [b Hb]. unfold ensure_cover. rewrite Hb; simpl.
  destruct Hok as [|r rs [d [-> Hp]] _]; [eauto |].
  destruct b; simpl; [eauto |].
  unfold set_param, dict_setdefault, assoc_setdefault, assoc_has; simpl.
  destruct Hp as [Hp | [p Hp]]; unfold dict_get in Hp; rewrite Hp; simpl.
  - fold (dict_get (d ++ [(k_params, VDict [])]) k_params).
    unfold dict_get. rewrite (assoc_get_app_none _ _ _ pystr_eqb_eq _ _ _ _ Hp).
    rewrite pystr_eqb_refl. simpl. eauto.
  - unfold dict_get. rewrite Hp. simpl. eauto.
Qed.

(* ================================================================== *)
(** ** Weights *)


Lemma assoc_set_fresh {V : Type} (m : list (pykey * V)) (k : pykey) (v : V) :
  ~ In k (map fst m) -> assoc_set key_eqb m k v = m ++ [(k, v)].
Proof.
  induction m as [|[k' v'] m IH]; simpl; [reflexivity |].
  intros H. destruct (key_eqb k k') eqn:E.
  - apply key_eqb_eq in E. subst. exfalso; apply H; auto.
  - rewrite IH; [reflexivity |]. intros Hin; apply H; auto.
Qed.

(** The exceptions of [int] that the first loop catches. *)
Lemma caught_continue {A : Type} (ex : exn) (k : result A) (v : A) :
  match ex with TypeError | ValueError => k | _ => Raise ex end = Ok v ->
  k = Ok v.
Proof. destruct ex; intros H; try discriminate; exact H. Qed.




Lemma lacks_weight_dict (d p : dict) (b : bool) :
  dict_get d k_params = Some (VDict p) ->
  lacks_weight (VDict d) = Ok b -> b = weight_missing (VDict d).
Proof.
  intros Hp. unfold lacks_weight, weight_missing, param, params_of. simpl.
  rewrite Hp. simpl. unfold dict_has, assoc_has.
  fold (dict_get p k_weight).
  destruct (dict_get p k_weight) as [w|]; simpl.
  - intros H; inversion H. destruct w as [| | | |[|]| | |]; reflexivity.
  - intros H; inversion H; reflexivity.
Qed.

Lemma lacks_weight_false (r : value) :
  lacks_weight r = Ok false ->
  exists d p, r = VDict d /\ dict_get d k_params = Some (VDict p).
Proof.
  unfold lacks_weight. destruct r as [| | | | | | |d]; simpl; try discriminate.
  destruct (dict_get d k_params) as [pv|] eqn:Hp; simpl; [| discriminate].
  destruct pv as [| | | |s| |l|p]; simpl; try discriminate.
  - destruct (PyStr.contains k_weight s); simpl; discriminate.
  - destruct (existsb _ l); simpl; discriminate.
  - intros _. exists d, p. auto.
Qed.

Lemma count_missing_cons (r : value) (rs : list value) :
  count_missing (r :: rs)
  = ((if weight_missing r then 1 else 0) + count_missing rs)%nat.
Proof.
  unfold count_missing; simpl. destruct (weight_missing r); reflexivity.
Qed.

Lemma assign_weights_spec (rs : list value) :
  forall (n : Z) (rs' : list value),
    assign_weights n rs = Ok rs' ->
    List.length rs' = List.length rs
    /\ forall i r, nth_error rs i = Some r ->
         exists r', nth_error rs' i = Some r'
           /\ (weight_missing r = true ->
               set_param r k_weight
                 (VInt (n + Z.of_nat (count_missing (firstn i rs)))) = Ok r')
           /\ (weight_missing r = false -> r' = r).
Proof.
  induction rs as [|r rs IH]; intros n rs' H; simpl in H.
  - inversion H; subst. split; [reflexivity |]. intros [|i] r; discriminate.
  - destruct (lacks_weight r) as [b|ex] eqn:Hl; simpl in H; [| discriminate].
    destruct b.
    + destruct (set_param r k_weight (VInt n)) as [r1|ex] eqn:Hs; simpl in H;
        [| discriminate].
      destruct (assign_weights (n + 1) rs) as [rest'|ex] eqn:Hr; simpl in H;
        [| discriminate].
      inversion H; subst rs'. clear H.
      destruct (IH _ _ Hr) as [Hlen Hnth].
      destruct (set_param_inv _ _ _ _ Hs) as [d [p [Hrd [Hp _]]]].
      assert (Hm : weight_missing r = true).
      { subst r. symmetry. apply (lacks_weight_dict d p true Hp Hl). }
      split; [simpl; congruence |].
      intros [|i] r0 Hr0; simpl in Hr0.
      * inversion Hr0; subst r0. exists r1. split; [reflexivity |]. split.
        -- intros _. simpl. replace (n + 0) with n by lia. exact Hs.
        -- congruence.
      * destruct (Hnth i r0 Hr0) as [r' [Hn' [Ha Hb]]].
        exists r'. split; [exact Hn' |]. split; [| exact Hb].
        intros Hm0. simpl firstn. rewrite count_missing_cons, Hm.
        specialize (Ha Hm0).
        replace (n + Z.of_nat (1 + count_missing (firstn i rs)))
          with (n + 1 + Z.of_nat (count_missing (firstn i rs))) by lia.
        exact Ha.
    + destruct (assign_weights n rs) as [rest'|ex] eqn:Hr; simpl in H;
        [| discriminate].
      inversion H; subst rs'. clear H.
      destruct (IH _ _ Hr) as [Hlen Hnth].
      destruct (lacks_weight_false _ Hl) as [d [p [Hrd Hp]]].
      assert (Hm : weight_missing r = false).
      { subst r. symmetry. apply (lacks_weight_dict d p false Hp Hl). }
      split; [simpl; congruence |].
      intros [|i] r0 Hr0; simpl in Hr0.
      * inversion Hr0; subst r0. exists r. split; [reflexivity |]. split.
        -- congruence.
        -- reflexivity.
      * destruct (Hnth i r0 Hr0) as [r' [Hn' [Ha Hb]]].
        exists r'. split; [exact Hn' |]. split; [| exact Hb].
        intros Hm0. simpl firstn. rewrite count_missing_cons, Hm.
        exact (Ha Hm0).
Qed.

Lemma default_params_spec (rs : list value) :
  forall rs1, default_params rs = Ok rs1 ->
    List.length rs1 = List.length rs
    /\ (forall i r, nth_error rs i = Some r ->
          exists r1, nth_error rs1 i = Some r1
                     /\ py_setdefault r k_params (VDict []) = Ok r1)
    /\ (forall i, count_missing (firstn i rs1) = count_missing (firstn i rs)).
Proof.
  induction rs as [|r rs IH]; intros rs1 H; simpl in H.
  - inversion H; subst. split; [reflexivity |]. split.
    + intros [|i] r; discriminate.
    + reflexivity.
  - destruct (py_setdefault r k_params (VDict [])) as [r1|ex] eqn:Hs;
      simpl in H; [| discriminate].
    destruct (default_params rs) as [rest|ex] eqn:Hr; simpl in H;
      [| discriminate].
    inversion H; subst rs1. clear H.
    destruct (IH _ eq_refl) as [Hlen [Hnth Hcnt]].
    split; [simpl; congruence |]. split.
    + intros [|i] r0 Hr0; simpl in Hr0.
      * inversion Hr0; subst r0. exists r1. auto.
      * apply Hnth; exact Hr0.
    + intros [|i]; [reflexivity |]. simpl firstn.
      rewrite !count_missing_cons, Hcnt.
      unfold weight_missing, param.
      rewrite (setdefault_params_params _ _ Hs). reflexivity.
Qed.


(** The entries after [update_weights_preserve_existing], one by one;
    [max_w] is the maximum the first loop found. *)
Lemma update_weights_entries (int_of_str : pystr -> option Z)
  (rs : list value) (prev : by_src) (rs' : list value) :
  update_weights_preserve_existing int_of_str rs prev = Ok rs' ->
  exists ws,
    collect_weights int_of_str [] prev = Ok ws
    /\ List.length rs' = List.length rs
    /\ forall i r, nth_error rs i = Some r ->
         exists r', nth_error rs' i = Some r'
           /\ (weight_missing r = true ->
               weight_at rs' i
               = Some (max_default0 (map snd ws) + 1
                       + Z.of_nat (count_missing (firstn i rs)))
               /\ (forall k, k <> k_weight -> param r' k = param r k)
               /\ (forall k, k <> k_params -> field r' k = field r k))
           /\ (weight_missing r = false -> r' = r).
Proof.
  intros H. unfold update_weights_preserve_existing in H.
  destruct (collect_weights int_of_str [] prev) as [ws|ex] eqn:Hc;
    simpl in H; [| discriminate].
  destruct (default_params rs) as [rs1|ex] eqn:Hd; simpl in H;
    [| discriminate].
  set (max_w := max_default0 (map snd ws)) in *.
  destruct (default_params_spec rs rs1 Hd) as [Hlen1 [Hnth1 Hcnt]].
  destruct (assign_weights_spec rs1 (max_w + 1) rs' H) as [Hlen2 Hnth2].
  exists ws. split; [reflexivity |]. split; [congruence |].
  intros i r Hr.
  destruct (Hnth1 i r Hr) as [r1 [Hr1 Hs1]].
  destruct (Hnth2 i r1 Hr1) as [r' [Hr' [Ha Hb]]].
  assert (Hmm : weight_missing r1 = weight_missing r).
  { unfold weight_missing, param.
    rewrite (setdefault_params_params _ _ Hs1). reflexivity. }
  exists r'. split; [exact Hr' |]. split.
  - intros Hm. rewrite <- Hmm in Hm. specialize (Ha Hm).
    rewrite Hcnt in Ha. split; [| split].
    + unfold weight_at. rewrite Hr'.
      rewrite (set_param_same _ _ _ _ Ha). reflexivity.
    + intros k Hk. rewrite (set_param_other _ _ _ _ _ Ha Hk).
      unfold param. rewrite (setdefault_params_params _ _ Hs1). reflexivity.
    + intros k Hk. rewrite (set_param_field _ _ _ _ _ Ha Hk).
      apply (setdefault_params_field _ _ _ Hs1 Hk).
  - intros Hm. rewrite <- Hmm in Hm. rewrite (Hb Hm).
    destruct (setdefault_params_present _ _ Hs1) as [-> | [Hnone _]];
      [reflexivity |].
    exfalso. rewrite Hmm in Hm.
    unfold weight_missing, param, params_of in Hm. rewrite Hnone in Hm.
    discriminate.
Qed.


(** The exceptions of [int]: the first loop catches all of them but the
    overflow on an infinite float. *)
Lemma py_int_raise (int_of_str : pystr -> option Z) (w : value) (e : exn) :
  py_int int_of_str w = Raise e ->
  e = TypeError \/ e = ValueError
  \/ (e = OverflowError /\ exists negative, w = VFloat (FInf negative)).
Proof.
  destruct w as [| | |[m x|negative|obj]|s| | |]; simpl; intros H;
    try discriminate; try (inversion H; auto; fail).
  - inversion H. right. right. split; [reflexivity | eauto].
  - destruct (int_of_str s); [discriminate | inversion H; auto].
Qed.

(** The first loop returns when the previous entries are workable and no
    weight is an infinite float. *)
Lemma collect_weights_returns (int_of_str : pystr -> option Z)
  (previous : by_src) :
  Forall (fun kv => entry_ok (snd kv)) previous ->
  Forall (fun kv => weight_overflows (snd kv) = false) previous ->
  forall acc, exists ws, collect_weights int_of_str acc previous = Ok ws.
Proof.
  induction previous as [|[k e] prev IH]; intros Hok Hfin acc; simpl;
    [eauto |].
  inversion Hok as [|? ? [d [He Hp]] Hok']; subst.
  inversion Hfin as [|? ? Hw Hfin']; subst.
  simpl in He, Hw. subst e.
  destruct Hp as [Hp | [p Hp]]; rewrite Hp; simpl;
    [apply (IH Hok' Hfin') |].
  destruct (py_int int_of_str (get_or_none p k_weight)) as [z|ex] eqn:Hint;
    [apply (IH Hok' Hfin') |].
  destruct (py_int_raise _ _ _ Hint) as [-> | [-> | [_ [negative Hinf]]]];
    try apply (IH Hok' Hfin').
  exfalso. unfold weight_overflows, param, params_of in Hw. simpl in Hw.
  rewrite Hp in Hw. unfold get_or_none in Hinf.
  destruct (dict_get p k_weight) as [w|]; [| discriminate].
  subst w. discriminate.
Qed.

(** [update_weights_preserve_existing] returns when the entries of both
    arguments are workable and no previous weight is an infinite float. *)
Lemma update_weights_total (int_of_str : pystr -> option Z)
  (sorted_resources : list value) (previous : by_src) :
  Forall entry_ok sorted_resources ->
  Forall (fun kv => entry_ok (snd kv)) previous ->
  Forall (fun kv => weight_overflows (snd kv) = false) previous ->
  exists resources',
    update_weights_preserve_existing int_of_str sorted_resources previous
    = Ok resources'.
Proof.
  intros Hrs Hprev Hfin. unfold update_weights_preserve_existing.
  destruct (collect_weights_returns int_of_str previous Hprev Hfin [])
    as [ws ->].
  simpl.
  assert (Hd : exists rs1, default_params sorted_resources = Ok rs1
                           /\ Forall (fun r => exists d p, r = VDict d
                                 /\ dict_get d k_params = Some (VDict p)) rs1).
  { induction Hrs as [|r rs [d [-> Hp]] _ [rs1 [IH1 IH2]]]; simpl.
    - exists []. split; [reflexivity | constructor].
    - rewrite IH1. simpl. eexists. split; [reflexivity |].
      constructor; [| exact IH2].
      exists (dict_setdefault d k_params (VDict [])).
      rewrite dict_get_setdefault_same.
      destruct Hp as [-> | [p ->]]; eauto. }
  destruct Hd as [rs1 [-> Hok]]. simpl.
  generalize (max_default0 (map snd ws) + 1).
  induction Hok as [|r rs [d [p [-> Hp]]] _ IH]; intros n; simpl; [eauto |].
  destruct (lacks_weight (VDict d)) as [b|ex] eqn:Hl.
  - simpl. destruct b.
    + unfold set_param. simpl. rewrite Hp. simpl.
      destruct (IH (n + 1)) as [rest ->]. simpl. eauto.
    + destruct (IH n) as [rest ->]. simpl. eauto.
  - exfalso. unfold lacks_weight in Hl. simpl in Hl. rewrite Hp in Hl.
    simpl in Hl. unfold dict_has, assoc_has in Hl.
    fold (dict_get p k_weight) in Hl.
    destruct (dict_get p k_weight); simpl in Hl; discriminate.
Qed.

(* ================================================================== *)
(** ** The order of file names *)

Lemma ltb_irrefl (a : pystr) : PyStr.ltb a a = false.
Proof.
  induction a as [|x a IH]; simpl; [reflexivity |].
  rewrite N.ltb_irrefl, N.eqb_refl, IH. reflexivity.
Qed.

Lemma ltb_trans (a b c : pystr) : lt_str a b -> lt_str b c -> lt_str a c.
Proof.
  unfold lt_str. revert b c.
  induction a as [|x a IH]; intros [|y b] [|z c]; simpl; try discriminate;
    auto.
  rewrite !orb_true_iff, !andb_true_iff, !N.ltb_lt, !N.eqb_eq.
  intros [Hxy | [Hxy Hab]] [Hyz | [Hyz Hbc]].
  - left; lia.
  - left; lia.
  - left; lia.
  - right. split; [lia |]. exact (IH b c Hab Hbc).
Qed.

Lemma ltb_total (a b : pystr) : lt_str a b \/ a = b \/ lt_str b a.
Proof.
  unfold lt_str. revert b.
  induction a as [|x a IH]; intros [|y b]; simpl; auto.
  rewrite !orb_true_iff, !andb_true_iff, !N.ltb_lt, !N.eqb_eq.
  destruct (N.lt_trichotomy x y) as [H | [H | H]]; auto.
  subst y. destruct (IH b) as [H | [H | H]]; auto.
  subst b. auto.
Qed.

Lemma leb_false_lt (a b : pystr) : PyStr.leb a b = false -> lt_str b a.
Proof.
  unfold PyStr.leb, lt_str. destruct (PyStr.ltb b a); [auto | discriminate].
Qed.

Lemma leb_true_neq_lt (a b : pystr) :
  PyStr.leb a b = true -> a <> b -> lt_str a b.
Proof.
  unfold PyStr.leb. intros H Hne.
  destruct (ltb_total a b) as [Hlt | [Heq | Hgt]]; [exact Hlt | contradiction |].
  unfold lt_str in Hgt. rewrite Hgt in H. discriminate.
Qed.

Lemma insert_sorted_in (x : pystr) (l : list pystr) (y : pystr) :
  In y (insert_sorted x l) <-> y = x \/ In y l.
Proof.
  induction l as [|z l IH]; simpl.
  - split; intros [H | H]; auto.
  - destruct (PyStr.leb x z); simpl.
    + split; intros [H | H]; auto.
    + rewrite IH. split; intros [H | [H | H]]; auto.
Qed.

Lemma sorted_in (l : list pystr) (y : pystr) : In y (sorted l) <-> In y l.
Proof.
  induction l as [|x l IH]; simpl; [tauto |].
  rewrite insert_sorted_in, IH. split; intros [H | H]; auto.
Qed.

Lemma insert_sorted_strict (x : pystr) (l : list pystr) :
  ~ In x l -> StronglySorted lt_str l ->
  StronglySorted lt_str (insert_sorted x l).
Proof.
  intros Hx Hs. induction Hs as [|z l Hs IH Hall]; simpl.
  - constructor; constructor.
  - assert (Hne : x <> z) by (intros ->; apply Hx; left; reflexivity).
    assert (Hx' : ~ In x l) by (intros H; apply Hx; right; exact H).
    destruct (PyStr.leb x z) eqn:E.
    + pose proof (leb_true_neq_lt x z E Hne) as Hlt.
      constructor; [constructor; assumption |].
      constructor; [exact Hlt |].
      rewrite Forall_forall in *. intros y Hy.
      apply (ltb_trans x z y Hlt). apply Hall; exact Hy.
    + constructor; [apply IH; exact Hx' |].
      rewrite Forall_forall in *. intros y Hy.
      apply insert_sorted_in in Hy as [-> | Hy].
      * apply leb_false_lt; exact E.
      * apply Hall; exact Hy.
Qed.

Lemma sorted_strict (l : list pystr) :
  NoDup l -> StronglySorted lt_str (sorted l).
Proof.
  induction 1 as [|x l Hx Hnd IH]; simpl; [constructor |].
  apply insert_sorted_strict; [| exact IH].
  rewrite sorted_in. exact Hx.
Qed.

Lemma strongly_sorted_nodup (l : list pystr) :
  StronglySorted lt_str l -> NoDup l.
Proof.
  induction 1 as [|x l Hs IH Hall]; constructor; [| exact IH].
  intros Hin. rewrite Forall_forall in Hall. specialize (Hall x Hin).
  unfold lt_str in Hall. rewrite ltb_irrefl in Hall. discriminate.
Qed.

(* ================================================================== *)
(** ** The merge of one entry *)

Lemma desired_value (d val : value) (key : pystr) :
  (let* dparams := py_getitem d k_params in py_get dparams key) = Ok val ->
  is_empty3 val = blank (param d key)
  /\ (is_empty3 val = false -> param d key = Some val).
Proof.
  unfold param, params_of. destruct d as [| | | | | | |dd]; simpl;
    try discriminate.
  destruct (dict_get dd k_params) as [dpv|]; simpl; [| discriminate].
  destruct dpv as [| | | | | | |dp]; simpl; try discriminate.
  unfold get_or_none. intros H; inversion H; subst val.
  destruct (dict_get dp key) as [v|]; simpl; [auto |].
  split; [reflexivity | discriminate].
Qed.

Lemma current_blank (r pv : value) (key : pystr) (present empty : bool) :
  py_getitem r k_params = Ok pv ->
  py_in key pv = Ok present ->
  (if negb present then Ok true
   else let* cur := py_get pv key in Ok (is_empty3 cur)) = Ok empty ->
  empty = blank (param r key).
Proof.
  intros Hpv Hin. unfold param, params_of.
  destruct r as [| | | | | | |rd]; simpl in Hpv; try discriminate. simpl.
  destruct (dict_get rd k_params) as [pv0|]; [| discriminate].
  inversion Hpv; subst pv0.
  destruct pv as [| | | |s| |l|p]; simpl in Hin; try discriminate;
    inversion Hin; subst present.
  - destruct (PyStr.contains key s); simpl; [discriminate |].
    intros H; inversion H; reflexivity.
  - destruct (existsb _ l); simpl; [discriminate |].
    intros H; inversion H; reflexivity.
  - unfold dict_has, assoc_has. fold (dict_get p key).
    destruct (dict_get p key) as [v|] eqn:E; simpl;
      unfold get_or_none; rewrite ?E; intros H; inversion H; reflexivity.
Qed.

(** One round of the fill loop. *)
Lemma fill_if_absent_spec (d r r' : value) (key : pystr) :
  fill_if_absent d r key = Ok r' ->
  (forall k, k <> k_params -> field r' k = field r k)
  /\ (forall k, k <> key -> param r' k = param r k)
  /\ (blank (param r key) = true -> blank (param d key) = false ->
      param r' key = param d key)
  /\ (blank (param r key) = false -> param r' key = param r key)
  /\ (blank (param d key) = true -> param r' key = param r key).
Proof.
  unfold fill_if_absent.
  destruct (py_getitem r k_params) as [pv|ex] eqn:Hpv; simpl; [| discriminate].
  destruct (py_in key pv) as [present|ex] eqn:Hin; simpl; [| discriminate].
  destruct (if negb present then Ok true
            else let* cur := py_get pv key in Ok (is_empty3 cur))
    as [empty|ex] eqn:He; simpl; [| discriminate].
  apply (current_blank _ _ _ _ _ Hpv Hin) in He.
  assert (Hsame : Ok r = Ok r' ->
    blank (param r key) = false \/ blank (param d key) = true ->
    (forall k, k <> k_params -> field r' k = field r k)
    /\ (forall k, k <> key -> param r' k = param r k)
    /\ (blank (param r key) = true -> blank (param d key) = false ->
        param r' key = param d key)
    /\ (blank (param r key) = false -> param r' key = param r key)
    /\ (blank (param d key) = true -> param r' key = param r key)).
  { intros H Hor; inversion H; subst r'. repeat split; auto.
    intros H1 H2. destruct Hor; congruence. }
  destruct empty; [| intros H; apply Hsame; auto].
  destruct (let* dparams := py_getitem d k_params in py_get dparams key)
    as [val|ex] eqn:Hval.
  - destruct (desired_value d val key Hval) as [Hb Hsome].
    unfold bind in Hval. unfold bind.
    destruct (py_getitem d k_params) as [dparams|ex]; [| discriminate].
    rewrite Hval.
    destruct (is_empty3 val) eqn:Hv; simpl.
    + intros H; apply Hsame; auto.
    + intros Hs. specialize (Hsome eq_refl).
      split; [intros k Hk; apply (set_param_field _ _ _ _ _ Hs Hk) |].
      split; [intros k Hk; apply (set_param_other _ _ _ _ _ Hs Hk) |].
      rewrite (set_param_same _ _ _ _ Hs), Hsome.
      repeat split; auto; congruence.
  - unfold bind in Hval. unfold bind.
    destruct (py_getitem d k_params) as [dparams|ex']; [| discriminate].
    rewrite Hval. discriminate.
Qed.

Lemma fill_keys_distinct :
  k_date <> k_location /\ k_date <> k_tags /\ k_location <> k_tags
  /\ k_title <> k_params /\ k_src <> k_title /\ k_src <> k_params
  /\ k_weight <> k_date /\ k_weight <> k_location /\ k_weight <> k_tags
  /\ k_weight <> k_cover.
Proof. repeat split; discriminate. Qed.

(** The loop body for a [src] that the manifest knows. *)
Lemma merge_existing_spec (src : pystr) (r d r' : value) :
  merge_existing src r d = Ok r' -> merged_entry src r d r'.
Proof.
  unfold merge_existing.
  destruct (py_setitem r k_title (VStr (stem src))) as [r1|ex] eqn:H1;
    simpl; [| discriminate].
  destruct (py_setdefault r1 k_params (VDict [])) as [r2|ex] eqn:H2;
    simpl; [| discriminate].
  destruct (fill_if_absent d r2 k_date) as [r3|ex] eqn:H3;
    simpl; [| discriminate].
  destruct (fill_if_absent d r3 k_location) as [r4|ex] eqn:H4;
    simpl; [| discriminate].
  intros H5.
  destruct r as [| | | | | | |rd]; simpl in H1; try discriminate.
  inversion H1; subst r1. clear H1.
  pose proof (fun k => setdefault_params_field _ _ k H2) as F2.
  pose proof (setdefault_params_params _ _ H2) as P2.
  destruct (fill_if_absent_spec _ _ _ _ H3) as [F3 [O3 [A3 [B3 C3]]]].
  destruct (fill_if_absent_spec _ _ _ _ H4) as [F4 [O4 [A4 [B4 C4]]]].
  destruct (fill_if_absent_spec _ _ _ _ H5) as [F5 [O5 [A5 [B5 C5]]]].
  destruct fill_keys_distinct as [Ndl [Ndt [Nlt [Ntp _]]]].
  assert (P1 : forall k, param r2 k = param (VDict rd) k).
  { intros k. unfold param. rewrite P2. unfold params_of. simpl.
    rewrite (dict_get_set_other _ _ _ _ (not_eq_sym Ntp)). reflexivity. }
  assert (Hf : forall k, k <> k_params -> field r' k = field r2 k).
  { intros k Hk. rewrite (F5 k Hk), (F4 k Hk), (F3 k Hk). reflexivity. }
  unfold merged_entry. split; [| split; [| split]].
  - rewrite (Hf _ Ntp), (F2 _ Ntp). simpl. apply dict_get_set_same.
  - intros k Hkt Hkp. rewrite (Hf k Hkp), (F2 k Hkp). simpl.
    apply dict_get_set_other; exact Hkt.
  - intros k [<- | [<- | [<- | []]]].
    + rewrite (O5 k_date Ndt), (O4 k_date Ndl), <- !P1. auto.
    + rewrite (O5 k_location Nlt), <- !P1,
        <- (O3 k_location (not_eq_sym Ndl)). auto.
    + rewrite <- !P1, <- (O3 k_tags (not_eq_sym Ndt)),
        <- (O4 k_tags (not_eq_sym Nlt)). auto.
  - intros k Hk. rewrite <- P1.
    rewrite O5, O4, O3; [reflexivity | | |];
      intros ->; apply Hk; simpl; auto.
Qed.

(* ================================================================== *)
(** ** The merge loop *)

Lemma by_src_get_set_other (m : by_src) (k k0 : pykey) (v : value) :
  k0 <> k -> by_src_get (by_src_set m k v) k0 = by_src_get m k0.
Proof. apply assoc_get_set_other, key_eqb_eq. Qed.

Lemma by_src_set_related (m : by_src) (k : pykey) (r v : value) :
  by_src_get m k = Some r ->
  param v k_weight = param r k_weight ->
  Forall2 same_key_weight m (by_src_set m k v).
Proof.
  unfold by_src_get, by_src_set.
  induction m as [|[k' e] m IH]; simpl; [discriminate |].
  assert (Hrefl : forall l : by_src, Forall2 same_key_weight l l).
  { induction l; constructor; [split; reflexivity | assumption]. }
  destruct (key_eqb k k') eqn:E.
  - intros H Hw; inversion H; subst e.
    constructor; [split; [reflexivity | exact Hw] | apply Hrefl].
  - intros H Hw. constructor; [split; reflexivity | apply IH; assumption].
Qed.

Lemma same_key_weight_trans (a b c : by_src) :
  Forall2 same_key_weight a b -> Forall2 same_key_weight b c ->
  Forall2 same_key_weight a c.
Proof.
  intros Hab. revert c. induction Hab as [|x y a b [H1 H2] _ IH];
    intros c Hbc; inversion Hbc as [|y' z b' c' [H3 H4] Hbc']; subst.
  - constructor.
  - constructor; [split; congruence | apply IH; exact Hbc'].
Qed.

Lemma merge_existing_weight (src : pystr) (r d r' : value) :
  merge_existing src r d = Ok r' -> param r' k_weight = param r k_weight.
Proof.
  intros H. apply merge_existing_spec in H as [_ [_ [_ H]]]. apply H.
  destruct fill_keys_distinct as [_ [_ [_ [_ [_ [_ [A [B [C _]]]]]]]]].
  intros [E | [E | [E | []]]]; congruence.
Qed.

Lemma merge_loop_spec (desired : dict) (keys : list pystr) :
  forall (existing : by_src) (acc merged : list value) (existing' : by_src),
    NoDup keys ->
    merge_loop keys existing desired acc = Ok (merged, existing') ->
    (exists new, merged = acc ++ new
                 /\ Forall2 (merged_for existing desired) keys new)
    /\ Forall2 same_key_weight existing existing'.
Proof.
  assert (Hrefl : forall l : by_src, Forall2 same_key_weight l l).
  { induction l; constructor; [split; reflexivity | assumption]. }
  induction keys as [|src keys IH]; intros ex acc merged ex' Hnd H;
    simpl in H.
  - inversion H; subst. split; [| apply Hrefl].
    exists []. rewrite app_nil_r. split; [reflexivity | constructor].
  - inversion Hnd as [|? ? Hnotin Hnd']; subst.
    destruct (dict_get desired src) as [d|] eqn:Hd; simpl in H;
      [| discriminate].
    destruct (by_src_get ex (KStr src)) as [r|] eqn:Hr.
    + destruct (merge_existing src r d) as [r'|e] eqn:Hm; simpl in H;
        [| discriminate].
      destruct (IH _ _ _ _ Hnd' H) as [[new [Hmerged Hnew]] Hrel].
      split.
      * exists (r' :: new). split; [rewrite Hmerged, <- app_assoc; reflexivity |].
        constructor.
        -- exists d. rewrite Hr. auto.
        -- clear - Hnew Hnotin.
           induction Hnew as [|s m ks ms [d0 [Hd0 Hm0]] _ IHn];
             constructor.
           ++ exists d0. split; [exact Hd0 |].
              rewrite by_src_get_set_other in Hm0; [exact Hm0 |].
              intros E; inversion E; subst. apply Hnotin; left; reflexivity.
           ++ apply IHn. intros Hin; apply Hnotin; right; exact Hin.
      * apply (same_key_weight_trans _ _ _
                 (by_src_set_related _ _ _ _ Hr
                    (merge_existing_weight _ _ _ _ Hm)) Hrel).
    + destruct (IH _ _ _ _ Hnd' H) as [[new [Hmerged Hnew]] Hrel].
      split; [| exact Hrel].
      exists (d :: new). split; [rewrite Hmerged, <- app_assoc; reflexivity |].
      constructor; [| exact Hnew].
      exists d. rewrite Hr. auto.
Qed.

(** [desired_by_src]: its keys are the images, each filed once with the
    entry built from it. *)
Lemma build_desired_spec (extract : pystr -> pystr * pystr)
  (images tags : list pystr) (loc : pystr) :
  let desired := build_desired extract images tags loc in
  NoDup (map fst desired)
  /\ (forall k, In k (map fst desired) <-> In k images)
  /\ (forall k, In k images ->
        dict_get desired k
        = Some (build_resource_for_image extract k tags loc)).
Proof.
  unfold build_desired.
  set (build := fun name => build_resource_for_image extract name tags loc).
  assert (Hgen : forall imgs acc,
    NoDup (map fst acc) ->
    (forall k v, dict_get acc k = Some v -> v = build k) ->
    let res := fold_left (fun desired name => dict_set desired name (build name))
                         imgs acc in
    NoDup (map fst res)
    /\ (forall k, In k (map fst res) <-> In k (map fst acc) \/ In k imgs)
    /\ (forall k v, dict_get res k = Some v -> v = build k)).
  { induction imgs as [|x imgs IH]; intros acc Hnd Hval; simpl.
    - split; [exact Hnd |]. split; [intros k; tauto | exact Hval].
    - assert (Hkeys : map fst (dict_set acc x (build x))
                      = if dict_has acc x then map fst acc
                        else map fst acc ++ [x])
        by apply assoc_set_keys.
      destruct (IH (dict_set acc x (build x))) as [H1 [H2 H3]].
      + rewrite Hkeys. destruct (dict_has acc x) eqn:Eh; [exact Hnd |].
        assert (Hx : ~ In x (map fst acc)).
        { intros Hin. apply (assoc_has_in_keys _ _ _ pystr_eqb_eq) in Hin.
          unfold dict_has in Eh. congruence. }
        clear - Hnd Hx. induction (map fst acc) as [|a l IHl]; simpl.
        * constructor; [intros [] | constructor].
        * inversion Hnd; subst. constructor.
          -- rewrite in_app_iff. intros [H | [H | []]]; [contradiction |].
             subst. apply Hx; left; reflexivity.
          -- apply IHl; [assumption |]. intros H; apply Hx; right; exact H.
      + intros k v. destruct (pystr_eqb_eq k x) as [_ Heq].
        destruct (PyStr.eqb k x) eqn:E.
        * apply pystr_eqb_eq in E; subst k. rewrite dict_get_set_same.
          intros H; inversion H; reflexivity.
        * apply pystr_eqb_neq in E. rewrite (dict_get_set_other _ _ _ _ E).
          apply Hval.
      + split; [exact H1 |]. split; [| exact H3].
        intros k. rewrite H2, Hkeys.
        destruct (dict_has acc x) eqn:Eh.
        * apply (assoc_has_in_keys _ _ _ pystr_eqb_eq) in Eh.
          split; [tauto |]. intros [H | [<- | H]]; auto.
        * rewrite in_app_iff. simpl. tauto. }
  destruct (Hgen images [] (NoDup_nil _)) as [H1 [H2 H3]];
    [intros k v; discriminate |].
  clear Hgen. subst build. cbv beta zeta in H1, H2, H3.
  set (res := fold_left
                (fun (desired : dict) (name : pystr) =>
                   dict_set desired name
                     (build_resource_for_image extract name tags loc))
                images []) in *.
  split; [exact H1 |]. split.
  - intros k. rewrite H2. simpl. tauto.
  - intros k Hk.
    assert (Hin : In k (map fst res)) by (apply H2; right; exact Hk).
    apply (assoc_has_in_keys _ _ _ pystr_eqb_eq) in Hin.
    unfold assoc_has in Hin. fold (dict_get res k) in Hin.
    destruct (dict_get res k) as [v|] eqn:Ev; [| discriminate].
    rewrite (H3 k v Ev). reflexivity.
Qed.

(* ================================================================== *)
(** ** The index of the previous entries *)

Lemma by_src_set_in (m : by_src) (k k0 : pykey) (v v0 : value) :
  In (k0, v0) (by_src_set m k v) -> In (k0, v0) m \/ (k0 = k /\ v0 = v).
Proof.
  unfold by_src_set. induction m as [|[k' v'] m IH]; simpl.
  - intros [H | []]; inversion H; auto.
  - destruct (key_eqb k k') eqn:E; simpl.
    + apply key_eqb_eq in E; subst k'.
      intros [H | H]; [inversion H; auto | auto].
    + intros [H | H]; [auto |]. destruct (IH H); auto.
Qed.

Lemma float_key_not_str (f : pyfloat) (name : pystr) :
  float_key f <> KStr name.
Proof.
  destruct f as [m e| |]; simpl; try discriminate.
  destruct (float_whole m e); [discriminate |].
  destruct m as [|q|q]; try discriminate;
    destruct (odd_part q e); discriminate.
Qed.

Lemma entry_key_src (r : value) (name : pystr) :
  entry_key r = Some (KStr name) -> field r k_src = Some (VStr name).
Proof.
  destruct r as [| | | | | | |d]; simpl; try discriminate.
  unfold get_or_none. destruct (dict_get d k_src) as [s|]; simpl;
    [| discriminate].
  destruct (truthy s); [| discriminate].
  destruct s as [|[|]| |f| | | |]; simpl; try discriminate.
  - intros H; inversion H as [Hk]. destruct (float_key_not_str f name Hk).
  - intros H; inversion H; reflexivity.
Qed.

Lemma keys_of_pairs_of (raw : list value) :
  map fst (pairs_of raw) = keys_of raw.
Proof.
  induction raw as [|r raw IH]; simpl; [reflexivity |].
  destruct (entry_key r); simpl; congruence.
Qed.

Lemma pairs_of_in (raw : list value) (k : pykey) (e : value) :
  In (k, e) (pairs_of raw) <-> In e raw /\ entry_key e = Some k.
Proof.
  induction raw as [|r raw IH]; simpl; [tauto |].
  destruct (entry_key r) as [kr|] eqn:E; simpl; rewrite IH.
  - split.
    + intros [H | [H1 H2]]; [inversion H; subst; auto | auto].
    + intros [[-> | H1] H2]; [left; congruence | auto].
  - split; [tauto |]. intros [[-> | H1] H2]; [congruence | auto].
Qed.

(** Every entry of the index is filed under its own key and comes from
    the list. *)
Lemma resources_to_dict_onto_keyed (raw : list value) :
  forall (acc prev : by_src),
    resources_to_dict_onto acc raw = Ok prev ->
    forall k e, In (k, e) prev ->
      In (k, e) acc \/ (In e raw /\ entry_key e = Some k).
Proof.
  induction raw as [|r raw IH]; intros acc prev H k e Hin; simpl in H.
  - inversion H; subst; auto.
  - assert (Hskip : resources_to_dict_onto acc raw = Ok prev ->
                    In (k, e) acc \/ (In e (r :: raw) /\ entry_key e = Some k)).
    { intros H'. destruct (IH _ _ H' k e Hin) as [Ha | [Ha Hb]]; simpl; auto. }
    destruct r as [| | | | | | |d]; auto.
    destruct (truthy (get_or_none d k_src)) eqn:Et; auto.
    destruct (to_key (get_or_none d k_src)) as [kr|] eqn:Ek; [| discriminate].
    destruct (IH _ _ H k e Hin) as [Ha | [Ha Hb]]; [| simpl; auto].
    apply by_src_set_in in Ha as [Ha | [-> ->]]; [auto |].
    right. split; [left; reflexivity |]. simpl. rewrite Et. exact Ek.
Qed.

(** With unique keys the index is the list of the keyed entries. *)
Lemma resources_to_dict_onto_unique (raw : list value) :
  forall (acc prev : by_src),
    NoDup (map fst acc ++ keys_of raw) ->
    resources_to_dict_onto acc raw = Ok prev ->
    prev = acc ++ pairs_of raw.
Proof.
  induction raw as [|r raw IH]; intros acc prev Hnd H; simpl in H.
  - inversion H; subst. simpl. rewrite app_nil_r. reflexivity.
  - simpl in Hnd. simpl pairs_of.
    assert (Hskip : entry_key r = None ->
                    resources_to_dict_onto acc raw = Ok prev ->
                    prev = acc ++ match entry_key r with
                                  | Some k => (k, r) :: pairs_of raw
                                  | None => pairs_of raw
                                  end).
    { intros E H'. rewrite E in *. apply IH; assumption. }
    destruct r as [| | | | | | |d]; try (apply Hskip; [reflexivity | exact H]).
    simpl entry_key in *.
    destruct (truthy (get_or_none d k_src)) eqn:Et;
      [| apply Hskip; [reflexivity | exact H]].
    destruct (to_key (get_or_none d k_src)) as [kr|] eqn:Ek; [| discriminate].
    assert (Hfresh : ~ In kr (map fst acc)).
    { apply NoDup_remove_2 in Hnd. intros Hin; apply Hnd.
      apply in_or_app; auto. }
    unfold by_src_set in H. rewrite (assoc_set_fresh acc kr _ Hfresh) in H.
    apply IH in H.
    + rewrite H, <- app_assoc. reflexivity.
    + rewrite map_app, <- app_assoc. exact Hnd.
Qed.

(* ================================================================== *)
(** ** The run, step by step *)

Lemma reconcile_inv (int_of_str : pystr -> option Z)
  (extract : pystr -> pystr * pystr) (front : dict)
  (images tags : list pystr) (loc : pystr) (final : list value) :
  reconcile int_of_str extract front images tags loc = Ok final ->
  let desired := build_desired extract images tags loc in
  exists prev merged0 prev' merged1,
    resources_to_dict (resources_of front) = Ok prev
    /\ merge_loop (sorted (map fst desired)) prev desired []
       = Ok (merged0, prev')
    /\ update_weights_preserve_existing int_of_str merged0 prev' = Ok merged1
    /\ ensure_cover merged1 = Ok final.
Proof.
  intros H. cbv zeta. unfold reconcile in H. unfold resources_of.
  set (desired := build_desired extract images tags loc) in *.
  assert (Hprev : match match dict_get front k_resources with
                        | Some v => v
                        | None => VList []
                        end with
                  | VList l => resources_to_dict l
                  | _ => Ok []
                  end
                  = resources_to_dict
                      match dict_get front k_resources with
                      | Some (VList l) => l
                      | _ => []
                      end).
  { destruct (dict_get front k_resources) as [[| | | | | | |]|]; reflexivity. }
  rewrite Hprev in H. clear Hprev.
  destruct (resources_to_dict _) as [prev|e] eqn:Hp; simpl in H;
    [| discriminate].
  destruct (merge_loop _ prev desired []) as [[merged0 prev']|e] eqn:Hm;
    simpl in H; [| discriminate].
  destruct (update_weights_preserve_existing int_of_str merged0 prev')
    as [merged1|e] eqn:Hu; simpl in H; [| discriminate].
  exists prev, merged0, prev', merged1. auto.
Qed.

Lemma ensure_cover_entries (rs rs' : list value) :
  ensure_cover rs = Ok rs' ->
  List.length rs' = List.length rs
  /\ forall i r, nth_error rs i = Some r ->
       exists r', nth_error rs' i = Some r'
         /\ (forall k, k <> k_params -> field r' k = field r k)
         /\ (forall k, k <> k_cover -> param r' k = param r k).
Proof.
  intros H.
  destruct (ensure_cover_inv rs rs' H)
    as [[-> _] | [_ [r0 [rest [r1 [r2 [-> [-> [H1 H2]]]]]]]]].
  - split; [reflexivity |]. intros i r Hr. exists r. auto.
  - split; [reflexivity |]. intros [|i] r Hr; simpl in Hr.
    + inversion Hr; subst r. exists r2. split; [reflexivity |]. split.
      * intros k Hk. rewrite (set_param_field _ _ _ _ _ H2 Hk).
        apply (setdefault_params_field _ _ _ H1 Hk).
      * intros k Hk. rewrite (set_param_other _ _ _ _ _ H2 Hk).
        unfold param. rewrite (setdefault_params_params _ _ H1). reflexivity.
    + exists r. auto.
Qed.

(** From the merged list to the final one, entry by entry: the fields
    other than [params] stay. *)
Lemma after_merge_fields (int_of_str : pystr -> option Z)
  (merged0 : list value) (prev' : by_src) (merged1 final : list value) :
  update_weights_preserve_existing int_of_str merged0 prev' = Ok merged1 ->
  ensure_cover merged1 = Ok final ->
  List.length final = List.length merged0
  /\ forall i m0, nth_error merged0 i = Some m0 ->
       exists n, nth_error final i = Some n
                 /\ forall k, k <> k_params -> field n k = field m0 k.
Proof.
  intros Hu Hc.
  destruct (update_weights_entries _ _ _ _ Hu) as [ws [_ [Hlen1 Hent]]].
  destruct (ensure_cover_entries _ _ Hc) as [Hlen2 Hcov].
  split; [congruence |]. intros i m0 Hm0.
  destruct (Hent i m0 Hm0) as [m1 [Hm1 [Ha Hb]]].
  destruct (Hcov i m1 Hm1) as [n [Hn [Hf _]]].
  exists n. split; [exact Hn |]. intros k Hk. rewrite (Hf k Hk).
  destruct (weight_missing m0) eqn:E.
  - destruct (Ha eq_refl) as [_ [_ Hfield]]. apply Hfield; exact Hk.
  - rewrite (Hb eq_refl). reflexivity.
Qed.

Lemma Forall2_index {A B : Type} (R : A -> B -> Prop) (l1 : list A)
  (l2 : list B) :
  Forall2 R l1 l2 ->
  List.length l1 = List.length l2
  /\ (forall i a, nth_error l1 i = Some a ->
        exists b, nth_error l2 i = Some b /\ R a b)
  /\ (forall i b, nth_error l2 i = Some b ->
        exists a, nth_error l1 i = Some a /\ R a b).
Proof.
  induction 1 as [|a b l1 l2 Hab _ [IH1 [IH2 IH3]]].
  - split; [reflexivity |]. split; intros [|i] x; discriminate.
  - split; [simpl; congruence |]. split.
    + intros [|i] x Hx; simpl in Hx.
      * inversion Hx; subst. exists b; auto.
      * apply IH2; exact Hx.
    + intros [|i] x Hx; simpl in Hx.
      * inversion Hx; subst. exists a; auto.
      * apply IH3; exact Hx.
Qed.

Lemma map_eq_by_index {A B C : Type} (f : A -> C) (g : B -> C)
  (l1 : list A) :
  forall (l2 : list B),
    List.length l1 = List.length l2 ->
    (forall i a, nth_error l1 i = Some a ->
       exists b, nth_error l2 i = Some b /\ f a = g b) ->
    map f l1 = map g l2.
Proof.
  induction l1 as [|a l1 IH]; intros [|b l2] Hlen H; simpl in Hlen;
    try discriminate; [reflexivity |].
  simpl. f_equal.
  - destruct (H 0%nat a eq_refl) as [b' [Hb Hf]]. simpl in Hb.
    inversion Hb; subst. exact Hf.
  - apply IH; [congruence |]. intros i x Hx. apply (H (S i) x Hx).
Qed.

Lemma build_resource_fields (extract : pystr -> pystr * pystr)
  (name : pystr) (tags : list pystr) (loc : pystr) :
  field (build_resource_for_image extract name tags loc) k_src
  = Some (VStr name)
  /\ param (build_resource_for_image extract name tags loc) k_weight = None
  /\ param (build_resource_for_image extract name tags loc) k_cover = None.
Proof.
  unfold build_resource_for_image.
  destruct (extract name) as [date_str loc_str].
  destruct loc_str as [|c l]; destruct loc as [|c' l'];
    destruct tags as [|t ts]; repeat split; reflexivity.
Qed.

(** Each key of the merge gives an entry whose [src] is that key. *)
Lemma merged_for_src (extract : pystr -> pystr * pystr)
  (raw : list value) (prev : by_src) (images tags : list pystr) (loc : pystr)
  (src : pystr) (m : value) :
  resources_to_dict raw = Ok prev ->
  In src images ->
  merged_for prev (build_desired extract images tags loc) src m ->
  field m k_src = Some (VStr src).
Proof.
  intros Hprev Hsrc [d [Hd Hm]].
  destruct (build_desired_spec extract images tags loc) as [_ [_ Hget]].
  rewrite (Hget src Hsrc) in Hd. inversion Hd; subst d. clear Hd.
  destruct (by_src_get prev (KStr src)) as [r|] eqn:Hr.
  - apply (assoc_get_in _ _ _ key_eqb_eq) in Hr.
    destruct (resources_to_dict_onto_keyed raw [] prev Hprev _ _ Hr)
      as [[] | [_ Hk]].
    apply entry_key_src in Hk.
    destruct (merge_existing_spec _ _ _ _ Hm) as [_ [Hf _]].
    destruct fill_keys_distinct as [_ [_ [_ [_ [A [B _]]]]]].
    rewrite (Hf k_src A B). exact Hk.
  - subst m. apply build_resource_fields.
Qed.

(* ================================================================== *)
(** ** The claims on the merge *)

(** The merge loop alone.  For a file that the manifest already lists,
    the loop returns the existing entry with its title set to the stem of
    the file name; each of date, location and tags that was absent, [None], the
    empty string or the empty list takes the freshly built value when
    that one is not blank, and is left as it was otherwise; every other
    field and parameter, weight and cover among them, is carried over. *)
Theorem merge_keeps_existing_entry :
  forall (extract : pystr -> pystr * pystr) (existing : by_src)
         (images tags : list pystr) (loc : pystr)
         (merged : list value) (existing' : by_src),
    merge_loop (sorted (map fst (build_desired extract images tags loc)))
               existing (build_desired extract images tags loc) []
    = Ok (merged, existing') ->
    forall src r,
      In src images ->
      by_src_get existing (KStr src) = Some r ->
      exists i r',
        nth_error (sorted (map fst (build_desired extract images tags loc))) i
        = Some src
        /\ nth_error merged i = Some r'
        /\ merged_entry src r
             (build_resource_for_image extract src tags loc) r'.
Proof.
  intros extract ex images tags loc merged ex' H src r Hsrc Hr.
  destruct (build_desired_spec extract images tags loc) as [Hnd [Hkeys Hget]].
  set (desired := build_desired extract images tags loc) in *.
  assert (Hsorted : NoDup (sorted (map fst desired))).
  { apply strongly_sorted_nodup, sorted_strict, Hnd. }
  destruct (merge_loop_spec desired _ ex [] merged ex' Hsorted H)
    as [[new [-> Hnew]] _].
  simpl. destruct (Forall2_index _ _ _ Hnew) as [_ [Hidx _]].
  assert (Hin : In src (sorted (map fst desired))).
  { apply sorted_in, Hkeys, Hsrc. }
  apply In_nth_error in Hin as [i Hi].
  destruct (Hidx i src Hi) as [r' [Hr' [d [Hd Hm]]]].
  rewrite (Hget src Hsrc) in Hd. inversion Hd; subst d.
  rewrite Hr in Hm.
  exists i, r'. split; [exact Hi |]. split; [exact Hr' |].
  apply merge_existing_spec; exact Hm.
Qed.

Lemma main_front_inv (yaml_safe_load : pystr -> result value)
  (int_of_str : pystr -> option Z) (extract : pystr -> pystr * pystr)
  (a : args) (w : world) (front' : dict) (body : pystr) :
  main_front yaml_safe_load int_of_str extract a w = Ok (front', body) ->
  exists front merged,
    load_front yaml_safe_load a w = Ok (front, body)
    /\ reconcile int_of_str extract front (list_images (files w))
         (split_commas (common_tags a)) (default_location a) = Ok merged
    /\ front' = dict_set front k_resources (VList merged).
Proof.
  unfold main_front. intros H.
  destruct (load_front yaml_safe_load a w) as [[front body0]|e] eqn:Hl;
    simpl in H; [| discriminate].
  destruct (reconcile _ _ front _ _ _) as [merged|e] eqn:Hr; simpl in H;
    [| discriminate].
  inversion H; subst. exists front, merged. auto.
Qed.

Lemma list_images_in (fs : list pystr) (n : pystr) :
  In n (list_images fs) <-> In n fs /\ is_image n = true.
Proof. unfold list_images. rewrite sorted_in, filter_In. reflexivity. Qed.

(** The [src] fields of the final list are the sorted keys of the merge. *)
Lemma reconcile_srcs (int_of_str : pystr -> option Z)
  (extract : pystr -> pystr * pystr) (front : dict)
  (images tags : list pystr) (loc : pystr) (final : list value) :
  reconcile int_of_str extract front images tags loc = Ok final ->
  exists names,
    map (fun r => field r k_src) final = map (fun n => Some (VStr n)) names
    /\ StronglySorted lt_str names
    /\ (forall n, In n names <-> In n images).
Proof.
  intros H.
  destruct (reconcile_inv _ _ _ _ _ _ _ H)
    as [prev [merged0 [prev' [merged1 [Hp [Hm [Hu Hc]]]]]]].
  destruct (build_desired_spec extract images tags loc) as [Hnd [Hkeys _]].
  set (desired := build_desired extract images tags loc) in *.
  pose proof (sorted_strict _ Hnd) as Hs.
  destruct (merge_loop_spec desired _ prev [] merged0 prev'
              (strongly_sorted_nodup _ Hs) Hm) as [[new [-> Hnew]] _].
  simpl in *.
  destruct (Forall2_index _ _ _ Hnew) as [Hlen [_ Hidx]].
  destruct (after_merge_fields _ _ _ _ _ Hu Hc) as [Hlen2 Hfin].
  exists (sorted (map fst desired)). split; [| split; [exact Hs |]].
  - symmetry. apply map_eq_by_index; [congruence |].
    intros i name Hname.
    assert (Hi : (i < List.length new)%nat).
    { rewrite <- Hlen. apply nth_error_Some. congruence. }
    apply nth_error_Some in Hi.
    destruct (nth_error new i) as [m0|] eqn:Hm0; [| contradiction].
    destruct (Hidx i m0 Hm0) as [name' [Hn' Hfor]].
    rewrite Hname in Hn'. inversion Hn'; subst name'.
    destruct (Hfin i m0 Hm0) as [n [Hn Hf]].
    exists n. split; [exact Hn |].
    destruct fill_keys_distinct as [_ [_ [_ [_ [_ [B _]]]]]].
    rewrite (Hf k_src B). symmetry.
    apply (merged_for_src extract _ prev images tags loc name m0 Hp);
      [| exact Hfor].
    apply Hkeys, sorted_in. apply (nth_error_In _ _ Hname).
  - intros n. rewrite sorted_in. apply Hkeys.
Qed.

(** C5.  The [src] values of the new [resources] are the names of the
    image files now in the directory, each once and in ascending order;
    no other entry, hence no entry of a file that is gone, remains. *)
Theorem resources_are_the_images :
  forall (yaml_safe_load : pystr -> result value)
         (int_of_str : pystr -> option Z)
         (extract : pystr -> pystr * pystr)
         (a : args) (w : world) (front' : dict) (body : pystr),
    main_front yaml_safe_load int_of_str extract a w = Ok (front', body) ->
    exists merged names,
      dict_get front' k_resources = Some (VList merged)
      /\ map (fun r => field r k_src) merged
         = map (fun n => Some (VStr n)) names
      /\ StronglySorted lt_str names
      /\ (forall n, In n names <-> In n (files w) /\ is_image n = true)
      /\ (forall r, In r merged ->
            exists n, field r k_src = Some (VStr n)
                      /\ In n (files w) /\ is_image n = true).
Proof.
  intros yl ios ex a w front' body H.
  destruct (main_front_inv _ _ _ _ _ _ _ H) as [front [merged [_ [Hr ->]]]].
  destruct (reconcile_srcs _ _ _ _ _ _ _ Hr) as [names [Hmap [Hs Hin]]].
  exists merged, names.
  split; [apply dict_get_set_same |]. split; [exact Hmap |].
  split; [exact Hs |].
  assert (Hnames : forall n, In n names <-> In n (files w) /\ is_image n = true).
  { intros n. rewrite Hin. apply list_images_in. }
  split; [exact Hnames |].
  intros r Hr0. apply In_nth_error in Hr0 as [i Hi].
  assert (Hm : nth_error (map (fun r => field r k_src) merged) i
               = Some (field r k_src)).
  { rewrite nth_error_map, Hi. reflexivity. }
  rewrite Hmap, nth_error_map in Hm.
  destruct (nth_error names i) as [n|] eqn:Hn; [| discriminate].
  simpl in Hm. inversion Hm as [Hsrc].
  exists n. split; [reflexivity |].
  apply Hnames. apply (nth_error_In _ _ Hn).
Qed.






Lemma weight_at_inv (rs : list value) (i : nat) (z : Z) :
  weight_at rs i = Some z ->
  exists r, nth_error rs i = Some r /\ param r k_weight = Some (VInt z).
Proof.
  unfold weight_at. destruct (nth_error rs i) as [r|]; [| discriminate].
  destruct (param r k_weight) as [[| | z'| | | | |]|] eqn:E; try discriminate.
  intros H; inversion H; subst. exists r. auto.
Qed.


(* ================================================================== *)
(** ** What the whole run keeps of a stored entry *)

Lemma stem_suffix (name : pystr) : stem name ++ suffix name = name.
Proof.
  unfold stem, suffix. destruct (dot_index name) as [i|].
  - apply firstn_skipn.
  - apply app_nil_r.
Qed.

Lemma fill_keys_not_weight_cover :
  ~ In k_weight fill_keys /\ ~ In k_cover fill_keys.
Proof. split; intros [E | [E | [E | []]]]; discriminate. Qed.


(* ================================================================== *)
(** ** The merge returns on a workable manifest *)

Lemma has_params_ok (r : value) : has_params r -> entry_ok r.
Proof. intros [d [p [-> Hp]]]. exists d. split; [reflexivity | eauto]. Qed.

Lemma build_resource_has_params (extract : pystr -> pystr * pystr)
  (name : pystr) (tags : list pystr) (loc : pystr) :
  has_params (build_resource_for_image extract name tags loc).
Proof.
  unfold build_resource_for_image, has_params.
  destruct (extract name) as [date_str loc_str].
  eexists; eexists. split; reflexivity.
Qed.

Lemma fill_if_absent_total (d r : value) (key : pystr) :
  has_params r -> has_params d ->
  exists r', fill_if_absent d r key = Ok r' /\ has_params r'.
Proof.
  intros [rd [p [-> Hp]]] [dd [dp [-> Hdp]]].
  unfold fill_if_absent. simpl. rewrite Hp, Hdp. simpl.
  assert (Hset : forall val, exists r',
            set_param (VDict rd) key val = Ok r' /\ has_params r').
  { intros val. unfold set_param. simpl. rewrite Hp. simpl.
    eexists. split; [reflexivity |].
    eexists; eexists. split; [reflexivity | apply dict_get_set_same]. }
  assert (Hsame : exists r', Ok (VDict rd) = Ok r' /\ has_params r').
  { exists (VDict rd). split; [reflexivity |]. exists rd, p. auto. }
  destruct (dict_has p key); simpl.
  - destruct (is_empty3 (get_or_none p key)); [| exact Hsame].
    destruct (is_empty3 (get_or_none dp key)); simpl;
      [exact Hsame | apply Hset].
  - destruct (is_empty3 (get_or_none dp key)); simpl;
      [exact Hsame | apply Hset].
Qed.

Lemma merge_existing_total (src : pystr) (r d : value) :
  entry_ok r -> has_params d ->
  exists r', merge_existing src r d = Ok r' /\ has_params r'.
Proof.
  intros [rd [-> Hp]] Hd. unfold merge_existing. simpl.
  destruct fill_keys_distinct as [_ [_ [_ [Ntp _]]]].
  assert (H2 : has_params
            (VDict (dict_setdefault (dict_set rd k_title (VStr (stem src)))
                      k_params (VDict [])))).
  { destruct Hp as [Hp | [p Hp]]; eexists; eexists;
      (split; [reflexivity |]);
      rewrite dict_get_setdefault_same,
        (dict_get_set_other _ _ _ _ (not_eq_sym Ntp)), Hp; reflexivity. }
  destruct (fill_if_absent_total d _ k_date H2 Hd) as [r3 [-> H3]]. simpl.
  destruct (fill_if_absent_total d _ k_location H3 Hd) as [r4 [-> H4]]. simpl.
  apply (fill_if_absent_total d _ k_tags H4 Hd).
Qed.

Lemma by_src_get_forall (P : value -> Prop) (m : by_src) (k : pykey)
  (r : value) :
  Forall (fun kv => P (snd kv)) m -> by_src_get m k = Some r -> P r.
Proof.
  intros Hall Hget. apply (assoc_get_in _ _ _ key_eqb_eq) in Hget.
  rewrite Forall_forall in Hall. apply (Hall (k, r) Hget).
Qed.

Lemma by_src_set_forall (P : value -> Prop) (m : by_src) (k : pykey)
  (v : value) :
  Forall (fun kv => P (snd kv)) m -> P v ->
  Forall (fun kv => P (snd kv)) (by_src_set m k v).
Proof.
  intros Hall Hv. rewrite Forall_forall in *. intros [k0 v0] Hin.
  apply by_src_set_in in Hin as [Hin | [_ ->]]; [apply (Hall _ Hin) | exact Hv].
Qed.

Lemma merge_loop_total (extract : pystr -> pystr * pystr)
  (images tags : list pystr) (loc : pystr) (keys : list pystr) :
  forall (existing : by_src) (acc : list value),
    (forall k, In k keys -> In k images) ->
    Forall (fun kv => entry_ok (snd kv)) existing ->
    Forall entry_ok acc ->
    exists merged existing',
      merge_loop keys existing (build_desired extract images tags loc) acc
      = Ok (merged, existing')
      /\ Forall entry_ok merged
      /\ Forall (fun kv => entry_ok (snd kv)) existing'.
Proof.
  destruct (build_desired_spec extract images tags loc) as [_ [_ Hget]].
  induction keys as [|src keys IH]; intros ex acc Hkeys Hex Hacc; simpl.
  - exists acc, ex. auto.
  - assert (Hsrc : In src images) by (apply Hkeys; left; reflexivity).
    assert (Hrest : forall k, In k keys -> In k images)
      by (intros k Hk; apply Hkeys; right; exact Hk).
    rewrite (Hget src Hsrc). simpl.
    pose proof (build_resource_has_params extract src tags loc) as Hd.
    destruct (by_src_get ex (KStr src)) as [r|] eqn:Hr.
    + pose proof (by_src_get_forall entry_ok ex _ r Hex Hr) as Hok.
      destruct (merge_existing_total src r _ Hok Hd) as [r' [-> Hr']]. simpl.
      apply IH; [exact Hrest | |].
      * apply by_src_set_forall; [exact Hex | apply has_params_ok, Hr'].
      * apply Forall_app. split; [exact Hacc |].
        constructor; [apply has_params_ok, Hr' | constructor].
    + apply IH; [exact Hrest | exact Hex |].
      apply Forall_app. split; [exact Hacc |].
      constructor; [apply has_params_ok, Hd | constructor].
Qed.

Lemma resources_to_dict_onto_total (raw : list value) :
  forall (acc : by_src),
    manifest_ok raw ->
    Forall (fun kv => entry_ok (snd kv)) acc ->
    exists prev, resources_to_dict_onto acc raw = Ok prev
                 /\ Forall (fun kv => entry_ok (snd kv)) prev.
Proof.
  induction raw as [|r raw IH]; intros acc Hraw Hacc; simpl.
  - exists acc. auto.
  - inversion Hraw as [|? ? [Hok Hkey] Hraw']; subst.
    destruct Hok as [d [-> Hp]]. simpl in Hkey.
    destruct (truthy (get_or_none d k_src)); [| contradiction].
    destruct (to_key (get_or_none d k_src)) as [k|]; [| contradiction].
    apply IH; [exact Hraw' |].
    apply by_src_set_forall; [exact Hacc |]. exists d. auto.
Qed.

Lemma same_key_weight_finite (a b : by_src) :
  Forall2 same_key_weight a b ->
  Forall (fun kv => weight_overflows (snd kv) = false) a ->
  Forall (fun kv => weight_overflows (snd kv) = false) b.
Proof.
  induction 1 as [|x y a b [_ Hw] _ IH]; intros Ha; [constructor |].
  inversion Ha as [|? ? Hx Ha']; subst.
  constructor; [| apply IH; exact Ha'].
  unfold weight_overflows in *. rewrite Hw. exact Hx.
Qed.

Lemma same_key_weight_finite_back (a b : by_src) :
  Forall2 same_key_weight a b ->
  Forall (fun kv => weight_overflows (snd kv) = false) b ->
  Forall (fun kv => weight_overflows (snd kv) = false) a.
Proof.
  induction 1 as [|x y a b [_ Hw] _ IH]; intros Hb; [constructor |].
  inversion Hb as [|? ? Hy Hb']; subst.
  constructor; [| apply IH; exact Hb'].
  unfold weight_overflows in *. rewrite <- Hw. exact Hy.
Qed.

Lemma resources_to_dict_finite (raw : list value) (prev : by_src) :
  resources_to_dict raw = Ok prev ->
  Forall (fun r => weight_overflows r = false) raw ->
  Forall (fun kv => weight_overflows (snd kv) = false) prev.
Proof.
  intros Hp Hraw. rewrite Forall_forall. intros [k e] Hin.
  destruct (resources_to_dict_onto_keyed raw [] prev Hp k e Hin)
    as [[] | [He _]].
  rewrite Forall_forall in Hraw. apply (Hraw e He).
Qed.

(** On a workable manifest without an infinite float as weight the merge,
    the weights and the cover all return: [reconcile] produces a list. *)
Lemma reconcile_total (int_of_str : pystr -> option Z)
  (extract : pystr -> pystr * pystr) (front : dict)
  (images tags : list pystr) (loc : pystr) :
  manifest_ok (resources_of front) ->
  Forall (fun r => weight_overflows r = false) (resources_of front) ->
  exists final,
    reconcile int_of_str extract front images tags loc = Ok final.
Proof.
  intros Hok Hraw. unfold reconcile.
  assert (Hprev : match match dict_get front k_resources with
                        | Some v => v
                        | None => VList []
                        end with
                  | VList l => resources_to_dict l
                  | _ => Ok []
                  end
                  = resources_to_dict (resources_of front)).
  { unfold resources_of.
    destruct (dict_get front k_resources) as [[| | | | | | |]|]; reflexivity. }
  rewrite Hprev. clear Hprev.
  destruct (resources_to_dict_onto_total _ [] Hok (Forall_nil _))
    as [prev [Hp Hprev]].
  pose proof (resources_to_dict_finite _ _ Hp Hraw) as Hfin.
  unfold resources_to_dict. rewrite Hp. simpl.
  destruct (build_desired_spec extract images tags loc) as [Hnd [Hkeys _]].
  destruct (merge_loop_total extract images tags loc
              (sorted (map fst (build_desired extract images tags loc)))
              prev [])
    as [merged0 [prev' [Hm [Hmerged Hprev']]]];
    [intros k Hk; apply Hkeys, sorted_in, Hk | exact Hprev | constructor |].
  destruct (merge_loop_spec _ _ _ _ _ _
              (strongly_sorted_nodup _ (sorted_strict _ Hnd)) Hm)
    as [_ Hrel].
  pose proof (same_key_weight_finite _ _ Hrel Hfin) as Hfin'.
  rewrite Hm. simpl.
  destruct (update_weights_total int_of_str merged0 prev' Hmerged Hprev'
              Hfin')
    as [merged1 Hu].
  rewrite Hu. simpl.
  apply ensure_cover_total.
  destruct (update_weights_entries _ _ _ _ Hu) as [ws [_ [Hlen Hent]]].
  rewrite Forall_forall. intros m1 Hin.
  apply In_nth_error in Hin as [i Hi].
  assert (Hlt : (i < List.length merged0)%nat).
  { rewrite <- Hlen. apply nth_error_Some. congruence. }
  apply nth_error_Some in Hlt.
  destruct (nth_error merged0 i) as [m0|] eqn:Hm0; [| contradiction].
  destruct (Hent i m0 Hm0) as [m1' [Hm1' [Ha Hb]]].
  rewrite Hi in Hm1'. inversion Hm1'; subst m1'. clear Hm1'.
  assert (Hok0 : entry_ok m0).
  { rewrite Forall_forall in Hmerged. apply Hmerged.
    apply (nth_error_In _ _ Hm0). }
  destruct (weight_missing m0) eqn:E; [| rewrite (Hb eq_refl); exact Hok0].
  destruct (Ha eq_refl) as [Hw _].
  apply weight_at_inv in Hw as [m1' [Hm1' Hparam]].
  rewrite Hi in Hm1'. inversion Hm1'; subst m1'.
  unfold param, params_of, field in Hparam.
  destruct m1 as [| | | | | | |d1]; try discriminate.
  destruct (dict_get d1 k_params) as [[| | | | | | |p1]|] eqn:Hp1;
    try discriminate.
  exists d1. split; [reflexivity | eauto].
Qed.

(* ================================================================== *)
(** ** A manifest without a closing delimiter *)

Lemma lstrip_in (s : pystr) (c : N) : In c (lstrip s) -> In c s.
Proof.
  destruct (lstrip_suffix s) as [p [Hp _]]. intros H. rewrite Hp.
  apply in_or_app. right. exact H.
Qed.

Lemma strip_in (s : pystr) (c : N) : In c (strip s) -> In c s.
Proof.
  unfold strip, rstrip. intros H.
  apply in_rev in H. apply lstrip_in in H. apply in_rev in H.
  apply lstrip_in in H. exact H.
Qed.

Lemma splitlines_from_in (n : nat) :
  forall (s cur l : pystr) (c : N),
    (List.length s <= n)%nat ->
    In l (splitlines_from cur s) -> In c l -> In c cur \/ In c s.
Proof.
  induction n as [|n IH]; intros s cur l c Hlen Hl Hc.
  - destruct s; [| simpl in Hlen; lia]. simpl in Hl.
    destruct cur as [|x cur]; [destruct Hl |].
    destruct Hl as [<- | []]. left. apply in_rev. exact Hc.
  - destruct s as [|x s].
    + simpl in Hl. destruct cur as [|y cur]; [destruct Hl |].
      destruct Hl as [<- | []]. left. apply in_rev. exact Hc.
    + simpl in Hl, Hlen. destruct (is_linebreak x).
      * destruct Hl as [<- | Hl]; [left; apply in_rev; exact Hc |].
        right. right.
        destruct s as [|d s']; [destruct Hl |].
        destruct ((x =? 13) && (d =? 10))%N.
        -- destruct (IH s' [] l c ltac:(simpl in Hlen; lia) Hl Hc)
             as [[] | H]. right. exact H.
        -- destruct (IH (d :: s') [] l c ltac:(simpl in *; lia) Hl Hc)
             as [[] | H]. exact H.
      * destruct (IH s (x :: cur) l c ltac:(lia) Hl Hc) as [[<- | H] | H].
        -- right. left. reflexivity.
        -- left. exact H.
        -- right. right. exact H.
Qed.

Lemma begins_with_delimiter_visible (text : pystr) :
  begins_with_delimiter text -> has_visible_char text.
Proof.
  unfold begins_with_delimiter.
  destruct (splitlines text) as [|l0 ls] eqn:Hl; [intros [] |].
  intros Hd. apply pystr_eqb_eq in Hd.
  assert (Hc : In 45%N l0).
  { apply strip_in. rewrite Hd. left. reflexivity. }
  exists 45%N. split; [| reflexivity].
  destruct (splitlines_from_in (List.length text) text [] l0 45%N
              (le_n _)) as [[] | H]; [| exact Hc | exact H].
  unfold splitlines in Hl. rewrite Hl. left. reflexivity.
Qed.

(** X12.  A manifest that opens a header and never closes it is written
    back whole, after a fresh header that has the key [resources] and no
    other. *)
Lemma malformed_manifest_kept (yaml_safe_load : pystr -> result value)
  (yaml_dump : value -> pystr) (int_of_str : pystr -> option Z)
  (extract : pystr -> pystr * pystr) (a : args) (w : world) (text : pystr) :
  index_md w = Some text ->
  begins_with_delimiter text ->
  ~ has_closing_delimiter text ->
  exists merged,
    main_text yaml_safe_load yaml_dump int_of_str extract a w
    = Ok (join_front_matter yaml_dump (VDict [(k_resources, VList merged)])
            ++ text).
Proof.
  intros Hidx Hb Hc.
  unfold main_text, main_front, load_front. rewrite Hidx.
  rewrite split_front_matter_plain by (intros [_ H]; exact (Hc H)). simpl.
  destruct (reconcile_total int_of_str extract [] (list_images (files w))
              (split_commas (common_tags a)) (default_location a))
    as [merged Hr]; [constructor | constructor |].
  rewrite Hr. simpl. exists merged. f_equal.
  unfold compose.
  destruct (strip text) as [|c s] eqn:Hs.
  - exfalso. apply strip_nil_iff in Hs.
    apply (proj2 (not_all_space_visible text)
             (begins_with_delimiter_visible text Hb)). exact Hs.
  - rewrite join_front_matter_endswith_nl. reflexivity.
Qed.

(* ================================================================== *)
(** ** The merge of a list that a run has produced *)

Lemma assoc_set_same {K V : Type} (keqb : K -> K -> bool)
  (m : list (K * V)) (k : K) (v : V) :
  (forall a b, keqb a b = true <-> a = b) ->
  assoc_get keqb m k = Some v -> assoc_set keqb m k v = m.
Proof.
  intros Heq. induction m as [|[k' v'] m IH]; simpl; [discriminate |].
  destruct (keqb k k') eqn:E.
  - intros H; inversion H; reflexivity.
  - intros H. rewrite (IH H). reflexivity.
Qed.

Lemma weight_present_has_params (r : value) :
  weight_missing r = false -> has_params r.
Proof.
  unfold weight_missing, param, params_of, field, has_params.
  destruct r as [| | | | | | |d]; try discriminate.
  destruct (dict_get d k_params) as [[| | | | | | |p]|] eqn:Hp;
    try discriminate.
  intros _. exists d, p. auto.
Qed.

Lemma fill_if_absent_noop (d r : value) (key : pystr) :
  has_params r -> has_params d ->
  (blank (param r key) = true -> blank (param d key) = true) ->
  fill_if_absent d r key = Ok r.
Proof.
  intros [rd [p [-> Hp]]] [dd [dp [-> Hdp]]] Hblank.
  unfold param, params_of, field in Hblank. rewrite Hp, Hdp in Hblank.
  unfold fill_if_absent. simpl. rewrite Hp, Hdp. simpl.
  unfold dict_has, assoc_has. fold (dict_get p key).
  unfold get_or_none.
  destruct (dict_get p key) as [v|] eqn:Ev; simpl in *.
  - destruct (is_empty3 v); [| reflexivity].
    specialize (Hblank eq_refl).
    destruct (dict_get dp key) as [dv|]; simpl in *;
      [rewrite Hblank |]; reflexivity.
  - specialize (Hblank eq_refl).
    destruct (dict_get dp key) as [dv|]; simpl in *;
      [rewrite Hblank |]; reflexivity.
Qed.

Lemma merge_existing_noop (src : pystr) (d n : value) :
  has_params d -> settled src d n -> merge_existing src n d = Ok n.
Proof.
  intros Hd [_ [Ht [Hw Hfill]]].
  pose proof (weight_present_has_params n Hw) as Hn.
  destruct Hn as [nd [p [-> Hp]]].
  unfold merge_existing. simpl. simpl in Ht.
  unfold dict_set. rewrite (assoc_set_same _ _ _ _ pystr_eqb_eq Ht).
  unfold dict_setdefault, assoc_setdefault, assoc_has.
  unfold dict_get in Hp. rewrite Hp. simpl.
  assert (Hhas : has_params (VDict nd)) by (exists nd, p; auto).
  rewrite (fill_if_absent_noop d _ k_date Hhas Hd); simpl;
    [| apply Hfill; simpl; auto].
  rewrite (fill_if_absent_noop d _ k_location Hhas Hd); simpl;
    [| apply Hfill; simpl; auto].
  apply (fill_if_absent_noop d _ k_tags Hhas Hd).
  apply Hfill; simpl; auto.
Qed.

Lemma build_resource_title (extract : pystr -> pystr * pystr)
  (name : pystr) (tags : list pystr) (loc : pystr) :
  field (build_resource_for_image extract name tags loc) k_title
  = Some (VStr (stem name)).
Proof.
  unfold build_resource_for_image.
  destruct (extract name) as [date_str loc_str]. reflexivity.
Qed.

Lemma Forall2_of_index {A B : Type} (R : A -> B -> Prop) (l1 : list A) :
  forall (l2 : list B),
    List.length l1 = List.length l2 ->
    (forall i a, nth_error l1 i = Some a ->
       exists b, nth_error l2 i = Some b /\ R a b) ->
    Forall2 R l1 l2.
Proof.
  induction l1 as [|a l1 IH]; intros [|b l2] Hlen H; simpl in Hlen;
    try discriminate; constructor.
  - destruct (H 0%nat a eq_refl) as [b' [Hb HR]]. simpl in Hb.
    inversion Hb; subst. exact HR.
  - apply IH; [congruence |]. intros i x Hx. apply (H (S i) x Hx).
Qed.

(** Every entry of the list that [reconcile] returns is settled. *)
Lemma reconcile_settled (int_of_str : pystr -> option Z)
  (extract : pystr -> pystr * pystr) (front : dict)
  (images tags : list pystr) (loc : pystr) (final : list value) :
  reconcile int_of_str extract front images tags loc = Ok final ->
  Forall2 (fun name n =>
             settled name (build_resource_for_image extract name tags loc) n)
          (sorted (map fst (build_desired extract images tags loc))) final
  /\ (final = [] \/ existsb cover_is_true final = true).
Proof.
  intros H.
  destruct (reconcile_inv _ _ _ _ _ _ _ H)
    as [prev [merged0 [prev' [merged1 [Hp [Hm [Hu Hc]]]]]]].
  destruct (build_desired_spec extract images tags loc) as [Hnd [Hkeys Hget]].
  set (desired := build_desired extract images tags loc) in *.
  pose proof (sorted_strict _ Hnd) as Hs.
  destruct (merge_loop_spec desired _ prev [] merged0 prev'
              (strongly_sorted_nodup _ Hs) Hm) as [[new [-> Hnew]] _].
  simpl in *.
  destruct (update_weights_entries _ _ _ _ Hu) as [ws [_ [Hlen1 Hent]]].
  destruct (ensure_cover_entries _ _ Hc) as [Hlen2 Hcov].
  destruct (Forall2_index _ _ _ Hnew) as [Hlen0 [Hidx _]].
  destruct fill_keys_distinct
    as [_ [_ [_ [Ntp [_ [Nsp [Nwd [Nwl [Nwt Hwc]]]]]]]]].
  destruct fill_keys_not_weight_cover as [Nw Nc].
  split.
  - apply Forall2_of_index; [congruence |].
  intros i name Hname.
    assert (Hin : In name images).
    { apply Hkeys, sorted_in. apply (nth_error_In _ _ Hname). }
    destruct (Hidx i name Hname) as [m0 [Hm0 Hfor]].
    pose proof (merged_for_src extract _ prev images tags loc name m0
                  Hp Hin Hfor) as Hsrc0.
    destruct (Hent i m0 Hm0) as [m1 [Hm1 [Ha Hb]]].
    destruct (Hcov i m1 Hm1) as [n [Hn [Hf2 Hp2]]].
    assert (H1f : forall k, k <> k_params -> field m1 k = field m0 k).
    { intros k Hk. destruct (weight_missing m0) eqn:E.
      - destruct (Ha eq_refl) as [_ [_ Hfield]]. apply Hfield, Hk.
      - rewrite (Hb eq_refl). reflexivity. }
    assert (H1p : forall k, k <> k_weight -> param m1 k = param m0 k).
    { intros k Hk. destruct (weight_missing m0) eqn:E.
      - destruct (Ha eq_refl) as [_ [Hparam _]]. apply Hparam, Hk.
      - rewrite (Hb eq_refl). reflexivity. }
    assert (H1w : weight_missing m1 = false).
    { destruct (weight_missing m0) eqn:E.
      - destruct (Ha eq_refl) as [Hw _].
        apply weight_at_inv in Hw as [m1' [Hm1' Hparam]].
        rewrite Hm1 in Hm1'. inversion Hm1'; subst m1'.
        unfold weight_missing. rewrite Hparam. reflexivity.
      - rewrite (Hb eq_refl). exact E. }
    destruct Hfor as [d [Hd Hcase]].
    rewrite (Hget name Hin) in Hd. inversion Hd; subst d. clear Hd.
    exists n. split; [exact Hn |]. unfold settled.
    split; [rewrite (Hf2 _ Nsp), (H1f _ Nsp); exact Hsrc0 |].
    split.
    { rewrite (Hf2 _ Ntp), (H1f _ Ntp).
      destruct (by_src_get prev (KStr name)) as [r|].
      - apply merge_existing_spec in Hcase as [Ht _]. exact Ht.
      - subst m0. apply build_resource_title. }
    split.
    { unfold weight_missing. rewrite (Hp2 _ Hwc). exact H1w. }
    intros key Hkey.
    assert (Hkw : key <> k_weight) by (intros ->; exact (Nw Hkey)).
    assert (Hkc : key <> k_cover) by (intros ->; exact (Nc Hkey)).
    rewrite (Hp2 key Hkc), (H1p key Hkw).
    destruct (by_src_get prev (KStr name)) as [r|].
    + apply merge_existing_spec in Hcase as [_ [_ [Hfill _]]].
      destruct (Hfill key Hkey) as [Hf1 [Hf2' Hf3]].
      intros Hbl.
      destruct (blank (param
                 (build_resource_for_image extract name tags loc) key))
        eqn:Ed; [reflexivity |].
      destruct (blank (param r key)) eqn:Er.
      * rewrite (Hf1 eq_refl eq_refl), Ed in Hbl. discriminate.
      * rewrite (Hf2' eq_refl), Er in Hbl. discriminate.
    + subst m0. auto.
  - destruct (ensure_cover_inv _ _ Hc)
      as [[-> Hcase] | [_ [r0 [rest [r1 [r2 [_ [-> [_ H2]]]]]]]]].
    + exact Hcase.
    + right. simpl. unfold cover_is_true at 1.
      rewrite (set_param_same _ _ _ _ H2). reflexivity.
Qed.

Lemma by_src_get_of_in (m : by_src) (k : pykey) (v : value) :
  NoDup (map fst m) -> In (k, v) m -> by_src_get m k = Some v.
Proof.
  unfold by_src_get. induction m as [|[k' v'] m IH]; simpl; [intros _ [] |].
  intros Hnd [H | H].
  - inversion H; subst. rewrite (keqb_refl _ _ key_eqb_eq). reflexivity.
  - inversion Hnd as [|? ? Hnotin Hnd']; subst.
    destruct (key_eqb k k') eqn:E.
    + apply key_eqb_eq in E; subst k'. exfalso. apply Hnotin.
      apply (in_map fst) in H. exact H.
    + apply IH; assumption.
Qed.

Lemma nodup_map_kstr (names : list pystr) :
  NoDup names -> NoDup (map KStr names).
Proof.
  induction 1 as [|x l Hx _ IH]; simpl; constructor; [| exact IH].
  intros Hin. apply in_map_iff in Hin as [y [E Hy]].
  inversion E; subst. contradiction.
Qed.

Lemma settled_entry_key (src : pystr) (d n : value) :
  src <> [] -> settled src d n -> entry_key n = Some (KStr src).
Proof.
  intros Hne [Hsrc [_ [Hw _]]].
  destruct (weight_present_has_params n Hw) as [nd [p [-> _]]].
  simpl in *. unfold get_or_none. rewrite Hsrc.
  destruct src; [contradiction | reflexivity].
Qed.

Lemma settled_keys (extract : pystr -> pystr * pystr)
  (tags : list pystr) (loc : pystr) (names : list pystr)
  (final : list value) :
  Forall (fun name => name <> []) names ->
  Forall2 (fun name n =>
             settled name (build_resource_for_image extract name tags loc) n)
          names final ->
  keys_of final = map KStr names.
Proof.
  intros Hne H. induction H as [|name n names final Hs _ IH]; simpl;
    [reflexivity |].
  inversion Hne; subst.
  rewrite (settled_entry_key _ _ _ H1 Hs), IH by assumption. reflexivity.
Qed.

Lemma merge_loop_noop (prev : by_src) (desired : dict)
  (build : pystr -> value) (names : list pystr) (ns : list value) :
  Forall2 (fun name n =>
             by_src_get prev (KStr name) = Some n
             /\ dict_get desired name = Some (build name)
             /\ merge_existing name n (build name) = Ok n)
          names ns ->
  forall acc, merge_loop names prev desired acc = Ok (acc ++ ns, prev).
Proof.
  induction 1 as [|name n names ns [Hget [Hd Hm]] _ IH]; intros acc; simpl.
  - rewrite app_nil_r. reflexivity.
  - rewrite Hd. simpl. rewrite Hget, Hm. simpl.
    unfold by_src_set.
    rewrite (assoc_set_same _ _ _ _ key_eqb_eq Hget).
    rewrite IH, <- app_assoc. reflexivity.
Qed.

(** When the first loop returns, no previous weight is an infinite
    float. *)
Lemma collect_weights_finite (int_of_str : pystr -> option Z)
  (previous : by_src) :
  forall (acc ws : list (pykey * Z)),
    collect_weights int_of_str acc previous = Ok ws ->
    Forall (fun kv => weight_overflows (snd kv) = false) previous.
Proof.
  induction previous as [|[k r] prev IH]; intros acc ws H; simpl in H;
    [constructor |].
  destruct r as [| | | | | | |d]; simpl in H; try discriminate.
  destruct (dict_get d k_params) as [pv|] eqn:Hpv.
  - destruct pv as [| | | | | | |p]; simpl in H; try discriminate.
    assert (Hhead : weight_overflows (VDict d) = false).
    { unfold weight_overflows, param, params_of. simpl. rewrite Hpv.
      unfold get_or_none in H.
      destruct (dict_get p k_weight) as [[| | |[m e|negative|obj]| | | |]|];
        try reflexivity.
      simpl in H. discriminate. }
    constructor; [exact Hhead |].
    destruct (py_int int_of_str (get_or_none p k_weight)) as [z|ex];
      [apply (IH _ _ H) | apply caught_continue in H; apply (IH _ _ H)].
  - simpl in H. constructor; [| apply (IH _ _ H)].
    unfold weight_overflows, param, params_of. simpl. rewrite Hpv.
    reflexivity.
Qed.

(** The list a run leaves has no infinite float as weight. *)
Lemma reconcile_finite (int_of_str : pystr -> option Z)
  (extract : pystr -> pystr * pystr) (front : dict)
  (images tags : list pystr) (loc : pystr) (final : list value) :
  reconcile int_of_str extract front images tags loc = Ok final ->
  Forall (fun n => weight_overflows n = false) final.
Proof.
  intros H.
  destruct (reconcile_inv _ _ _ _ _ _ _ H)
    as [prev [merged0 [prev' [merged1 [Hp [Hm [Hu Hc]]]]]]].
  destruct (build_desired_spec extract images tags loc) as [Hnd [Hkeys Hget]].
  set (desired := build_desired extract images tags loc) in *.
  pose proof (sorted_strict _ Hnd) as Hs.
  destruct (merge_loop_spec desired _ prev [] merged0 prev'
              (strongly_sorted_nodup _ Hs) Hm) as [[new [-> Hnew]] Hrel].
  simpl in *.
  assert (Hfin : Forall (fun kv => weight_overflows (snd kv) = false) prev).
  { apply (same_key_weight_finite_back _ _ Hrel).
    unfold update_weights_preserve_existing in Hu.
    destruct (collect_weights int_of_str [] prev') as [ws|e] eqn:Hcol;
      simpl in Hu; [| discriminate].
    apply (collect_weights_finite int_of_str prev' [] ws Hcol). }
  destruct (update_weights_entries _ _ _ _ Hu) as [ws [_ [Hlen1 Hent]]].
  destruct (ensure_cover_entries _ _ Hc) as [Hlen2 Hcov].
  destruct (Forall2_index _ _ _ Hnew) as [Hlen0 [_ Hidx']].
  destruct fill_keys_distinct as [_ [_ [_ [_ [_ [_ [_ [_ [_ Hwc]]]]]]]]].
  rewrite Forall_forall. intros n Hin.
  apply In_nth_error in Hin as [i Hi].
  assert (Hlt : (i < List.length new)%nat).
  { rewrite <- Hlen1, <- Hlen2. apply nth_error_Some. congruence. }
  apply nth_error_Some in Hlt.
  destruct (nth_error new i) as [m0|] eqn:Hm0; [| contradiction].
  destruct (Hent i m0 Hm0) as [m1 [Hm1 [Ha Hb]]].
  destruct (Hcov i m1 Hm1) as [n' [Hn' [_ Hp2]]].
  rewrite Hi in Hn'. inversion Hn'; subst n'. clear Hn'.
  unfold weight_overflows. rewrite (Hp2 k_weight Hwc).
  destruct (weight_missing m0) eqn:E.
  - destruct (Ha eq_refl) as [Hw _].
    apply weight_at_inv in Hw as [m1' [Hm1' Hparam]].
    rewrite Hm1 in Hm1'. inversion Hm1'; subst m1'.
    rewrite Hparam. reflexivity.
  - rewrite (Hb eq_refl).
    destruct (Hidx' i m0 Hm0) as [src [Hsrc [d [Hd Hmerge]]]].
    destruct (by_src_get prev (KStr src)) as [r|] eqn:Hr.
    + rewrite (merge_existing_weight _ _ _ _ Hmerge).
      apply (by_src_get_forall (fun e => weight_overflows e = false)
               prev (KStr src) r Hfin Hr).
    + subst m0. exfalso.
      assert (Hin : In src images)
        by (apply Hkeys, sorted_in, (nth_error_In _ _ Hsrc)).
      pose proof (Hget src Hin) as Hd'.
      rewrite Hd in Hd'. inversion Hd'; subst d.
      unfold weight_missing in E.
      destruct (build_resource_fields extract src tags loc) as [_ [Hw _]].
      rewrite Hw in E. discriminate.
Qed.

Lemma default_params_noop (rs : list value) :
  Forall has_params rs -> default_params rs = Ok rs.
Proof.
  induction 1 as [|r rs [d [p [-> Hp]]] _ IH]; simpl; [reflexivity |].
  unfold dict_setdefault, assoc_setdefault, assoc_has.
  unfold dict_get in Hp. rewrite Hp, IH. reflexivity.
Qed.

Lemma lacks_weight_total (r : value) :
  has_params r -> lacks_weight r = Ok (weight_missing r).
Proof.
  intros [d [p [-> Hp]]].
  unfold lacks_weight, weight_missing, param, params_of. simpl.
  rewrite Hp. simpl. unfold dict_has, assoc_has.
  fold (dict_get p k_weight).
  destruct (dict_get p k_weight) as [w|]; simpl; [| reflexivity].
  destruct w as [| | | |[|]| | |]; reflexivity.
Qed.

Lemma assign_weights_noop (rs : list value) :
  Forall (fun r => weight_missing r = false) rs ->
  forall n, assign_weights n rs = Ok rs.
Proof.
  induction 1 as [|r rs Hw _ IH]; intros n; simpl; [reflexivity |].
  rewrite (lacks_weight_total r (weight_present_has_params r Hw)), Hw.
  simpl. rewrite IH. reflexivity.
Qed.

Lemma any_cover_total (rs : list value) :
  Forall has_params rs -> any_cover rs = Ok (existsb cover_is_true rs).
Proof.
  induction 1 as [|r rs [d [p [-> Hp]]] _ IH]; simpl; [reflexivity |].
  unfold has_cover, cover_is_true, param, params_of. simpl.
  unfold get_or_none at 1. rewrite Hp. simpl. unfold get_or_none.
  destruct (dict_get p k_cover) as [[| [|] | | | | | |]|]; simpl;
    try exact IH; reflexivity.
Qed.

Lemma ensure_cover_noop (rs : list value) :
  Forall has_params rs ->
  rs = [] \/ existsb cover_is_true rs = true ->
  ensure_cover rs = Ok rs.
Proof.
  intros Hok Hcase. unfold ensure_cover.
  rewrite (any_cover_total rs Hok). simpl.
  destruct rs as [|r0 rest]; [reflexivity |].
  destruct Hcase as [Hnil | ->]; [discriminate | reflexivity].
Qed.

(** The list that a run returns is a fixed point of the merge: with the
    same images it comes back as it is. *)
Lemma reconcile_again (int_of_str : pystr -> option Z)
  (extract : pystr -> pystr * pystr) (front : dict)
  (images tags : list pystr) (loc : pystr) (final : list value) :
  Forall (fun name => name <> []) images ->
  reconcile int_of_str extract front images tags loc = Ok final ->
  reconcile int_of_str extract (dict_set front k_resources (VList final))
            images tags loc = Ok final.
Proof.
  intros Hne H.
  destruct (reconcile_settled _ _ _ _ _ _ _ H) as [Hset Hcover].
  destruct (build_desired_spec extract images tags loc) as [Hnd [Hkeys Hget]].
  set (desired := build_desired extract images tags loc) in *.
  set (names := sorted (map fst desired)) in *.
  pose proof (sorted_strict _ Hnd) as Hs. fold names in Hs.
  assert (Hnames : forall name, In name names -> In name images).
  { intros name Hin. apply Hkeys, sorted_in, Hin. }
  assert (Hne' : Forall (fun name => name <> []) names).
  { rewrite Forall_forall in *. intros name Hin. apply Hne, Hnames, Hin. }
  destruct (Forall2_index _ _ _ Hset) as [Hlen [Hidx Hidx']].
  assert (Hparams : Forall has_params final).
  { rewrite Forall_forall. intros n Hin.
    apply In_nth_error in Hin as [i Hi].
    destruct (Hidx' i n Hi) as [name [_ [_ [_ [Hw _]]]]].
    apply weight_present_has_params, Hw. }
  assert (Hweights : Forall (fun r => weight_missing r = false) final).
  { rewrite Forall_forall. intros n Hin.
    apply In_nth_error in Hin as [i Hi].
    destruct (Hidx' i n Hi) as [name [_ [_ [_ [Hw _]]]]]. exact Hw. }
  assert (Hkeysof : keys_of final = map KStr names)
    by (apply (settled_keys extract tags loc); assumption).
  assert (Huniq : NoDup (keys_of final)).
  { rewrite Hkeysof. apply nodup_map_kstr, strongly_sorted_nodup, Hs. }
  assert (Hmanifest : manifest_ok final).
  { unfold manifest_ok. rewrite Forall_forall. intros n Hin.
    rewrite Forall_forall in Hparams. split; [apply has_params_ok, Hparams, Hin |].
    apply In_nth_error in Hin as [i Hi].
    destruct (Hidx' i n Hi) as [name [Hname Hsn]].
    assert (Hname_ne : name <> []).
    { rewrite Forall_forall in Hne'. apply Hne'.
      apply (nth_error_In _ _ Hname). }
    rewrite (settled_entry_key name _ n Hname_ne Hsn). discriminate. }
  destruct (resources_to_dict_onto_total final [] Hmanifest (Forall_nil _))
    as [prev [Hp Hprev]].
  pose proof (resources_to_dict_finite final prev Hp
                (reconcile_finite _ _ _ _ _ _ _ H)) as Hfin.
  pose proof (resources_to_dict_onto_unique final [] prev Huniq Hp) as Hpairs.
  simpl in Hpairs.
  unfold reconcile. rewrite dict_get_set_same.
  unfold resources_to_dict. rewrite Hp. simpl.
  fold desired. fold names.
  assert (Hloop : Forall2 (fun name n =>
             by_src_get prev (KStr name) = Some n
             /\ dict_get desired name
                = Some (build_resource_for_image extract name tags loc)
             /\ merge_existing name n
                  (build_resource_for_image extract name tags loc) = Ok n)
          names final).
  { apply Forall2_of_index; [exact Hlen |].
    intros i name Hname. destruct (Hidx i name Hname) as [n [Hn Hsn]].
    exists n. split; [exact Hn |].
    assert (Hin : In name names) by apply (nth_error_In _ _ Hname).
    split; [| split].
    - apply by_src_get_of_in.
      + rewrite Hpairs, keys_of_pairs_of. exact Huniq.
      + rewrite Hpairs. apply pairs_of_in.
        split; [apply (nth_error_In _ _ Hn) |].
        assert (Hname_ne : name <> []).
        { rewrite Forall_forall in Hne'. apply Hne', Hin. }
        apply (settled_entry_key name _ n Hname_ne Hsn).
    - apply Hget, Hnames, Hin.
    - apply merge_existing_noop; [apply build_resource_has_params | exact Hsn]. }
  rewrite (merge_loop_noop prev desired
             (fun name => build_resource_for_image extract name tags loc)
             names final Hloop []).
  simpl. unfold update_weights_preserve_existing.
  destruct (collect_weights_returns int_of_str prev Hprev Hfin [])
    as [ws ->].
  simpl. rewrite (default_params_noop final Hparams). simpl.
  rewrite (assign_weights_noop final Hweights). simpl.
  apply ensure_cover_noop; assumption.
Qed.

Lemma list_images_nonempty (fs : list pystr) :
  Forall (fun name => name <> []) (list_images fs).
Proof.
  rewrite Forall_forall. intros name Hin.
  apply list_images_in in Hin as [_ Himg].
  intros ->. discriminate.
Qed.

(** A second run reproduces the text of the first whenever parsing that
    text gives back the header and the body that were written. *)
Lemma second_run_same_when_read_back
  (yaml_safe_load : pystr -> result value) (yaml_dump : value -> pystr)
  (int_of_str : pystr -> option Z) (extract : pystr -> pystr * pystr)
  (a : args) (w : world) (front' : dict) (body out1 : pystr) :
  main_front yaml_safe_load int_of_str extract a w = Ok (front', body) ->
  out1 = compose (join_front_matter yaml_dump (VDict front')) body ->
  split_front_matter yaml_safe_load out1 = Ok ([], VDict front', body) ->
  main_text yaml_safe_load yaml_dump int_of_str extract a
    {| dir_name := dir_name w; today := today w; files := files w;
       index_md := Some out1 |}
  = Ok out1.
Proof.
  intros Hfront Hout Hread.
  destruct (main_front_inv _ _ _ _ _ _ _ Hfront)
    as [front [merged [_ [Hr Hf']]]].
  pose proof (reconcile_again _ _ _ _ _ _ _
                (list_images_nonempty (files w)) Hr) as Hagain.
  rewrite <- Hf' in Hagain.
  unfold main_text, main_front, load_front. simpl.
  rewrite Hread. simpl. rewrite Hagain. simpl.
  assert (Hsame : dict_set front' k_resources (VList merged) = front').
  { apply (assoc_set_same _ _ _ _ pystr_eqb_eq). subst front'.
    apply dict_get_set_same. }
  rewrite Hsame, Hout. reflexivity.
Qed.

(* ================================================================== *)
(** ** A second run *)

Lemma split_front_matter_found (yaml_safe_load : pystr -> result value)
  (text l0 : pystr) (rest : list pystr) (end_idx : nat) :
  splitlines text = l0 :: rest ->
  is_delim l0 = true ->
  find_delim 1 rest = Some end_idx ->
  split_front_matter yaml_safe_load text
  = (let* data :=
       match strip (join nl (slice 1 end_idx (l0 :: rest))) with
       | [] => Ok (VDict [])
       | _ => yaml_safe_load (join nl (slice 1 end_idx (l0 :: rest)))
       end in
     Ok ([], match data with VNone => VDict [] | _ => data end,
         join nl (slice_from (end_idx + 1) (l0 :: rest)))).
Proof.
  intros Hl Hd Hf. unfold split_front_matter. rewrite Hl, Hd.
  unfold slice_from at 1. simpl skipn. rewrite Hf. reflexivity.
Qed.

(** C2.  A second run on the output of the first does not reproduce it:
    the body loses its final line break.  The two hypotheses are what
    PyYAML does on the empty resource list. *)
Theorem second_run_changes_body :
  forall (yaml_safe_load : pystr -> result value)
         (yaml_dump : value -> pystr)
         (int_of_str : pystr -> option Z)
         (extract : pystr -> pystr * pystr),
    yaml_safe_load (str "resources: []") = Ok empty_resources ->
    yaml_dump empty_resources = str "resources: []" ++ nl ->
    let run := main yaml_safe_load yaml_dump int_of_str extract no_options in
    let text0 := manifest_text (str "hello" ++ nl ++ nl) in
    let text1 := manifest_text (str "hello" ++ nl) in
    let text2 := manifest_text (str "hello") in
    run (album text0) = Ok (album text1)
    /\ run (album text1) = Ok (album text2)
    /\ PyStr.eqb text1 text2 = false.
Proof.
  intros yl yd ios ex Hload Hdump. cbv zeta.
  assert (Hrun : forall body body',
    splitlines (manifest_text body)
    = str "---" :: str "resources: []" :: str "---" :: splitlines body ->
    join nl (splitlines body) = body' ->
    main yl yd ios ex no_options (album (manifest_text body))
    = Ok (album (compose (manifest_text []) body'))).
  { intros body body' Hlines Hbody.
    unfold main, main_text, main_front, load_front. simpl index_md.
    cbv beta iota.
    rewrite (split_front_matter_found yl _ _ _ 2 Hlines eq_refl eq_refl).
    change (join nl (slice 1 2 (str "---" :: str "resources: []" :: str "---"
                                  :: splitlines body)))
      with (str "resources: []").
    change (strip (str "resources: []")) with (str "resources: []").
    cbv beta iota. rewrite Hload.
    change (slice_from (2 + 1) (str "---" :: str "resources: []" :: str "---"
                                  :: splitlines body))
      with (splitlines body).
    rewrite Hbody. simpl.
    change (VDict [(k_resources, VList [])]) with empty_resources.
    unfold join_front_matter. rewrite Hdump. reflexivity. }
  split; [| split].
  - apply (Hrun (str "hello" ++ nl ++ nl) (str "hello" ++ nl));
      reflexivity.
  - apply (Hrun (str "hello" ++ nl) (str "hello")); reflexivity.
  - reflexivity.
Qed.

Lemma second_run_changes_body_witness :
  main yaml_load_fragment yaml_dump_fragment int_of_ascii plain_extract
       no_options (album (manifest_text (str "hello" ++ nl ++ nl)))
  = Ok (album (manifest_text (str "hello" ++ nl)))
  /\ main yaml_load_fragment yaml_dump_fragment int_of_ascii plain_extract
          no_options (album (manifest_text (str "hello" ++ nl)))
     = Ok (album (manifest_text (str "hello")))
  /\ PyStr.eqb (manifest_text (str "hello" ++ nl))
               (manifest_text (str "hello")) = false.
Proof.
  apply (second_run_changes_body yaml_load_fragment yaml_dump_fragment
           int_of_ascii plain_extract); reflexivity.
Defined.

(* ================================================================== *)
(** ** The theorems on a directory with two images *)

Lemma merge_keeps_existing_entry_witness :
  exists i r',
    nth_error (sorted (map fst desired_ab)) i = Some (str "b.jpg")
    /\ nth_error merged_ab i = Some r'
    /\ merged_entry (str "b.jpg") entry_b
         (build_resource_for_image plain_extract (str "b.jpg") tags_trip [])
         r'.
Proof.
  apply (merge_keeps_existing_entry plain_extract index_b images_ab
           tags_trip [] merged_ab index_b_merged).
  - vm_compute. reflexivity.
  - simpl. auto.
  - reflexivity.
Defined.



Lemma resources_are_the_images_witness :
  exists merged names,
    dict_get front_k k_resources = Some (VList merged)
    /\ map (fun r => field r k_src) merged
       = map (fun n => Some (VStr n)) names
    /\ StronglySorted lt_str names
    /\ (forall n, In n names <-> In n (files world_k) /\ is_image n = true)
    /\ (forall r, In r merged ->
          exists n, field r k_src = Some (VStr n)
                    /\ In n (files world_k) /\ is_image n = true).
Proof.
  apply (resources_are_the_images yaml_load_fragment int_of_ascii
           plain_extract no_options world_k front_k (str "Some text.")).
  vm_compute. reflexivity.
Defined.



(* ================================================================== *)
(** ** The listing of the images *)

Lemma ltb_asym (a b : pystr) : lt_str a b -> PyStr.ltb b a = false.
Proof.
  intros H. destruct (PyStr.ltb b a) eqn:E; [| reflexivity].
  pose proof (ltb_trans a b a H E) as Haa. unfold lt_str in Haa.
  rewrite ltb_irrefl in Haa. discriminate.
Qed.

Lemma le_str_trans (a b c : pystr) : le_str a b -> le_str b c -> le_str a c.
Proof.
  unfold le_str, PyStr.leb. intros Hab Hbc.
  destruct (PyStr.ltb c a) eqn:Hca; [| reflexivity]. exfalso.
  destruct (ltb_total a b) as [Hlt | [-> | Hgt]].
  - pose proof (ltb_trans c a b Hca Hlt) as Hcb. unfold lt_str in Hcb.
    rewrite Hcb in Hbc. discriminate.
  - rewrite Hca in Hbc. discriminate.
  - unfold lt_str in Hgt. rewrite Hgt in Hab. discriminate.
Qed.

Lemma insert_sorted_le (x : pystr) (l : list pystr) :
  StronglySorted le_str l -> StronglySorted le_str (insert_sorted x l).
Proof.
  intros Hs. induction Hs as [|z l Hs IH Hall]; simpl.
  - constructor; constructor.
  - destruct (PyStr.leb x z) eqn:E.
    + constructor; [constructor; assumption |].
      constructor; [exact E |].
      rewrite Forall_forall in *. intros y Hy.
      apply (le_str_trans x z y E). apply Hall; exact Hy.
    + constructor; [exact IH |].
      rewrite Forall_forall in *. intros y Hy.
      apply insert_sorted_in in Hy as [-> | Hy]; [| apply Hall; exact Hy].
      apply leb_false_lt in E. unfold le_str, PyStr.leb.
      rewrite (ltb_asym z x E). reflexivity.
Qed.

Lemma insert_sorted_perm (x : pystr) (l : list pystr) :
  Permutation (insert_sorted x l) (x :: l).
Proof.
  induction l as [|y l IH]; simpl; [apply Permutation_refl |].
  destruct (PyStr.leb x y); [apply Permutation_refl |].
  apply (Permutation_trans (perm_skip y IH)). apply perm_swap.
Qed.

Lemma sorted_perm (l : list pystr) : Permutation (sorted l) l.
Proof.
  induction l as [|x l IH]; simpl; [apply perm_nil |].
  apply (Permutation_trans (insert_sorted_perm x (sorted l))).
  apply perm_skip, IH.
Qed.

Lemma rfind_dot_bound (s : pystr) (i : nat) :
  rfind_dot s = Some i -> (i < List.length s)%nat.
Proof.
  revert i. induction s as [|c s IH]; intros i; simpl; [discriminate |].
  destruct (rfind_dot s) as [j|].
  - intros H; inversion H; subst. specialize (IH j eq_refl). lia.
  - destruct (c =? 46)%N; [| discriminate].
    intros H; inversion H; subst. lia.
Qed.

Lemma image_has_stem (name : pystr) :
  is_image name = true ->
  stem name <> [] /\ In (suffix name) IMAGE_EXTS.
Proof.
  unfold is_image. intros H. apply existsb_exists in H as [ext [Hin Heq]].
  apply pystr_eqb_eq in Heq. split; [| rewrite Heq; exact Hin].
  unfold stem. unfold suffix in Heq.
  destruct (dot_index name) as [i|] eqn:Hd.
  - unfold dot_index in Hd.
    destruct (rfind_dot name) as [j|] eqn:Hr; [| discriminate].
    destruct (Nat.ltb 0 j && Nat.ltb j (List.length name - 1))%bool eqn:Hb;
      [| discriminate].
    inversion Hd; subst j. apply andb_true_iff in Hb as [H0 H1].
    apply Nat.ltb_lt in H0. apply rfind_dot_bound in Hr.
    destruct name as [|c name]; [simpl in Hr; lia |].
    destruct i; [lia | discriminate].
  - subst ext. simpl in Hin.
    repeat (destruct Hin as [Hin | Hin]; [discriminate |]). destruct Hin.
Qed.

(** X1.  [list_images] returns the files whose suffix is one of
    [IMAGE_EXTS], each as often as it is listed and no other, in ascending
    order of name; every name it returns is its stem followed by that
    suffix, and the stem, the title to be, is not empty. *)
Theorem list_images_sorted_images :
  forall (fs : list pystr),
    Permutation (list_images fs) (filter is_image fs)
    /\ StronglySorted le_str (list_images fs)
    /\ forall name, In name (list_images fs) ->
         name = stem name ++ suffix name
         /\ In (suffix name) IMAGE_EXTS
         /\ stem name <> [].
Proof.
  intros fs. split; [apply sorted_perm |]. split.
  - unfold list_images, sorted.
    induction (filter _ fs) as [|x l IH]; simpl; [constructor |].
    apply insert_sorted_le, IH.
  - intros name Hin. apply list_images_in in Hin as [_ Himg].
    destruct (image_has_stem name Himg) as [Hs Hx].
    split; [symmetry; apply stem_suffix | auto].
Qed.

(* ================================================================== *)
(** ** The index of the stored entries *)

Lemma by_src_set_keys_nodup (m : by_src) (k : pykey) (v : value) :
  NoDup (map fst m) -> NoDup (map fst (by_src_set m k v)).
Proof.
  intros Hnd. unfold by_src_set. rewrite assoc_set_keys.
  destruct (assoc_has key_eqb m k) eqn:E; [exact Hnd |].
  assert (Hk : ~ In k (map fst m)).
  { intros Hin. apply (assoc_has_in_keys _ _ _ key_eqb_eq) in Hin. congruence. }
  clear E. induction (map fst m) as [|a l IH]; simpl.
  - constructor; [intros [] | constructor].
  - inversion Hnd; subst. constructor.
    + rewrite in_app_iff. intros [H | [H | []]]; [contradiction |].
      subst. apply Hk; left; reflexivity.
    + apply IH; [assumption |]. intros H; apply Hk; right; exact H.
Qed.

Lemma entry_key_step (d : dict) :
  entry_key (VDict d)
  = if truthy (get_or_none d k_src) then to_key (get_or_none d k_src)
    else None.
Proof. reflexivity. Qed.

Lemma resources_to_dict_onto_lookup (raw : list value) :
  forall (acc prev : by_src),
    resources_to_dict_onto acc raw = Ok prev ->
    forall k, by_src_get prev k
              = match last_with_key k raw with
                | Some e => Some e
                | None => by_src_get acc k
                end.
Proof.
  induction raw as [|r raw IH]; intros acc prev H k; simpl in H.
  - inversion H; subst. reflexivity.
  - simpl last_with_key.
    assert (Hskip : entry_key r = None ->
                    resources_to_dict_onto acc raw = Ok prev ->
                    by_src_get prev k
                    = match match last_with_key k raw with
                            | Some e => Some e
                            | None =>
                                match entry_key r with
                                | Some k' =>
                                    if key_eqb k k' then Some r else None
                                | None => None
                                end
                            end with
                      | Some e => Some e
                      | None => by_src_get acc k
                      end).
    { intros E H'. rewrite E, (IH _ _ H' k).
      destruct (last_with_key k raw); reflexivity. }
    destruct r as [| | | | | | |d]; try (apply Hskip; [reflexivity | exact H]).
    rewrite entry_key_step in *.
    destruct (truthy (get_or_none d k_src)) eqn:Et;
      [| apply Hskip; [reflexivity | exact H]].
    destruct (to_key (get_or_none d k_src)) as [kr|] eqn:Ek; [| discriminate].
    rewrite (IH _ _ H k).
    destruct (last_with_key k raw); [reflexivity |].
    destruct (key_eqb k kr) eqn:E.
    + apply key_eqb_eq in E; subst kr.
      apply (assoc_get_set_same _ _ _ key_eqb_eq).
    + apply by_src_get_set_other. intros ->.
      rewrite (keqb_refl _ _ key_eqb_eq) in E. discriminate.
Qed.

Lemma resources_to_dict_onto_nodup (raw : list value) :
  forall (acc prev : by_src),
    NoDup (map fst acc) ->
    resources_to_dict_onto acc raw = Ok prev -> NoDup (map fst prev).
Proof.
  induction raw as [|r raw IH]; intros acc prev Hnd H; simpl in H.
  - inversion H; subst; exact Hnd.
  - destruct r as [| | | | | | |d]; try (apply (IH _ _ Hnd H)).
    destruct (truthy (get_or_none d k_src)); [| apply (IH _ _ Hnd H)].
    destruct (to_key (get_or_none d k_src)) as [kr|]; [| discriminate].
    apply (IH _ _ (by_src_set_keys_nodup acc kr _ Hnd) H).
Qed.

(** X2.  The index that [resources_to_dict] builds has one entry per key;
    each entry comes from the list and is filed under its own [src]; the
    entry found under a key is the last one of the list with that key. *)
Theorem resources_to_dict_last_wins :
  forall (resources : list value) (prev : by_src),
    resources_to_dict resources = Ok prev ->
    NoDup (map fst prev)
    /\ (forall k e, In (k, e) prev ->
          In e resources /\ entry_key e = Some k)
    /\ (forall k, by_src_get prev k = last_with_key k resources).
Proof.
  intros raw prev H. unfold resources_to_dict in H. split; [| split].
  - apply (resources_to_dict_onto_nodup raw [] prev (NoDup_nil _) H).
  - intros k e Hin.
    destruct (resources_to_dict_onto_keyed raw [] prev H k e Hin)
      as [[] | Hke]. exact Hke.
  - intros k. rewrite (resources_to_dict_onto_lookup raw [] prev H k).
    destruct (last_with_key k raw); reflexivity.
Qed.

Lemma resources_to_dict_last_wins_witness :
  by_src_get index_b (KStr (str "z.jpg")) = Some entry_gone
  /\ NoDup (map fst index_b).
Proof.
  destruct (resources_to_dict_last_wins [entry_b; entry_gone_old; entry_gone]
              index_b eq_refl) as [Hnd [_ Hlast]].
  split; [| exact Hnd]. rewrite Hlast. reflexivity.
Defined.

Lemma resources_to_dict_onto_raises (raw : list value) :
  forall (acc : by_src),
    resources_to_dict_onto acc raw
    = (if existsb unhashable_src raw then Raise TypeError
       else resources_to_dict_onto acc raw)
    /\ (existsb unhashable_src raw = false ->
        exists prev, resources_to_dict_onto acc raw = Ok prev).
Proof.
  induction raw as [|r raw IH]; intros acc; simpl.
  - split; [reflexivity | eauto].
  - assert (Hskip : unhashable_src r = false ->
              resources_to_dict_onto acc raw
              = (if unhashable_src r || existsb unhashable_src raw
                 then Raise TypeError else resources_to_dict_onto acc raw)
              /\ (unhashable_src r || existsb unhashable_src raw = false ->
                  exists prev, resources_to_dict_onto acc raw = Ok prev)).
    { intros ->. simpl. apply IH. }
    destruct r as [| | | | | | |d]; try (apply Hskip; reflexivity).
    simpl unhashable_src.
    destruct (get_or_none d k_src) as [|[|]|z|f|s|t|l|m] eqn:Es; simpl;
      try (apply IH).
    + destruct (negb (z =? 0)); apply IH.
    + destruct f as [x e| |]; [destruct (negb (x =? 0)) | |]; apply IH.
    + destruct s; apply IH.
    + destruct l; [apply IH |]. simpl. split; [reflexivity | discriminate].
    + destruct m; [apply IH |]. simpl. split; [reflexivity | discriminate].
Qed.

(** X3.  [resources_to_dict] raises exactly when some mapping of the list
    has a non-empty list or mapping as [src], and then it is [TypeError];
    entries that are not mappings or have no [src] are passed over. *)
Theorem resources_to_dict_raises_iff :
  forall (resources : list value),
    (existsb unhashable_src resources = true <->
     resources_to_dict resources = Raise TypeError)
    /\ (existsb unhashable_src resources = false <->
        exists prev, resources_to_dict resources = Ok prev).
Proof.
  intros raw. unfold resources_to_dict.
  destruct (resources_to_dict_onto_raises raw []) as [Heq Hok].
  destruct (existsb unhashable_src raw) eqn:E.
  - split; split; try discriminate; auto.
    intros [prev Hp]. rewrite Heq in Hp. discriminate.
  - destruct (Hok eq_refl) as [prev Hp].
    split; split; try discriminate; eauto.
    rewrite Hp. discriminate.
Qed.

(* ================================================================== *)
(** ** The plain numbering of [update_weights] *)







(* ================================================================== *)
(** ** The cover on any list *)



(* ================================================================== *)
(** ** When the merge returns *)

Lemma fill_if_absent_same_or_params (d r r' : value) (key : pystr) :
  fill_if_absent d r key = Ok r' -> r' = r \/ has_params r.
Proof.
  unfold fill_if_absent.
  destruct (py_getitem r k_params) as [pv|ex]; simpl; [| discriminate].
  destruct (py_in key pv) as [present|ex]; simpl; [| discriminate].
  destruct (if negb present then Ok true
            else let* cur := py_get pv key in Ok (is_empty3 cur))
    as [empty|ex]; simpl; [| discriminate].
  destruct empty; [| intros H; inversion H; auto].
  destruct (py_getitem d k_params) as [dparams|ex]; simpl; [| discriminate].
  destruct (py_get dparams key) as [val|ex]; simpl; [| discriminate].
  destruct (negb (is_empty3 val)); [| intros H; inversion H; auto].
  intros H. right. destruct (set_param_inv _ _ _ _ H) as [rd [p [-> [Hp _]]]].
  exists rd, p. auto.
Qed.

Lemma merge_existing_ok_back (src : pystr) (r d r' : value) :
  merge_existing src r d = Ok r' -> entry_ok r' -> entry_ok r.
Proof.
  unfold merge_existing.
  destruct r as [| | | | | | |rd]; simpl; try discriminate.
  set (r2 := VDict (dict_setdefault (dict_set rd k_title (VStr (stem src)))
                      k_params (VDict []))).
  destruct (fill_if_absent d r2 k_date) as [r3|ex] eqn:H3;
    simpl; [| discriminate].
  destruct (fill_if_absent d r3 k_location) as [r4|ex] eqn:H4;
    simpl; [| discriminate].
  intros H5 Hok. exists rd. split; [reflexivity |].
  destruct (dict_get rd k_params) as [pv|] eqn:Hpv; [right | left; reflexivity].
  destruct fill_keys_distinct as [_ [_ [_ [Ntp _]]]].
  assert (H2 : field r2 k_params = Some pv).
  { unfold r2. simpl. rewrite dict_get_setdefault_same,
      (dict_get_set_other _ _ _ _ (not_eq_sym Ntp)), Hpv. reflexivity. }
  assert (Hdict : forall x, field x k_params = Some pv ->
                            has_params x \/ entry_ok x -> exists p, pv = VDict p).
  { intros x Hx [[xd [p [-> Hp]]] | [xd [-> Hp]]]; simpl in Hx.
    - rewrite Hx in Hp. inversion Hp. eauto.
    - rewrite Hx in Hp. destruct Hp as [Hp | [p Hp]]; [discriminate |].
      inversion Hp. eauto. }
  assert (Hpv_dict : exists p, pv = VDict p).
  { destruct (fill_if_absent_same_or_params _ _ _ _ H3) as [E3 | Hp3];
      [subst r3 | apply (Hdict r2 H2); auto].
    destruct (fill_if_absent_same_or_params _ _ _ _ H4) as [E4 | Hp4];
      [subst r4 | apply (Hdict r2 H2); auto].
    destruct (fill_if_absent_same_or_params _ _ _ _ H5) as [E5 | Hp5];
      [subst r' | apply (Hdict r2 H2); auto].
    apply (Hdict r2 H2); auto. }
  destruct Hpv_dict as [p ->]. eauto.
Qed.

Lemma same_key_shape_refl (l : by_src) : Forall2 same_key_shape l l.
Proof. induction l; constructor; [split; auto | assumption]. Qed.

Lemma same_key_shape_trans (a b c : by_src) :
  Forall2 same_key_shape a b -> Forall2 same_key_shape b c ->
  Forall2 same_key_shape a c.
Proof.
  intros Hab. revert c. induction Hab as [|x y a b [H1 H2] _ IH];
    intros c Hbc; inversion Hbc as [|y' z b' c' [H3 H4] Hbc']; subst.
  - constructor.
  - constructor; [split; [congruence | auto] | apply IH; exact Hbc'].
Qed.

Lemma by_src_set_shape (m : by_src) (k : pykey) (r v : value) :
  by_src_get m k = Some r ->
  (entry_ok v -> entry_ok r) ->
  Forall2 same_key_shape m (by_src_set m k v).
Proof.
  unfold by_src_get, by_src_set.
  induction m as [|[k' e] m IH]; simpl; [discriminate |].
  destruct (key_eqb k k') eqn:E.
  - intros H Hw; inversion H; subst e.
    constructor; [split; [reflexivity | exact Hw] | apply same_key_shape_refl].
  - intros H Hw. constructor; [split; auto | apply IH; assumption].
Qed.

Lemma merge_loop_shape (desired : dict) (keys : list pystr) :
  forall (existing : by_src) (acc merged : list value) (existing' : by_src),
    merge_loop keys existing desired acc = Ok (merged, existing') ->
    Forall2 same_key_shape existing existing'.
Proof.
  induction keys as [|src keys IH]; intros ex acc merged ex' H; simpl in H.
  - inversion H; subst. apply same_key_shape_refl.
  - destruct (dict_get desired src) as [d|]; simpl in H; [| discriminate].
    destruct (by_src_get ex (KStr src)) as [r|] eqn:Hr.
    + destruct (merge_existing src r d) as [r'|e] eqn:Hm; simpl in H;
        [| discriminate].
      apply (same_key_shape_trans _ _ _
               (by_src_set_shape _ _ _ _ Hr (merge_existing_ok_back _ _ _ _ Hm))
               (IH _ _ _ _ H)).
    + apply (IH _ _ _ _ H).
Qed.

Lemma collect_weights_ok_entries (int_of_str : pystr -> option Z)
  (previous : by_src) :
  forall (acc ws : list (pykey * Z)),
    collect_weights int_of_str acc previous = Ok ws ->
    Forall (fun kv => entry_ok (snd kv)) previous.
Proof.
  induction previous as [|[k r] prev IH]; intros acc ws H; simpl in H;
    [constructor |].
  destruct r as [| | | | | | |d]; simpl in H; try discriminate.
  destruct (dict_get d k_params) as [pv|] eqn:Hpv.
  - destruct pv as [| | | | | | |p]; simpl in H; try discriminate.
    constructor; [exists d; split; [reflexivity | eauto] |].
    destruct (py_int int_of_str (get_or_none p k_weight));
      [| apply caught_continue in H]; apply (IH _ _ H).
  - simpl in H. constructor; [exists d; auto | apply (IH _ _ H)].
Qed.

Lemma reconcile_total_indexed (int_of_str : pystr -> option Z)
  (extract : pystr -> pystr * pystr) (front : dict)
  (images tags : list pystr) (loc : pystr) (prev : by_src) :
  resources_to_dict (resources_of front) = Ok prev ->
  Forall (fun kv => entry_ok (snd kv)) prev ->
  Forall (fun kv => weight_overflows (snd kv) = false) prev ->
  exists final,
    reconcile int_of_str extract front images tags loc = Ok final.
Proof.
  intros Hp Hprev Hfin. unfold reconcile.
  assert (Hread : match match dict_get front k_resources with
                        | Some v => v
                        | None => VList []
                        end with
                  | VList l => resources_to_dict l
                  | _ => Ok []
                  end
                  = resources_to_dict (resources_of front)).
  { unfold resources_of.
    destruct (dict_get front k_resources) as [[| | | | | | |]|]; reflexivity. }
  rewrite Hread, Hp. clear Hread. simpl.
  destruct (build_desired_spec extract images tags loc) as [Hnd [Hkeys _]].
  destruct (merge_loop_total extract images tags loc
              (sorted (map fst (build_desired extract images tags loc)))
              prev [])
    as [merged0 [prev' [Hm [Hmerged Hprev']]]];
    [intros k Hk; apply Hkeys, sorted_in, Hk | exact Hprev | constructor |].
  destruct (merge_loop_spec _ _ _ _ _ _
              (strongly_sorted_nodup _ (sorted_strict _ Hnd)) Hm)
    as [_ Hrel].
  pose proof (same_key_weight_finite _ _ Hrel Hfin) as Hfin'.
  rewrite Hm. simpl.
  destruct (update_weights_total int_of_str merged0 prev' Hmerged Hprev'
              Hfin')
    as [merged1 Hu].
  rewrite Hu. simpl.
  apply ensure_cover_total.
  destruct (update_weights_entries _ _ _ _ Hu) as [ws [_ [Hlen Hent]]].
  rewrite Forall_forall. intros m1 Hin.
  apply In_nth_error in Hin as [i Hi].
  assert (Hlt : (i < List.length merged0)%nat).
  { rewrite <- Hlen. apply nth_error_Some. congruence. }
  apply nth_error_Some in Hlt.
  destruct (nth_error merged0 i) as [m0|] eqn:Hm0; [| contradiction].
  destruct (Hent i m0 Hm0) as [m1' [Hm1' [Ha Hb]]].
  rewrite Hi in Hm1'. inversion Hm1'; subst m1'. clear Hm1'.
  assert (Hok0 : entry_ok m0).
  { rewrite Forall_forall in Hmerged. apply Hmerged.
    apply (nth_error_In _ _ Hm0). }
  destruct (weight_missing m0) eqn:E; [| rewrite (Hb eq_refl); exact Hok0].
  destruct (Ha eq_refl) as [Hw _].
  apply weight_at_inv in Hw as [m1' [Hm1' Hparam]].
  rewrite Hi in Hm1'. inversion Hm1'; subst m1'.
  apply has_params_ok, weight_present_has_params.
  unfold weight_missing. rewrite Hparam. reflexivity.
Qed.

(** X7.  Whether the merge returns depends on the stored list alone, not
    on the directory: it returns exactly when the list can be indexed and
    every indexed entry, that of a deleted file included, has no [params]
    or a mapping as [params], and no infinite float as weight; otherwise
    an exception ends the run. *)
Theorem reconcile_returns_iff :
  forall (int_of_str : pystr -> option Z)
         (extract : pystr -> pystr * pystr) (front : dict)
         (images tags : list pystr) (loc : pystr),
    (exists final,
       reconcile int_of_str extract front images tags loc = Ok final)
    <-> (exists prev,
           resources_to_dict (resources_of front) = Ok prev
           /\ Forall (fun kv => entry_ok (snd kv)) prev
           /\ Forall (fun kv => weight_overflows (snd kv) = false) prev).
Proof.
  intros ios ex front images tags loc. split.
  - intros [final H].
    destruct (reconcile_inv _ _ _ _ _ _ _ H)
      as [prev [merged0 [prev' [merged1 [Hp [Hm [Hu _]]]]]]].
    exists prev. split; [exact Hp |].
    pose proof (merge_loop_shape _ _ _ _ _ _ Hm) as Hshape.
    destruct (build_desired_spec ex images tags loc) as [Hnd _].
    destruct (merge_loop_spec _ _ _ _ _ _
                (strongly_sorted_nodup _ (sorted_strict _ Hnd)) Hm)
      as [_ Hrel].
    unfold update_weights_preserve_existing in Hu.
    destruct (collect_weights ios [] prev') as [ws|e] eqn:Hc; simpl in Hu;
      [| discriminate].
    pose proof (collect_weights_ok_entries ios prev' [] ws Hc) as Hok'.
    pose proof (collect_weights_finite ios prev' [] ws Hc) as Hfin'.
    split; [| apply (same_key_weight_finite_back _ _ Hrel Hfin')].
    clear - Hshape Hok'.
    induction Hshape as [|x y a b [_ Hxy] _ IH]; [constructor |].
    inversion Hok'; subst. constructor; auto.
  - intros [prev [Hp [Hok Hfin]]].
    apply (reconcile_total_indexed ios ex front images tags loc prev Hp Hok
             Hfin).
Qed.

(* ================================================================== *)
(** ** The first run *)

Lemma template_no_resources (a : args) (w : world) :
  dict_get (template a w) k_resources = None.
Proof.
  unfold template.
  destruct (split_commas (categories a)); destruct (featured a); reflexivity.
Qed.

Lemma count_missing_all (l : list value) :
  Forall (fun r => weight_missing r = true) l ->
  count_missing l = List.length l.
Proof.
  induction 1 as [|r l Hr _ IH]; [reflexivity |].
  rewrite count_missing_cons, Hr, IH. reflexivity.
Qed.

Lemma merge_loop_fresh (extract : pystr -> pystr * pystr)
  (images tags : list pystr) (loc : pystr)
  (merged : list value) (existing' : by_src) :
  merge_loop (sorted (map fst (build_desired extract images tags loc))) []
             (build_desired extract images tags loc) []
  = Ok (merged, existing') ->
  merged = map (fun name => build_resource_for_image extract name tags loc)
               (sorted (map fst (build_desired extract images tags loc))).
Proof.
  intros H.
  destruct (build_desired_spec extract images tags loc) as [Hnd [Hkeys Hget]].
  set (desired := build_desired extract images tags loc) in *.
  pose proof (sorted_strict _ Hnd) as Hs.
  destruct (merge_loop_spec desired _ [] [] merged existing'
              (strongly_sorted_nodup _ Hs) H) as [[new [-> Hnew]] _].
  simpl.
  assert (Hall : forall name, In name (sorted (map fst desired)) ->
                              In name images).
  { intros name Hin. apply Hkeys, sorted_in, Hin. }
  clear - Hnew Hall Hget.
  induction Hnew as [|name m names ms [d [Hd Hm]] _ IH]; [reflexivity |].
  simpl in Hm. subst m. simpl.
  rewrite (Hget name (Hall name (or_introl eq_refl))) in Hd.
  inversion Hd; subst d. f_equal.
  apply IH. intros n Hn. apply Hall. right. exact Hn.
Qed.

(** X8.  Without an index.md the run starts from the template and the new
    list holds the image files in ascending order, each as it is built
    from the file, numbered 1, 2, ... by weight, with [cover: true] on the
    first and on no other; there is no body. *)
Theorem first_run_numbers_and_cover :
  forall (yaml_safe_load : pystr -> result value)
         (yaml_dump : value -> pystr)
         (int_of_str : pystr -> option Z)
         (extract : pystr -> pystr * pystr) (a : args) (w : world),
    index_md w = None ->
    exists merged names,
      main_front yaml_safe_load int_of_str extract a w
      = Ok (dict_set (template a w) k_resources (VList merged), [])
      /\ main_text yaml_safe_load yaml_dump int_of_str extract a w
         = Ok (join_front_matter yaml_dump
                 (VDict (dict_set (template a w) k_resources (VList merged))))
      /\ StronglySorted lt_str names
      /\ (forall n, In n names <-> In n (files w) /\ is_image n = true)
      /\ List.length merged = List.length names
      /\ forall i name, nth_error names i = Some name ->
           exists n, nth_error merged i = Some n
             /\ (forall k, k <> k_params ->
                   field n k
                   = field (build_resource_for_image extract name
                              (split_commas (common_tags a))
                              (default_location a)) k)
             /\ param n k_weight = Some (VInt (Z.of_nat i + 1))
             /\ param n k_cover
                = (if Nat.eqb i 0 then Some (VBool true) else None)
             /\ (forall k, k <> k_weight -> k <> k_cover ->
                   param n k
                   = param (build_resource_for_image extract name
                              (split_commas (common_tags a))
                              (default_location a)) k).
Proof.
  intros yl yd ios ex a w Hidx.
  set (images := list_images (files w)).
  set (tags := split_commas (common_tags a)).
  set (loc := default_location a).
  set (build := fun name => build_resource_for_image ex name tags loc).
  assert (Hraw : resources_of (template a w) = []).
  { unfold resources_of. rewrite template_no_resources. reflexivity. }
  destruct (reconcile_total_indexed ios ex (template a w) images tags loc [])
    as [final Hr]; [rewrite Hraw; reflexivity | constructor | constructor |].
  destruct (reconcile_inv _ _ _ _ _ _ _ Hr)
    as [prev [merged0 [prev' [merged1 [Hp [Hm [Hu Hc]]]]]]].
  rewrite Hraw in Hp. inversion Hp; subst prev. clear Hp.
  pose proof (merge_loop_shape _ _ _ _ _ _ Hm) as Hshape.
  inversion Hshape; subst prev'. clear Hshape.
  apply merge_loop_fresh in Hm.
  destruct (build_desired_spec ex images tags loc) as [Hnd [Hkeys _]].
  set (names := sorted (map fst (build_desired ex images tags loc))) in *.
  fold build in Hm.
  destruct (update_weights_entries _ _ _ _ Hu) as [ws [Hcol [Hlen1 Hent]]].
  simpl in Hcol. inversion Hcol; subst ws. clear Hcol.
  change (max_default0 (map snd [])) with 0 in Hent.
  destruct (ensure_cover_entries _ _ Hc) as [Hlen2 Hcov].
  assert (Hmiss : Forall (fun r => weight_missing r = true) merged0).
  { subst merged0. rewrite Forall_forall. intros r Hin.
    apply in_map_iff in Hin as [name [<- _]]. unfold weight_missing, build.
    destruct (build_resource_fields ex name tags loc) as [_ [-> _]].
    reflexivity. }
  exists final, names.
  assert (Hfront : main_front yl ios ex a w
                   = Ok (dict_set (template a w) k_resources (VList final), [])).
  { unfold main_front, load_front. rewrite Hidx. simpl.
    fold images. fold tags. fold loc. rewrite Hr. reflexivity. }
  split; [exact Hfront |]. split.
  { unfold main_text. rewrite Hfront. reflexivity. }
  split; [apply sorted_strict, Hnd |]. split.
  { intros n. unfold names. rewrite sorted_in, Hkeys.
    apply list_images_in. }
  assert (Hlen0 : List.length merged0 = List.length names).
  { subst merged0. apply length_map. }
  split; [congruence |].
  intros i name Hname.
  assert (Hm0 : nth_error merged0 i = Some (build name)).
  { subst merged0. rewrite nth_error_map, Hname. reflexivity. }
  destruct (Hent i _ Hm0) as [m1 [Hm1 [Ha _]]].
  assert (Hbm : weight_missing (build name) = true).
  { rewrite Forall_forall in Hmiss. apply Hmiss.
    apply (nth_error_In _ _ Hm0). }
  destruct (Ha Hbm) as [Hw [Hpar Hfld]].
  destruct (Hcov i m1 Hm1) as [n [Hn [Hf2 Hp2]]].
  destruct fill_keys_distinct as [_ [_ [_ [_ [_ [_ [_ [_ [_ Hwc]]]]]]]]].
  exists n. split; [exact Hn |].
  split; [intros k Hk; rewrite (Hf2 k Hk); apply Hfld, Hk |].
  split.
  { rewrite (Hp2 k_weight Hwc).
    apply weight_at_inv in Hw as [m1' [Hm1' Hparam]].
    rewrite Hm1 in Hm1'. inversion Hm1'; subst m1'. rewrite Hparam.
    do 2 f_equal.
    assert (Hi : (i < List.length merged0)%nat).
    { apply nth_error_Some. congruence. }
    rewrite (count_missing_all (firstn i merged0)).
    - rewrite length_firstn. lia.
    - rewrite Forall_forall in *. intros r Hin. apply Hmiss.
      rewrite <- (firstn_skipn i merged0). apply in_or_app. left. exact Hin. }
  assert (Hnocover : forall j m, nth_error merged1 j = Some m ->
                                 param m k_cover = None).
  { intros j m Hj.
    assert (Hj0 : exists name0, nth_error merged0 j = Some (build name0)).
    { assert (Hlt : (j < List.length merged0)%nat).
      { rewrite <- Hlen1. apply nth_error_Some. congruence. }
      subst merged0. rewrite length_map in Hlt.
      apply nth_error_Some in Hlt.
      destruct (nth_error names j) as [name0|] eqn:E; [| contradiction].
      exists name0. rewrite nth_error_map, E. reflexivity. }
    destruct Hj0 as [name0 Hj0].
    destruct (Hent j _ Hj0) as [m' [Hm' [Ha' _]]].
    rewrite Hj in Hm'. inversion Hm'; subst m'.
    assert (Hb0 : weight_missing (build name0) = true).
    { rewrite Forall_forall in Hmiss. apply Hmiss.
      apply (nth_error_In _ _ Hj0). }
    destruct (Ha' Hb0) as [_ [Hpar' _]].
    rewrite (Hpar' k_cover (not_eq_sym Hwc)). unfold build.
    destruct (build_resource_fields ex name0 tags loc) as [_ [_ ->]].
    reflexivity. }
  split.
  { destruct (ensure_cover_inv _ _ Hc)
      as [[-> [Hnil | Hex]] | [_ [r0 [rest [r1 [r2 [E1 [E2 [H1 H2]]]]]]]]].
    - rewrite Hnil in Hm1. destruct i; discriminate.
    - exfalso. apply existsb_exists in Hex as [m [Hin Hcm]].
      apply In_nth_error in Hin as [j Hj].
      unfold cover_is_true in Hcm. rewrite (Hnocover j m Hj) in Hcm.
      discriminate.
    - subst merged1 final. destruct i as [|i]; simpl in *.
      + inversion Hn; subst n. apply (set_param_same _ _ _ _ H2).
      + rewrite Hm1 in Hn. inversion Hn; subst n.
        apply (Hnocover (S i) m1). exact Hm1. }
  intros k Hkw Hkc. rewrite (Hp2 k Hkc). apply Hpar, Hkw.
Qed.

(* ================================================================== *)
(** ** A file that the manifest does not list *)




(* ================================================================== *)
(** ** A header that is not a mapping, or not YAML *)

Lemma split_front_matter_header (yaml_safe_load : pystr -> result value)
  (text fm : pystr) (rest : list pystr) :
  header_and_rest text = Some (fm, rest) ->
  split_front_matter yaml_safe_load text
  = (let* data :=
       match strip fm with
       | [] => Ok (VDict [])
       | _ => yaml_safe_load fm
       end in
     Ok ([], match data with VNone => VDict [] | _ => data end,
         join nl rest)).
Proof.
  unfold header_and_rest.
  destruct (splitlines text) as [|l0 ls] eqn:Hl; [discriminate |].
  destruct (is_delim l0) eqn:Hd; [| discriminate].
  destruct (find_delim 1 ls) as [i|] eqn:Hf; [| discriminate].
  intros H; inversion H; subst.
  apply (split_front_matter_found yaml_safe_load text l0 ls i Hl Hd Hf).
Qed.

(** X10.  When PyYAML rejects the text between the delimiter lines, the
    exception ends the run: nothing is written. *)
Theorem unreadable_header_fails :
  forall (yaml_safe_load : pystr -> result value)
         (yaml_dump : value -> pystr)
         (int_of_str : pystr -> option Z)
         (extract : pystr -> pystr * pystr) (a : args) (w : world)
         (text fm : pystr) (rest : list pystr) (e : exn),
    index_md w = Some text ->
    header_and_rest text = Some (fm, rest) ->
    has_visible_char fm ->
    yaml_safe_load fm = Raise e ->
    main yaml_safe_load yaml_dump int_of_str extract a w = Raise e.
Proof.
  intros yl yd ios ex a w text fm rest e Hidx Hh Hvis Hload.
  unfold main, main_text, main_front, load_front. rewrite Hidx.
  rewrite (split_front_matter_header yl text fm rest Hh).
  destruct (strip fm) as [|c s] eqn:Hs.
  - exfalso. apply strip_nil_iff in Hs.
    apply (proj2 (not_all_space_visible fm) Hvis Hs).
  - rewrite Hload. reflexivity.
Qed.

Lemma unreadable_header_fails_witness :
  main yaml_load_fragment yaml_dump_fragment int_of_ascii plain_extract
       no_options
       (album (str "---" ++ nl ++ str "title: [" ++ nl ++ str "---" ++ nl))
  = Raise YAMLError.
Proof.
  apply (unreadable_header_fails yaml_load_fragment yaml_dump_fragment
           int_of_ascii plain_extract no_options _
           (str "---" ++ nl ++ str "title: [" ++ nl ++ str "---" ++ nl)
           (str "title: [") [] YAMLError).
  - reflexivity.
  - reflexivity.
  - exists 116%N. split; [simpl; auto | reflexivity].
  - reflexivity.
Defined.

(** X11.  When the text between the delimiter lines parses to something
    that is not a mapping (a list, a scalar, nothing), the run goes on
    with an empty header: the mapping written has the key [resources]
    and no other, and the body is kept. *)
Theorem non_mapping_header_is_dropped :
  forall (yaml_safe_load : pystr -> result value)
         (yaml_dump : value -> pystr)
         (int_of_str : pystr -> option Z)
         (extract : pystr -> pystr * pystr) (a : args) (w : world)
         (text fm : pystr) (rest : list pystr) (v : value),
    index_md w = Some text ->
    header_and_rest text = Some (fm, rest) ->
    has_visible_char fm ->
    yaml_safe_load fm = Ok v ->
    (forall d, v <> VDict d) ->
    exists merged,
      main_front yaml_safe_load int_of_str extract a w
      = Ok ([(k_resources, VList merged)], join nl rest)
      /\ main_text yaml_safe_load yaml_dump int_of_str extract a w
         = Ok (compose
                 (join_front_matter yaml_dump
                    (VDict [(k_resources, VList merged)]))
                 (join nl rest)).
Proof.
  intros yl yd ios ex a w text fm rest v Hidx Hh Hvis Hload Hv.
  destruct (reconcile_total_indexed ios ex [] (list_images (files w))
              (split_commas (common_tags a)) (default_location a) [])
    as [merged Hr]; [reflexivity | constructor | constructor |].
  exists merged.
  assert (Hfront : main_front yl ios ex a w
                   = Ok ([(k_resources, VList merged)], join nl rest)).
  { unfold main_front, load_front. rewrite Hidx.
    rewrite (split_front_matter_header yl text fm rest Hh).
    destruct (strip fm) as [|c s] eqn:Hs.
    - exfalso. apply strip_nil_iff in Hs.
      apply (proj2 (not_all_space_visible fm) Hvis Hs).
    - rewrite Hload. simpl.
      destruct v as [| | | | | | |d]; simpl; try (rewrite Hr; reflexivity).
      exfalso. apply (Hv d). reflexivity. }
  split; [exact Hfront |]. unfold main_text. rewrite Hfront. reflexivity.
Qed.

Lemma non_mapping_header_is_dropped_witness :
  exists merged,
    main_front yaml_load_list int_of_ascii plain_extract no_options
      (album (str "---" ++ nl ++ str "- x" ++ nl ++ str "---" ++ nl
                ++ str "Text."))
    = Ok ([(k_resources, VList merged)], str "Text.").
Proof.
  destruct (non_mapping_header_is_dropped yaml_load_list yaml_dump_fragment
              int_of_ascii plain_extract no_options
              (album (str "---" ++ nl ++ str "- x" ++ nl ++ str "---" ++ nl
                        ++ str "Text."))
              (str "---" ++ nl ++ str "- x" ++ nl ++ str "---" ++ nl
                 ++ str "Text.")
              (str "- x") [str "Text."] (VList [VStr (str "x")])
              eq_refl eq_refl
              (ex_intro _ 45%N (conj (or_introl eq_refl) eq_refl))
              eq_refl
              (fun d H => eq_ind (VList [VStr (str "x")])
                            (fun v => match v with
                                      | VList _ => True
                                      | _ => False
                                      end) I (VDict d) H))
    as [merged [Hfront _]].
  exists merged. exact Hfront.
Defined.


Lemma first_run_numbers_and_cover_witness :
  exists merged names,
    main_front yaml_load_fragment int_of_ascii plain_extract no_options
      fresh_album
    = Ok (dict_set (template no_options fresh_album) k_resources
            (VList merged), [])
    /\ List.length merged = List.length names
    /\ forall n, In n names <-> In n (files fresh_album) /\ is_image n = true.
Proof.
  destruct (first_run_numbers_and_cover yaml_load_fragment yaml_dump_fragment
              int_of_ascii plain_extract no_options fresh_album eq_refl)
    as [merged [names [Hfront [_ [_ [Hnames [Hlen _]]]]]]].
  exists merged, names. split; [exact Hfront |]. split; assumption.
Defined.

Lemma malformed_manifest_kept_witness :
  exists merged,
    main_text yaml_load_fragment yaml_dump_fragment int_of_ascii plain_extract
      no_options (album (str "---" ++ nl ++ str "title: x"))
    = Ok (join_front_matter yaml_dump_fragment
            (VDict [(k_resources, VList merged)])
            ++ str "---" ++ nl ++ str "title: x").
Proof.
  apply (malformed_manifest_kept yaml_load_fragment yaml_dump_fragment
           int_of_ascii plain_extract no_options
           (album (str "---" ++ nl ++ str "title: x"))
           (str "---" ++ nl ++ str "title: x")).
  - reflexivity.
  - reflexivity.
  - intros [i [l [Hi [Hn Hd]]]].
    destruct i as [|[|[|i]]]; vm_compute in Hn; try discriminate; [lia |].
    inversion Hn; subst l. vm_compute in Hd. discriminate.
Defined.

(* ================================================================== *)
(** ** Reading back what was written *)

Lemma linebreak_is_space (c : N) : is_linebreak c = true -> is_space c = true.
Proof.
  unfold is_linebreak, is_space.
  rewrite !orb_true_iff, !andb_true_iff, !N.leb_le, !N.eqb_eq. lia.
Qed.

Lemma lstrip_head (s : pystr) (c : N) (r : pystr) :
  lstrip s = c :: r -> is_space c = false.
Proof.
  induction s as [|x s IH]; simpl; [discriminate |].
  destruct (is_space x) eqn:E; [exact IH |].
  intros H; inversion H; subst. exact E.
Qed.

Lemma strip_last (s : pystr) :
  strip s = []
  \/ exists s0 x, strip s = s0 ++ [x] /\ is_space x = false.
Proof.
  unfold strip, rstrip.
  destruct (lstrip (rev (lstrip s))) as [|x r] eqn:E; [left; reflexivity |].
  right. exists (rev r), x. split; [reflexivity |].
  apply (lstrip_head _ _ _ E).
Qed.

Lemma splitlines_from_app_nl (n : nat) :
  forall (a cur : pystr) (x : N) (b : pystr),
    (List.length a <= n)%nat ->
    is_linebreak x = false ->
    splitlines_from cur (a ++ x :: 10%N :: b)
    = splitlines_from cur (a ++ [x]) ++ splitlines b.
Proof.
  assert (Hbase : forall cur x b,
            is_linebreak x = false ->
            splitlines_from cur (x :: 10%N :: b)
            = splitlines_from cur [x] ++ splitlines b).
  { intros cur x b Hx. cbn [splitlines_from]. rewrite Hx.
    cbn [splitlines_from].
    change (is_linebreak 10) with true. cbv iota.
    destruct b as [|d b]; reflexivity. }
  induction n as [|n IH]; intros a cur x b Hlen Hx.
  - destruct a; [| simpl in Hlen; lia]. apply Hbase, Hx.
  - destruct a as [|c a1]; [apply Hbase, Hx |].
    simpl in Hlen. cbn [app splitlines_from].
    destruct (is_linebreak c) eqn:Hc.
    + cbn [app]. f_equal.
      destruct a1 as [|d a2]; cbn [app].
      * assert (Hx10 : (x =? 10)%N = false).
        { destruct (N.eqb_spec x 10) as [-> |]; [discriminate | reflexivity]. }
        rewrite Hx10, andb_false_r. apply (IH [] [] x b); [simpl; lia | exact Hx].
      * simpl in Hlen.
        destruct ((c =? 13)%N && (d =? 10)%N)%bool.
        -- apply (IH a2 [] x b); [lia | exact Hx].
        -- apply (IH (d :: a2) [] x b); [simpl; lia | exact Hx].
    + apply (IH a1 (c :: cur) x b); [lia | exact Hx].
Qed.

Lemma splitlines_app_nl (a : pystr) (x : N) (b : pystr) :
  is_linebreak x = false ->
  splitlines (a ++ x :: 10%N :: b) = splitlines (a ++ [x]) ++ splitlines b.
Proof.
  intros Hx.
  apply (splitlines_from_app_nl (List.length a) a [] x b (le_n _) Hx).
Qed.

Lemma splitlines_from_keeps (n : nat) :
  forall (s cur : pystr) (c : N),
    (List.length s <= n)%nat ->
    is_linebreak c = false ->
    In c cur \/ In c s ->
    exists l, In l (splitlines_from cur s) /\ In c l.
Proof.
  assert (Hcur : forall (cur : pystr) (c : N),
            In c cur -> In c (rev cur))
    by (intros cur c H; apply in_rev in H; exact H).
  induction n as [|n IH]; intros s cur c Hlen Hc Hin.
  - destruct s; [| simpl in Hlen; lia]. simpl.
    destruct Hin as [Hin | []].
    destruct cur as [|y cur]; [destruct Hin |].
    exists (rev (y :: cur)). split; [left; reflexivity | apply Hcur, Hin].
  - destruct s as [|x s].
    + simpl. destruct Hin as [Hin | []].
      destruct cur as [|y cur]; [destruct Hin |].
      exists (rev (y :: cur)). split; [left; reflexivity | apply Hcur, Hin].
    + simpl in Hlen. cbn [splitlines_from].
      destruct (is_linebreak x) eqn:Hx.
      * destruct Hin as [Hin | [-> | Hin]].
        -- exists (rev cur). split; [left; reflexivity | apply Hcur, Hin].
        -- congruence.
        -- destruct s as [|d s]; [destruct Hin |].
           simpl in Hlen.
           destruct ((x =? 13)%N && (d =? 10)%N)%bool eqn:Hcr.
           ++ apply andb_true_iff in Hcr as [_ Hd].
              apply N.eqb_eq in Hd. subst d.
              destruct Hin as [<- | Hin]; [discriminate |].
              destruct (IH s [] c) as [l [Hl Hcl]];
                [lia | exact Hc | right; exact Hin |].
              exists l. split; [right; exact Hl | exact Hcl].
           ++ destruct (IH (d :: s) [] c) as [l [Hl Hcl]];
                [simpl; lia | exact Hc | right; exact Hin |].
              exists l. split; [right; exact Hl | exact Hcl].
      * destruct (IH s (x :: cur) c) as [l [Hl Hcl]];
          [lia | exact Hc | |].
        { destruct Hin as [Hin | [-> | Hin]];
            [left; right; exact Hin | left; left; reflexivity
            | right; exact Hin]. }
        exists l. split; [exact Hl | exact Hcl].
Qed.

Lemma join_in (sep : pystr) (parts : list pystr) (l : pystr) (c : N) :
  In l parts -> In c l -> In c (join sep parts).
Proof.
  induction parts as [|p parts IH]; intros Hl Hc; [destruct Hl |].
  destruct Hl as [-> | Hl].
  - destruct parts as [|q parts]; [exact Hc |].
    cbn [join]. apply in_or_app. left. exact Hc.
  - destruct parts as [|q parts]; [destruct Hl |].
    cbn [join]. apply in_or_app. right. apply in_or_app. right.
    apply IH; assumption.
Qed.

Lemma relined_visible (s : pystr) :
  has_visible_char s -> has_visible_char (relined s).
Proof.
  intros [c [Hin Hc]]. exists c. split; [| exact Hc].
  assert (Hlb : is_linebreak c = false).
  { destruct (is_linebreak c) eqn:E; [| reflexivity].
    apply linebreak_is_space in E. congruence. }
  destruct (splitlines_from_keeps (List.length s) s [] c (le_n _) Hlb
              (or_intror Hin)) as [l [Hl Hcl]].
  apply (join_in nl _ l c Hl Hcl).
Qed.

Lemma find_delim_app (ls : list pystr) :
  forall (i0 : nat) (d : pystr) (rest : list pystr),
    Forall (fun l => is_delim l = false) ls ->
    is_delim d = true ->
    find_delim i0 (ls ++ d :: rest) = Some (i0 + List.length ls)%nat.
Proof.
  induction ls as [|l ls IH]; intros i0 d rest Hall Hd; simpl.
  - rewrite Hd. f_equal. lia.
  - inversion Hall as [|? ? Hl Hall']; subst. rewrite Hl.
    rewrite (IH (S i0) d rest Hall' Hd). f_equal. lia.
Qed.

Lemma split_front_matter_written
  (yaml_safe_load : pystr -> result value) (s0 : pystr) (x : N)
  (body : pystr) :
  is_space x = false ->
  Forall (fun l => is_delim l = false) (splitlines (s0 ++ [x])) ->
  split_front_matter yaml_safe_load
    (FRONT_MATTER_DELIM ++ nl ++ (s0 ++ [x]) ++ nl
       ++ FRONT_MATTER_DELIM ++ nl ++ body)
  = (let* data :=
       match strip (relined (s0 ++ [x])) with
       | [] => Ok (VDict [])
       | _ => yaml_safe_load (relined (s0 ++ [x]))
       end in
     Ok ([], match data with VNone => VDict [] | _ => data end,
         relined body)).
Proof.
  intros Hx Hall.
  assert (Hlb : is_linebreak x = false).
  { destruct (is_linebreak x) eqn:E; [| reflexivity].
    apply linebreak_is_space in E. congruence. }
  set (L := splitlines (s0 ++ [x])) in *.
  assert (Hlines :
    splitlines (FRONT_MATTER_DELIM ++ nl ++ (s0 ++ [x]) ++ nl
                  ++ FRONT_MATTER_DELIM ++ nl ++ body)
    = FRONT_MATTER_DELIM :: L ++ FRONT_MATTER_DELIM :: splitlines body).
  { change (FRONT_MATTER_DELIM ++ nl ++ (s0 ++ [x]) ++ nl
              ++ FRONT_MATTER_DELIM ++ nl ++ body)
      with ([45%N; 45%N] ++ 45%N :: 10%N ::
              ((s0 ++ [x]) ++ nl ++ FRONT_MATTER_DELIM ++ nl ++ body)).
    rewrite (splitlines_app_nl _ 45 _ eq_refl).
    change (splitlines ([45%N; 45%N] ++ [45%N])) with [FRONT_MATTER_DELIM].
    cbn [app]. f_equal.
    rewrite <- app_assoc.
    change (s0 ++ [x] ++ nl ++ FRONT_MATTER_DELIM ++ nl ++ body)
      with (s0 ++ x :: 10%N :: ([45%N; 45%N] ++ 45%N :: 10%N :: body)).
    rewrite (splitlines_app_nl s0 x _ Hlb). fold L. f_equal.
    rewrite (splitlines_app_nl _ 45 _ eq_refl). reflexivity. }
  assert (Hfind : find_delim 1 (L ++ FRONT_MATTER_DELIM :: splitlines body)
                  = Some (1 + List.length L)%nat)
    by (apply find_delim_app; [exact Hall | reflexivity]).
  rewrite (split_front_matter_found yaml_safe_load _ _ _ _ Hlines eq_refl
             Hfind).
  assert (Hs1 : slice 1 (1 + List.length L)
                  (FRONT_MATTER_DELIM :: L
                     ++ FRONT_MATTER_DELIM :: splitlines body) = L).
  { unfold slice. cbn [skipn].
    replace (1 + List.length L - 1)%nat with (List.length L + 0)%nat by lia.
    rewrite firstn_app_2. simpl. apply app_nil_r. }
  assert (Hs2 : slice_from (1 + List.length L + 1)
                  (FRONT_MATTER_DELIM :: L
                     ++ FRONT_MATTER_DELIM :: splitlines body)
                = splitlines body).
  { unfold slice_from.
    replace (1 + List.length L + 1)%nat with (S (List.length L + 1))
      by lia.
    cbn [skipn]. rewrite skipn_app, skipn_all2 by lia.
    replace (List.length L + 1 - List.length L)%nat with 1%nat by lia.
    reflexivity. }
  rewrite Hs1, Hs2. reflexivity.
Qed.

Lemma written_header_back
  (yaml_safe_load : pystr -> result value) (yaml_dump : value -> pystr)
  (front : value) (body : pystr) (v : value) :
  strip (yaml_dump front) <> [] ->
  Forall (fun l => is_delim l = false)
         (splitlines (strip (yaml_dump front))) ->
  yaml_safe_load (relined (strip (yaml_dump front))) = Ok v ->
  split_front_matter yaml_safe_load
    (join_front_matter yaml_dump front ++ body)
  = Ok ([], match v with VNone => VDict [] | _ => v end, relined body).
Proof.
  intros Hne Hall Hload.
  destruct (strip_last (yaml_dump front)) as [E | [s0 [x [E Hx]]]];
    [contradiction |].
  unfold join_front_matter. rewrite E in *.
  replace ((FRONT_MATTER_DELIM ++ nl ++ (s0 ++ [x]) ++ nl
              ++ FRONT_MATTER_DELIM ++ nl) ++ body)
    with (FRONT_MATTER_DELIM ++ nl ++ (s0 ++ [x]) ++ nl
            ++ FRONT_MATTER_DELIM ++ nl ++ body)
    by (rewrite <- !app_assoc; reflexivity).
  rewrite (split_front_matter_written yaml_safe_load s0 x body Hx Hall).
  destruct (strip (relined (s0 ++ [x]))) as [|c r] eqn:Hs.
  - exfalso. apply strip_nil_iff in Hs.
    apply (proj2 (not_all_space_visible (relined (s0 ++ [x])))); [| exact Hs].
    apply relined_visible. exists x. split; [| exact Hx].
    apply in_or_app. right. left. reflexivity.
  - rewrite Hload. reflexivity.
Qed.

(** X14.  Reading a text that [join_front_matter] has written, with a
    body after it: when the dumped header has a visible character and no
    line that is a delimiter once stripped, [split_front_matter] hands
    PyYAML the lines of the stripped dump and gives back the lines of the
    body, joined by line feeds. *)
Theorem written_header_reads_back :
  forall (yaml_safe_load : pystr -> result value)
         (yaml_dump : value -> pystr) (front : value) (body : pystr)
         (v : value),
    strip (yaml_dump front) <> [] ->
    Forall (fun l => is_delim l = false)
           (splitlines (strip (yaml_dump front))) ->
    yaml_safe_load (relined (strip (yaml_dump front))) = Ok v ->
    split_front_matter yaml_safe_load
      (join_front_matter yaml_dump front ++ body)
    = Ok ([], match v with VNone => VDict [] | _ => v end, relined body).
Proof.
  intros yl yd front body v Hne Hall Hload.
  apply (written_header_back yl yd front body v Hne Hall Hload).
Qed.

Lemma written_header_reads_back_witness :
  split_front_matter yaml_load_fragment
    (join_front_matter yaml_dump_fragment empty_resources
       ++ str "hello" ++ nl)
  = Ok ([], empty_resources, str "hello").
Proof.
  apply (written_header_reads_back yaml_load_fragment yaml_dump_fragment
           empty_resources (str "hello" ++ nl) empty_resources).
  - intros H. vm_compute in H. discriminate.
  - vm_compute. repeat constructor.
  - reflexivity.
Defined.

Lemma relined_from_plain (s : pystr) :
  forall cur,
    only_newlines s -> no_final_break s ->
    join nl (splitlines_from cur s) = rev cur ++ s.
Proof.
  unfold no_final_break.
  induction s as [|c s IH]; intros cur Hp Hl.
  - simpl. destruct cur as [|x cur]; [reflexivity |].
    rewrite app_nil_r. reflexivity.
  - assert (Hp' : only_newlines s)
      by (intros d Hd; apply Hp; right; exact Hd).
    cbn [splitlines_from]. destruct (is_linebreak c) eqn:Hc.
    + assert (c = 10%N) by (apply Hp; [left; reflexivity | exact Hc]).
      subst c.
      destruct s as [|d s]; [simpl in Hl; discriminate |].
      change ((10 =? 13)%N) with false. cbn [andb].
      assert (Hl' : is_linebreak (last (d :: s) 0%N) = false) by exact Hl.
      pose proof (IH [] Hp' Hl') as E. cbn [rev app] in E.
      destruct (splitlines_from [] (d :: s)) as [|l ls] eqn:El;
        [simpl in E; discriminate |].
      change (join nl (rev cur :: l :: ls))
        with (rev cur ++ nl ++ join nl (l :: ls)).
      rewrite E. reflexivity.
    + destruct s as [|d s].
      * reflexivity.
      * rewrite (IH (c :: cur) Hp' Hl). simpl. rewrite <- app_assoc.
        reflexivity.
Qed.

Lemma relined_plain (s : pystr) :
  only_newlines s -> no_final_break s -> relined s = s.
Proof. intros Hp Hl. apply (relined_from_plain s [] Hp Hl). Qed.

Lemma strip_no_final_break (s : pystr) : no_final_break (strip s).
Proof.
  unfold no_final_break.
  destruct (strip_last s) as [-> | [s0 [x [-> Hx]]]]; [reflexivity |].
  rewrite last_last.
  destruct (is_linebreak x) eqn:E; [| reflexivity].
  apply linebreak_is_space in E. congruence.
Qed.

(** X15.  When the directory is unchanged, a second run on the text of the
    first writes the same text again, provided PyYAML reads the header it
    dumped back as the same mapping, the dump has the line feed as its
    only line break and no line that is a delimiter once stripped, and the
    body is white space only or has the line feed as its only line break
    and does not end in one. *)
Theorem second_run_reproduces_first :
  forall (yaml_safe_load : pystr -> result value)
         (yaml_dump : value -> pystr)
         (int_of_str : pystr -> option Z)
         (extract : pystr -> pystr * pystr) (a : args) (w : world)
         (front' : dict) (body : pystr),
    main_front yaml_safe_load int_of_str extract a w = Ok (front', body) ->
    only_newlines (strip (yaml_dump (VDict front'))) ->
    Forall (fun l => is_delim l = false)
           (splitlines (strip (yaml_dump (VDict front')))) ->
    yaml_safe_load (strip (yaml_dump (VDict front'))) = Ok (VDict front') ->
    has_visible_char (yaml_dump (VDict front')) ->
    all_space body \/ (only_newlines body /\ no_final_break body) ->
    exists out1,
      main_text yaml_safe_load yaml_dump int_of_str extract a w = Ok out1
      /\ main_text yaml_safe_load yaml_dump int_of_str extract a
           {| dir_name := dir_name w; today := today w; files := files w;
              index_md := Some out1 |}
         = Ok out1.
Proof.
  intros yl yd ios ex a w front' body Hfront Hplain Hall Hload Hvis Hbody.
  set (jfm := join_front_matter yd (VDict front')).
  set (body' := match strip body with [] => [] | _ => body end).
  assert (Hout : compose jfm body = jfm ++ body').
  { unfold compose, body'. destruct (strip body) as [|c r];
      [rewrite app_nil_r; reflexivity |].
    unfold jfm. rewrite join_front_matter_endswith_nl. reflexivity. }
  assert (Hout' : compose jfm body' = jfm ++ body').
  { unfold body'. destruct (strip body) as [|c r] eqn:Hs.
    - unfold compose. simpl. rewrite app_nil_r. reflexivity.
    - unfold compose. rewrite Hs. unfold jfm.
      rewrite join_front_matter_endswith_nl. reflexivity. }
  assert (Hrel : relined body' = body').
  { unfold body'. destruct (strip body) as [|c r] eqn:Hs; [reflexivity |].
    destruct Hbody as [Hsp | [Hp Hl]]; [| apply relined_plain; assumption].
    apply strip_nil_iff in Hsp. congruence. }
  assert (Hne : strip (yd (VDict front')) <> []).
  { intros E. apply strip_nil_iff in E.
    apply (proj2 (not_all_space_visible _) Hvis E). }
  assert (Hread : split_front_matter yl (jfm ++ body')
                  = Ok ([], VDict front', body')).
  { unfold jfm.
    rewrite (written_header_back yl yd (VDict front') body' (VDict front')
               Hne Hall).
    - rewrite Hrel. reflexivity.
    - rewrite (relined_plain _ Hplain (strip_no_final_break _)).
      exact Hload. }
  exists (jfm ++ body'). split.
  - unfold main_text. rewrite Hfront. simpl. fold jfm. rewrite Hout.
    reflexivity.
  - destruct (main_front_inv _ _ _ _ _ _ _ Hfront)
      as [front [merged [_ [Hr Hf']]]].
    pose proof (reconcile_again _ _ _ _ _ _ _
                  (list_images_nonempty (files w)) Hr) as Hagain.
    rewrite <- Hf' in Hagain.
    unfold main_text, main_front, load_front. cbn [index_md files].
    rewrite Hread. cbn [bind]. rewrite Hagain. cbn [bind].
    assert (Hsame : dict_set front' k_resources (VList merged) = front').
    { apply (assoc_set_same _ _ _ _ pystr_eqb_eq). subst front'.
      apply dict_get_set_same. }
    rewrite Hsame. fold jfm. rewrite Hout'. reflexivity.
Qed.

Lemma second_run_reproduces_first_witness :
  exists out1,
    main_text yaml_load_fragment yaml_dump_fragment int_of_ascii plain_extract
      no_options (album (manifest_text (str "hello")))
    = Ok out1
    /\ main_text yaml_load_fragment yaml_dump_fragment int_of_ascii
         plain_extract no_options (album out1)
       = Ok out1.
Proof.
  apply (second_run_reproduces_first yaml_load_fragment yaml_dump_fragment
           int_of_ascii plain_extract no_options
           (album (manifest_text (str "hello")))
           [(k_resources, VList [])] (str "hello")).
  - reflexivity.
  - intros c Hin Hlb. vm_compute in Hin.
    repeat (destruct Hin as [<- | Hin]; [vm_compute in Hlb; discriminate |]).
    destruct Hin.
  - vm_compute. repeat constructor.
  - reflexivity.
  - exists 114%N. split; [vm_compute; auto | reflexivity].
  - right. split; [| reflexivity].
    intros c Hin Hlb. vm_compute in Hin.
    repeat (destruct Hin as [<- | Hin]; [vm_compute in Hlb; discriminate |]).
    destruct Hin.
Defined.

(* ================================================================== *)
(** ** The merge on its own result *)

(** X16.  The merge is stable on the images of a directory: with its
    result stored under [resources], the merge of the same directory
    returns that result again. *)
Theorem reconcile_stable_on_directory :
  forall (int_of_str : pystr -> option Z)
         (extract : pystr -> pystr * pystr) (front : dict)
         (fs tags : list pystr) (loc : pystr) (final : list value),
    reconcile int_of_str extract front (list_images fs) tags loc = Ok final ->
    reconcile int_of_str extract (dict_set front k_resources (VList final))
              (list_images fs) tags loc
    = Ok final.
Proof.
  intros ios ex front fs tags loc final H.
  apply (reconcile_again ios ex front (list_images fs) tags loc final
           (list_images_nonempty fs) H).
Qed.

Lemma reconcile_stable_on_directory_witness :
  reconcile int_of_ascii plain_extract
    (dict_set front_b k_resources (VList final_ab))
    (list_images [str "b.jpg"; str "notes.txt"; str "a.jpg"]) tags_trip []
  = Ok final_ab.
Proof.
  apply (reconcile_stable_on_directory int_of_ascii plain_extract front_b
           [str "b.jpg"; str "notes.txt"; str "a.jpg"] tags_trip [] final_ab).
  reflexivity.
Defined.

(* ================================================================== *)
(** ** The tags of the command line *)

Lemma lstrip_fixed (s : pystr) (c : N) (r : pystr) :
  s = c :: r -> is_space c = false -> lstrip s = s.
Proof. intros -> H. simpl. rewrite H. reflexivity. Qed.

Lemma strip_first (s : pystr) (c : N) (r : pystr) :
  strip s = c :: r -> is_space c = false.
Proof.
  unfold strip, rstrip. intros H.
  destruct (lstrip_suffix (rev (lstrip s))) as [p [Hp _]].
  assert (E : lstrip s = rev (lstrip (rev (lstrip s))) ++ rev p).
  { rewrite <- rev_app_distr, <- Hp, rev_involutive. reflexivity. }
  rewrite H in E. simpl in E. apply (lstrip_head _ _ _ E).
Qed.

Lemma strip_strip (s : pystr) : strip (strip s) = strip s.
Proof.
  destruct (strip s) as [|c r] eqn:E; [reflexivity |].
  pose proof (strip_first s c r E) as Hc.
  destruct (strip_last s) as [E0 | [s0 [x [E1 Hx]]]]; [congruence |].
  rewrite E in E1.
  unfold strip, rstrip.
  rewrite (lstrip_fixed (c :: r) c r eq_refl Hc).
  rewrite E1, rev_app_distr. simpl.
  rewrite Hx. simpl. rewrite rev_involutive. reflexivity.
Qed.

Lemma split_from_no_sep (sep : N) (s : pystr) :
  forall (cur t : pystr),
    ~ In sep cur -> In t (split_from sep cur s) -> ~ In sep t.
Proof.
  induction s as [|c s IH]; intros cur t Hcur Ht; simpl in Ht.
  - destruct Ht as [<- | []]. intros H. apply in_rev in H. auto.
  - destruct (N.eqb_spec c sep) as [-> | Hne].
    + destruct Ht as [<- | Ht].
      * intros H. apply in_rev in H. auto.
      * apply (IH [] t); [intros [] | exact Ht].
    + apply (IH (c :: cur) t); [| exact Ht].
      intros [E | H]; [apply Hne; exact E | auto].
Qed.

(** X17.  The tags read from a comma-separated option: each has a
    character, no white space at either end and no comma. *)
Theorem split_commas_clean :
  forall (s t : pystr),
    In t (split_commas s) ->
    has_visible_char t /\ strip t = t /\ ~ In 44%N t.
Proof.
  intros s t Ht. unfold split_commas in Ht.
  apply in_map_iff in Ht as [u [<- Hu]].
  apply filter_In in Hu as [Hu Hne].
  split; [| split].
  - apply not_all_space_visible. intros Hall.
    apply strip_nil_iff in Hall. rewrite strip_strip in Hall.
    rewrite Hall in Hne. discriminate.
  - apply strip_strip.
  - intros H. apply strip_in in H.
    apply (split_from_no_sep 44 s [] u (fun F => F) Hu H).
Qed.

Lemma split_commas_clean_witness :
  has_visible_char (str "trip") /\ strip (str "trip") = str "trip"
  /\ ~ In 44%N (str "trip").
Proof.
  apply (split_commas_clean (str " trip , ,2024") (str "trip")).
  left. reflexivity.
Defined.

(* ================================================================== *)
(** ** A stored entry in the list that is written *)




(* ================================================================== *)
(** ** A weight that is an infinite float *)

(** [int] overflows on the stored weight [.inf] of a deleted file, the
    first loop of [update_weights_preserve_existing] does not catch the
    exception, and the run ends. *)
Example infinite_weight_ends_run :
  reconcile int_of_ascii plain_extract
    [(k_resources, VList [entry_b; entry_inf])] images_ab tags_trip []
  = Raise OverflowError.
Proof. reflexivity. Qed.
